(** * nightreign-overlay-helper: a shallow embedding of four source files

    - [src/detector/map_detector.py]     (module [MapDetector])
    - [src/ui/utils.py]                  (module [UiUtils])
    - [src/ui/map_overlay.py]            (module [MapOverlay])
    - [scripts/ci_version.py]            (module [CiVersion])

    The properties follow the definitions: one module of facts for each
    module of code, then one module of further properties for each.

    Conventions.
    - Python [int] is [Z]; [//] on ints is [Z.div] (both round towards
      minus infinity for a positive divisor).
    - Python [float] is IEEE binary64, i.e. Rocq's primitive [float];
      [int(f)] truncates towards zero and raises on nan and infinities.
    - Python [str] is [string]; a character is a code point below 256.
    - [dict]s are [gmap]s, sets are [gset]s.
    - Exceptions are values of [exn]; code that can raise returns
      [result]; code that raises and mutates is a state-and-error monad. *)

From Stdlib Require Import ZArith Lia Bool List Ascii String.
From Stdlib Require Import Sorting.Sorted Sorting.Permutation.
From Stdlib Require Import PrimFloat FloatOps SpecFloat.
From stdpp Require Import base option list gmap strings.

Set Warnings "-inexact-float".
Local Open Scope Z_scope.

(** ** Python exceptions and results *)

Inductive exn : Type :=
| TypeError
| ValueError
| ZeroDivisionError
| OverflowError
| IndexError
| FileNotFoundError
| VersionError (msg : string).

Inductive result (A : Type) : Type :=
| Ok (a : A)
| Raise (e : exn).
Arguments Ok {A} a.
Arguments Raise {A} e.

Definition rbind {A B} (r : result A) (k : A -> result B) : result B :=
  match r with
  | Ok a => k a
  | Raise e => Raise e
  end.

Declare Scope result_scope.
Delimit Scope result_scope with res.
Notation "'let?' x ':=' r 'in' k" := (rbind r (fun x => k))
  (at level 10, x pattern, r at level 100, k at level 200) : result_scope.

Definition is_ok {A} (r : result A) : bool :=
  match r with Ok _ => true | Raise _ => false end.

(** ** Python floats *)

Module PyFloat.

(** [float(z)]: the nearest binary64 (ties to even); Python raises
    OverflowError when the integer is too large for a finite float. *)
Definition of_int (z : Z) : result float :=
  let f := SF2Prim (binary_normalize prec emax z 0 false) in
  if PrimFloat.is_infinity f then Raise OverflowError else Ok f.

(** [int(f)]: truncation towards zero; ValueError on nan, OverflowError on
    an infinity. *)
Definition to_int (f : float) : result Z :=
  match Prim2SF f with
  | S754_zero _ => Ok 0
  | S754_finite s m e =>
      let mag := if 0 <=? e then Z.pos m * 2 ^ e else Z.pos m / 2 ^ (- e) in
      Ok (if s then - mag else mag)
  | S754_infinity _ => Raise OverflowError
  | S754_nan => Raise ValueError
  end.

(** [a / b] on floats raises ZeroDivisionError when [b] is zero. *)
Definition truediv (a b : float) : result float :=
  if PrimFloat.eqb b 0%float then Raise ZeroDivisionError
  else Ok (PrimFloat.div a b).

(** [f.is_integer()] *)
Definition is_integer (f : float) : bool :=
  match to_int f with
  | Ok z => match of_int z with
            | Ok g => PrimFloat.eqb f g
            | Raise _ => false
            end
  | Raise _ => false
  end.

End PyFloat.

(** ** src/detector/map_detector.py *)

Module MapDetector.

Inductive Attribute := FIRE | MAGIC | THUNDER | HOLY.
Inductive Condition :=
  BLEED | FROST | DEATH | FRENZY | CORRUPTION | POISON | SLEEP.

(** A value of type [Attribute | Condition]. *)
Inductive Subicon :=
| Attr (a : Attribute)
| Cond (c : Condition).

#[global] Instance Attribute_eq_dec : EqDecision Attribute.
Proof. solve_decision. Defined.
#[global] Instance Condition_eq_dec : EqDecision Condition.
Proof. solve_decision. Defined.
#[global] Instance Subicon_eq_dec : EqDecision Subicon.
Proof. solve_decision. Defined.

Definition CTYPE_SUBICON_MAP : gmap Z Subicon :=
  list_to_map [
    (30301, Attr MAGIC);
    (32101, Attr FIRE);
    (32102, Attr THUNDER);
    (32200, Attr FIRE);
    (32201, Cond FRENZY);
    (34001, Cond BLEED);
    (34002, Cond FROST);
    (34003, Attr HOLY);
    (34100, Cond POISON);
    (34101, Cond POISON);
    (34102, Attr MAGIC);
    (34103, Cond FROST);
    (34104, Cond SLEEP);
    (34200, Cond DEATH);
    (34300, Attr THUNDER);
    (38000, Attr HOLY);
    (38100, Attr FIRE);
    (50001, Cond POISON);
    (50011, Cond POISON);
    (50020, Cond FROST);
    (50030, Cond SLEEP);
    (50040, Cond CORRUPTION);
    (50050, Cond FRENZY);
    (50102, Cond BLEED);
    (50103, Attr THUNDER);
    (50104, Attr HOLY);
    (50113, Attr FIRE);
    (50114, Cond POISON);
    (50116, Attr THUNDER);
    (53580, Attr FIRE);
    (53590, Attr MAGIC);
    (53670, Cond CORRUPTION);
    (53680, Attr HOLY);
    (52500, Cond BLEED);
    (52520, Cond POISON);
    (52570, Cond SLEEP);
    (52550, Attr MAGIC);
    (52450, Cond SLEEP);
    (52460, Attr THUNDER);
    (52400, Attr HOLY);
    (52420, Cond FROST)
  ].

Definition has_same_base_icon (ctype1 ctype2 : Z) : bool :=
  if (ctype1 / 10000 =? 5) || (ctype2 / 10000 =? 5) then
    ctype1 / 100 =? ctype2 / 100
  else
    ctype1 / 1000 =? ctype2 / 1000.

(** The decimal digit of [c] at position [i] (position 0 is the last
    digit); a five-digit code has the positions 4, 3, 2, 1, 0. *)
Definition digit (c : Z) (i : Z) : Z := (c / 10 ^ i) mod 10.

(** The leading three digits of two five-digit codes agree. *)
Definition same_leading3 (c1 c2 : Z) : Prop :=
  digit c1 4 = digit c2 4 /\ digit c1 3 = digit c2 3 /\ digit c1 2 = digit c2 2.

(** [Position] is a pair of board coordinates. *)
Definition Position : Type := Z * Z.

Record Construct := {
  c_type : Z;
  c_pos : Z;
  c_is_display : bool;
}.

Record MapPattern := {
  p_id : Z;
  p_nightlord : Z;
  p_earth_shifting : Z;
  pos_constructions : gmap Position Construct;
}.

Record MapPatternMatchResult := {
  r_pattern : MapPattern;
  r_nightlord : option Z;
  r_score : Z;
  r_error : Z;
}.

Definition EMPTY_CONSTRUCTION : Construct :=
  {| c_type := 0; c_pos := 0; c_is_display := false |}.

(** Truth value of an [Attribute | Condition | None]: members of a plain
    [Enum] are all true, [None] is false. *)
Definition truthy (s : option Subicon) : bool :=
  match s with Some _ => true | None => false end.

(** The body of the inner loop of [_match_map_pattern] (lines 609-628):
    what one sampled position adds to [(score, error)], for the observed
    [ctype] and the expected [expect_ctype]. *)
Definition position_contribution (ctype expect_ctype : Z) : Z * Z :=
  let subicon := CTYPE_SUBICON_MAP !! ctype in
  let expect_subicon := CTYPE_SUBICON_MAP !! expect_ctype in
  if negb (has_same_base_icon ctype expect_ctype) then
    if bool_decide (subicon = expect_subicon) then (1, 3)
    else (0, 10)
  else
    if bool_decide (subicon = expect_subicon) then (10, 0)
    else if truthy subicon || truthy expect_subicon then (0, 10)
    else (3, 1).

(** Lines 605-607: the expected construct type of [pattern] at [pos]. *)
Definition expected_ctype (all_poi_images : gset Z) (pattern : MapPattern)
    (pos : Position) : Z :=
  let expect_ctype := c_type (default EMPTY_CONSTRUCTION (pos_constructions pattern !! pos)) in
  if bool_decide (expect_ctype ∈ all_poi_images) then expect_ctype else 0.

(** Lines 603-628: the totals of one pattern over the sampled positions
    [poi_result], in the dict's iteration order. *)
Definition score_pattern (all_poi_images : gset Z)
    (poi_result : list (Position * Z)) (pattern : MapPattern) : Z * Z :=
  fold_left
    (fun (acc : Z * Z) (item : Position * Z) =>
       let '(score, error) := acc in
       let '(pos, ctype) := item in
       let '(s, e) :=
         position_contribution ctype (expected_ctype all_poi_images pattern pos) in
       (score + s, error + e))
    poi_result (0, 0).

(** Lines 598-636: the scored candidates. *)
Definition candidates (patterns : list MapPattern) (all_poi_images : gset Z)
    (earth_shifting : Z) (nightlord : option Z)
    (poi_result : list (Position * Z)) : list MapPatternMatchResult :=
  omap
    (fun pattern =>
       if negb (p_earth_shifting pattern =? earth_shifting) then None
       else if match nightlord with
               | Some nl => negb (p_nightlord pattern =? nl)
               | None => false
               end then None
       else
         let '(score, error) := score_pattern all_poi_images poi_result pattern in
         Some {| r_pattern := pattern; r_nightlord := nightlord;
                 r_score := score; r_error := error |})
    patterns.

(** The sort key [lambda x: (x.error, -x.score)] and the order of tuples. *)
Definition sort_key (x : MapPatternMatchResult) : Z * Z :=
  (r_error x, - r_score x).

Definition tuple_leb (a b : Z * Z) : bool :=
  (a.1 <? b.1) || ((a.1 =? b.1) && (a.2 <=? b.2)).

(** [sorted(l, key=key)]: Python's sort is stable, and a stable sort is
    determined by the key order; it is written here as a stable insertion
    sort. *)
Fixpoint insert_by {A} (key : A -> Z * Z) (x : A) (l : list A) : list A :=
  match l with
  | [] => [x]
  | y :: l' =>
      if tuple_leb (key x) (key y) then x :: y :: l'
      else y :: insert_by key x l'
  end.

Definition sorted {A} (key : A -> Z * Z) (l : list A) : list A :=
  foldr (insert_by key) [] l.

(** [l[:k]] for [k : int | None]. *)
Definition slice_to {A} (l : list A) (k : option Z) : list A :=
  match k with
  | None => l
  | Some k =>
      if 0 <=? k then take (Z.to_nat k) l
      else take (Z.to_nat (Z.of_nat (length l) + k)) l
  end.

(** Lines 638-642. *)
Definition rank_topk (results : list MapPatternMatchResult) (topk : option Z)
    : list MapPatternMatchResult :=
  slice_to (sorted sort_key results) topk.

(** The part of [_match_map_pattern] after the image work: the observed
    nightlord and the observed construct types are inputs. *)
Definition _match_map_pattern (patterns : list MapPattern)
    (all_poi_images : gset Z) (earth_shifting : Z) (nightlord : option Z)
    (poi_result : list (Position * Z)) (topk : option Z)
    : list MapPatternMatchResult :=
  rank_topk (candidates patterns all_poi_images earth_shifting nightlord poi_result) topk.

(** [POI_ICON_SCALE]; [POI_ICONS] has the same keys. *)
Definition POI_ICON_SCALE : gmap Z float :=
  list_to_map [
    (30, 0.35%float); (32, 0.5%float); (34, 0.4%float); (37, 0.4%float);
    (38, 0.3%float); (40, 0.4%float); (41, 0.38%float);
    (510, 0.38%float); (511, 0.4%float); (500, 0.15%float); (501, 0.2%float);
    (524, 0.3%float); (525, 0.4%float);
    (535, 0.15%float); (536, 0.18%float)
  ].

(** [k in POI_ICONS] *)
Definition in_POI_ICONS (k : Z) : bool :=
  bool_decide (is_Some (POI_ICON_SCALE !! k)).

Definition get_poi_key (ctype : Z) : option Z :=
  if in_POI_ICONS (ctype / 100) then Some (ctype / 100)
  else if in_POI_ICONS (ctype / 1000) then Some (ctype / 1000)
  else None.

(** The [while x:] loop of [match_prefix] for one prefix [p], which is not
    0: [Some true] is [return True], [Some false] is the end of the loop
    (by [break] or because [x] is 0), and [None] says that the loop is
    still running after [fuel] rounds. *)
Fixpoint match_prefix_loop (fuel : nat) (x p : Z) : option bool :=
  match fuel with
  | O => None
  | S fuel' =>
      if x =? 0 then Some false
      else if x <? p then Some false
      else if x =? p then Some true
      else match_prefix_loop fuel' (x / 10) p
  end.

(** [match_prefix(ctype, prefix)] for a list [prefix]; every loop gets
    [fuel] rounds. *)
Fixpoint match_prefix (fuel : nat) (ctype : Z) (prefix : list Z) : option bool :=
  match prefix with
  | [] => Some false
  | p :: prefix' =>
      if p =? 0 then
        if ctype =? 0 then Some true else match_prefix fuel ctype prefix'
      else
        match match_prefix_loop fuel ctype p with
        | None => None
        | Some true => Some true
        | Some false => match_prefix fuel ctype prefix'
        end
  end.

(** [match_prefix(ctype, prefix)] for an int [prefix]. *)
Definition match_prefix_int (fuel : nat) (ctype p : Z) : option bool :=
  match_prefix fuel ctype [p].

(** [p] is what is left of [ctype] after some of its last decimal digits
    are dropped. *)
Definition decimal_prefix (p ctype : Z) : Prop :=
  exists i, 0 <= i /\ ctype / 10 ^ i = p.

(** The ranking of the specification: [a] may stand before [b] when its
    error is lower, or the errors are equal and its score is not lower. *)
Definition ranks_before (a b : MapPatternMatchResult) : Prop :=
  r_error a < r_error b \/ (r_error a = r_error b /\ r_score b <= r_score a).

(** A candidate with nothing but a score and an error. *)
Definition candidate (score error : Z) : MapPatternMatchResult :=
  {| r_pattern := {| p_id := 0; p_nightlord := 0; p_earth_shifting := 0;
                     pos_constructions := ∅ |};
     r_nightlord := None; r_score := score; r_error := error |}.

End MapDetector.

(** ** src/ui/utils.py *)

Module UiUtils.
Import PyFloat.
Local Open Scope result_scope.

(** What the code reads from a [QScreen]. *)
Record Screen := {
  geometry_x : Z;
  geometry_y : Z;
  geometry_width : Z;
  geometry_height : Z;
  devicePixelRatio : float;
}.

(** [a <= b] on values that may be [None]: comparing with [None] raises. *)
Definition py_le (a b : option Z) : result bool :=
  match a, b with
  | Some a, Some b => Ok (a <=? b)
  | _, _ => Raise TypeError
  end.

(** [a - b] on values that may be [None]. *)
Definition py_sub (a b : option Z) : result Z :=
  match a, b with
  | Some a, Some b => Ok (a - b)
  | _, _ => Raise TypeError
  end.

(** [int(n * ratio)] for an int [n]. *)
Definition int_mul (n : Z) (ratio : float) : result Z :=
  let? f := of_int n in to_int (PrimFloat.mul f ratio).

(** [int(n / ratio)] for an int [n]. *)
Definition int_div (n : Z) (ratio : float) : result Z :=
  let? f := of_int n in
  let? q := truediv f ratio in
  to_int q.

Definition Region : Type := option Z * option Z * option Z * option Z.

(** [screens] is [QApplication.instance().screens()]. *)
Fixpoint get_qt_screen_by_mss_region (screens : list Screen) (region : Region)
    : result Screen :=
  let '(x, y, w, h) := region in
  match screens with
  | [] => Raise ValueError
  | screen :: screens' =>
      let sx := geometry_x screen in
      let sy := geometry_y screen in
      let sw := geometry_width screen in
      let sh := geometry_height screen in
      let ratio := devicePixelRatio screen in
      let? mss_sw := int_mul sw ratio in
      let? mss_sh := int_mul sh ratio in
      let? a1 := py_le (Some sx) x in
      let? a2 := if a1 then py_le x (Some (sx + mss_sw)) else Ok false in
      let? b1 := if a2 then py_le (Some sy) y else Ok false in
      let? b2 := if b1 then py_le y (Some (sy + mss_sh)) else Ok false in
      if b2 then Ok screen
      else get_qt_screen_by_mss_region screens' region
  end.

Definition mss_region_to_qt_region (screens : list Screen) (region : Region)
    : result (Z * Z * Z * Z) :=
  let? screen := get_qt_screen_by_mss_region screens region in
  let '(x, y, w, h) := region in
  let sx := geometry_x screen in
  let sy := geometry_y screen in
  let ratio := devicePixelRatio screen in
  let? dx := py_sub x (Some sx) in
  let? qx' := int_div dx ratio in
  let qx := sx + qx' in
  let? dy := py_sub y (Some sy) in
  let? qy' := int_div dy ratio in
  let qy := sy + qy' in
  let? w := match w with Some w => Ok w | None => Raise TypeError end in
  let? qw := int_div w ratio in
  let? h := match h with Some h => Ok h | None => Raise TypeError end in
  let? qh := int_div h ratio in
  Ok (qx, qy, qw, qh).

Definition process_region_to_adapt_scale (region : Z * Z * Z * Z) (scale : float)
    : result (Z * Z * Z * Z) :=
  let '(x, y, w, h) := region in
  let? w' := int_div w scale in
  let? new_w := int_mul w' scale in
  let? h' := int_div h scale in
  let? new_h := int_mul h' scale in
  Ok (x, y, new_w, new_h).

End UiUtils.

(** ** src/ui/map_overlay.py *)

Module MapOverlay.
Import PyFloat.

(** The patch object [MapOverlayUIState]; [Image] stands for
    [PIL.Image.Image], whose pixels no modelled code inspects. *)
Module UIState.
Record t {Image : Type} := mk {
  x : option Z;
  y : option Z;
  w : option Z;
  h : option Z;
  opacity : option float;
  visible : option bool;
  overlay_images : option (list Image);
  display_crystal_layout : option bool;
  clear_image : bool;
  map_pattern_matching : option bool;
  map_pattern_match_time : option float;
  only_show_when_game_foreground : option bool;
  is_game_foreground : option bool;
  is_menu_opened : option bool;
  is_setting_opened : option bool;
}.
Arguments t : clear implicits.
Arguments mk {Image}.

(** [MapOverlayUIState()]: every field at its default. *)
Definition default {Image} : t Image :=
  mk None None None None None None None None false None None None None None None.
End UIState.
Abbreviation MapOverlayUIState := UIState.t.

(** The attributes of [MapOverlayWidget] and the Qt state it reads and
    writes: [geometry], [windowOpacity] and [isVisible] are the QWidget's,
    [overlay_image_box] and [crystal_layout_image_box] are the pixmaps the
    two labels show ([None] after [clear()]). *)
Record MapOverlayWidget {Image : Type} := {
  geometry : Z * Z * Z * Z;
  windowOpacity : float;
  isVisible : bool;
  map_pattern_idx : option Z;
  overlay_images : option (list Image);
  map_pattern_match_time : float;
  map_pattern_matching : bool;
  overlay_image_box : option Image;
  crystal_layout_idx : option Z;
  crystal_layout_imgs : list Image;
  crystal_layout_image_box : option Image;
  target_opacity : float;
  visible : bool;
  only_show_when_game_foreground : bool;
  is_game_foreground : bool;
  is_menu_opened : bool;
  is_setting_opened : bool;
}.
Arguments MapOverlayWidget : clear implicits.

Section Methods.
Context {Image : Type}.
Abbreviation Widget := (MapOverlayWidget Image).

(** Attribute assignments. *)
Definition set_geometry (v : Z * Z * Z * Z) (s : Widget) : Widget :=
  {| geometry := v; windowOpacity := windowOpacity s; isVisible := isVisible s;
     map_pattern_idx := map_pattern_idx s; overlay_images := overlay_images s;
     map_pattern_match_time := map_pattern_match_time s;
     map_pattern_matching := map_pattern_matching s;
     overlay_image_box := overlay_image_box s;
     crystal_layout_idx := crystal_layout_idx s;
     crystal_layout_imgs := crystal_layout_imgs s;
     crystal_layout_image_box := crystal_layout_image_box s;
     target_opacity := target_opacity s; visible := visible s;
     only_show_when_game_foreground := only_show_when_game_foreground s;
     is_game_foreground := is_game_foreground s;
     is_menu_opened := is_menu_opened s; is_setting_opened := is_setting_opened s |}.

Definition set_windowOpacity (v : float) (s : Widget) : Widget :=
  {| geometry := geometry s; windowOpacity := v; isVisible := isVisible s;
     map_pattern_idx := map_pattern_idx s; overlay_images := overlay_images s;
     map_pattern_match_time := map_pattern_match_time s;
     map_pattern_matching := map_pattern_matching s;
     overlay_image_box := overlay_image_box s;
     crystal_layout_idx := crystal_layout_idx s;
     crystal_layout_imgs := crystal_layout_imgs s;
     crystal_layout_image_box := crystal_layout_image_box s;
     target_opacity := target_opacity s; visible := visible s;
     only_show_when_game_foreground := only_show_when_game_foreground s;
     is_game_foreground := is_game_foreground s;
     is_menu_opened := is_menu_opened s; is_setting_opened := is_setting_opened s |}.

Definition set_isVisible (v : bool) (s : Widget) : Widget :=
  {| geometry := geometry s; windowOpacity := windowOpacity s; isVisible := v;
     map_pattern_idx := map_pattern_idx s; overlay_images := overlay_images s;
     map_pattern_match_time := map_pattern_match_time s;
     map_pattern_matching := map_pattern_matching s;
     overlay_image_box := overlay_image_box s;
     crystal_layout_idx := crystal_layout_idx s;
     crystal_layout_imgs := crystal_layout_imgs s;
     crystal_layout_image_box := crystal_layout_image_box s;
     target_opacity := target_opacity s; visible := visible s;
     only_show_when_game_foreground := only_show_when_game_foreground s;
     is_game_foreground := is_game_foreground s;
     is_menu_opened := is_menu_opened s; is_setting_opened := is_setting_opened s |}.

Definition set_map_pattern_idx (v : option Z) (s : Widget) : Widget :=
  {| geometry := geometry s; windowOpacity := windowOpacity s; isVisible := isVisible s;
     map_pattern_idx := v; overlay_images := overlay_images s;
     map_pattern_match_time := map_pattern_match_time s;
     map_pattern_matching := map_pattern_matching s;
     overlay_image_box := overlay_image_box s;
     crystal_layout_idx := crystal_layout_idx s;
     crystal_layout_imgs := crystal_layout_imgs s;
     crystal_layout_image_box := crystal_layout_image_box s;
     target_opacity := target_opacity s; visible := visible s;
     only_show_when_game_foreground := only_show_when_game_foreground s;
     is_game_foreground := is_game_foreground s;
     is_menu_opened := is_menu_opened s; is_setting_opened := is_setting_opened s |}.

Definition set_overlay_images_attr (v : option (list Image)) (s : Widget) : Widget :=
  {| geometry := geometry s; windowOpacity := windowOpacity s; isVisible := isVisible s;
     map_pattern_idx := map_pattern_idx s; overlay_images := v;
     map_pattern_match_time := map_pattern_match_time s;
     map_pattern_matching := map_pattern_matching s;
     overlay_image_box := overlay_image_box s;
     crystal_layout_idx := crystal_layout_idx s;
     crystal_layout_imgs := crystal_layout_imgs s;
     crystal_layout_image_box := crystal_layout_image_box s;
     target_opacity := target_opacity s; visible := visible s;
     only_show_when_game_foreground := only_show_when_game_foreground s;
     is_game_foreground := is_game_foreground s;
     is_menu_opened := is_menu_opened s; is_setting_opened := is_setting_opened s |}.

Definition set_map_pattern_match_time (v : float) (s : Widget) : Widget :=
  {| geometry := geometry s; windowOpacity := windowOpacity s; isVisible := isVisible s;
     map_pattern_idx := map_pattern_idx s; overlay_images := overlay_images s;
     map_pattern_match_time := v;
     map_pattern_matching := map_pattern_matching s;
     overlay_image_box := overlay_image_box s;
     crystal_layout_idx := crystal_layout_idx s;
     crystal_layout_imgs := crystal_layout_imgs s;
     crystal_layout_image_box := crystal_layout_image_box s;
     target_opacity := target_opacity s; visible := visible s;
     only_show_when_game_foreground := only_show_when_game_foreground s;
     is_game_foreground := is_game_foreground s;
     is_menu_opened := is_menu_opened s; is_setting_opened := is_setting_opened s |}.

Definition set_map_pattern_matching (v : bool) (s : Widget) : Widget :=
  {| geometry := geometry s; windowOpacity := windowOpacity s; isVisible := isVisible s;
     map_pattern_idx := map_pattern_idx s; overlay_images := overlay_images s;
     map_pattern_match_time := map_pattern_match_time s;
     map_pattern_matching := v;
     overlay_image_box := overlay_image_box s;
     crystal_layout_idx := crystal_layout_idx s;
     crystal_layout_imgs := crystal_layout_imgs s;
     crystal_layout_image_box := crystal_layout_image_box s;
     target_opacity := target_opacity s; visible := visible s;
     only_show_when_game_foreground := only_show_when_game_foreground s;
     is_game_foreground := is_game_foreground s;
     is_menu_opened := is_menu_opened s; is_setting_opened := is_setting_opened s |}.

Definition set_overlay_image_box (v : option Image) (s : Widget) : Widget :=
  {| geometry := geometry s; windowOpacity := windowOpacity s; isVisible := isVisible s;
     map_pattern_idx := map_pattern_idx s; overlay_images := overlay_images s;
     map_pattern_match_time := map_pattern_match_time s;
     map_pattern_matching := map_pattern_matching s;
     overlay_image_box := v;
     crystal_layout_idx := crystal_layout_idx s;
     crystal_layout_imgs := crystal_layout_imgs s;
     crystal_layout_image_box := crystal_layout_image_box s;
     target_opacity := target_opacity s; visible := visible s;
     only_show_when_game_foreground := only_show_when_game_foreground s;
     is_game_foreground := is_game_foreground s;
     is_menu_opened := is_menu_opened s; is_setting_opened := is_setting_opened s |}.

Definition set_crystal_layout_idx (v : option Z) (s : Widget) : Widget :=
  {| geometry := geometry s; windowOpacity := windowOpacity s; isVisible := isVisible s;
     map_pattern_idx := map_pattern_idx s; overlay_images := overlay_images s;
     map_pattern_match_time := map_pattern_match_time s;
     map_pattern_matching := map_pattern_matching s;
     overlay_image_box := overlay_image_box s;
     crystal_layout_idx := v;
     crystal_layout_imgs := crystal_layout_imgs s;
     crystal_layout_image_box := crystal_layout_image_box s;
     target_opacity := target_opacity s; visible := visible s;
     only_show_when_game_foreground := only_show_when_game_foreground s;
     is_game_foreground := is_game_foreground s;
     is_menu_opened := is_menu_opened s; is_setting_opened := is_setting_opened s |}.

Definition set_crystal_layout_image_box (v : option Image) (s : Widget) : Widget :=
  {| geometry := geometry s; windowOpacity := windowOpacity s; isVisible := isVisible s;
     map_pattern_idx := map_pattern_idx s; overlay_images := overlay_images s;
     map_pattern_match_time := map_pattern_match_time s;
     map_pattern_matching := map_pattern_matching s;
     overlay_image_box := overlay_image_box s;
     crystal_layout_idx := crystal_layout_idx s;
     crystal_layout_imgs := crystal_layout_imgs s;
     crystal_layout_image_box := v;
     target_opacity := target_opacity s; visible := visible s;
     only_show_when_game_foreground := only_show_when_game_foreground s;
     is_game_foreground := is_game_foreground s;
     is_menu_opened := is_menu_opened s; is_setting_opened := is_setting_opened s |}.

Definition set_target_opacity (v : float) (s : Widget) : Widget :=
  {| geometry := geometry s; windowOpacity := windowOpacity s; isVisible := isVisible s;
     map_pattern_idx := map_pattern_idx s; overlay_images := overlay_images s;
     map_pattern_match_time := map_pattern_match_time s;
     map_pattern_matching := map_pattern_matching s;
     overlay_image_box := overlay_image_box s;
     crystal_layout_idx := crystal_layout_idx s;
     crystal_layout_imgs := crystal_layout_imgs s;
     crystal_layout_image_box := crystal_layout_image_box s;
     target_opacity := v; visible := visible s;
     only_show_when_game_foreground := only_show_when_game_foreground s;
     is_game_foreground := is_game_foreground s;
     is_menu_opened := is_menu_opened s; is_setting_opened := is_setting_opened s |}.

Definition set_visible (v : bool) (s : Widget) : Widget :=
  {| geometry := geometry s; windowOpacity := windowOpacity s; isVisible := isVisible s;
     map_pattern_idx := map_pattern_idx s; overlay_images := overlay_images s;
     map_pattern_match_time := map_pattern_match_time s;
     map_pattern_matching := map_pattern_matching s;
     overlay_image_box := overlay_image_box s;
     crystal_layout_idx := crystal_layout_idx s;
     crystal_layout_imgs := crystal_layout_imgs s;
     crystal_layout_image_box := crystal_layout_image_box s;
     target_opacity := target_opacity s; visible := v;
     only_show_when_game_foreground := only_show_when_game_foreground s;
     is_game_foreground := is_game_foreground s;
     is_menu_opened := is_menu_opened s; is_setting_opened := is_setting_opened s |}.

(** The four foreground flags are assigned together: each argument is the
    new value of its flag. *)
Definition set_flags (a b c d : bool) (s : Widget) : Widget :=
  {| geometry := geometry s; windowOpacity := windowOpacity s; isVisible := isVisible s;
     map_pattern_idx := map_pattern_idx s; overlay_images := overlay_images s;
     map_pattern_match_time := map_pattern_match_time s;
     map_pattern_matching := map_pattern_matching s;
     overlay_image_box := overlay_image_box s;
     crystal_layout_idx := crystal_layout_idx s;
     crystal_layout_imgs := crystal_layout_imgs s;
     crystal_layout_image_box := crystal_layout_image_box s;
     target_opacity := target_opacity s; visible := visible s;
     only_show_when_game_foreground := a;
     is_game_foreground := b;
     is_menu_opened := c; is_setting_opened := d |}.

(** A method is a function from the widget to an outcome and the widget
    it leaves behind; an exception keeps the assignments made before it. *)
Definition M (A : Type) : Type := Widget -> result A * Widget.

Definition ret {A} (a : A) : M A := fun s => (Ok a, s).
Definition raise {A} (e : exn) : M A := fun s => (Raise e, s).
Definition bind {A B} (m : M A) (k : A -> M B) : M B :=
  fun s => match m s with
           | (Ok a, s') => k a s'
           | (Raise e, s') => (Raise e, s')
           end.
Definition get {A} (f : Widget -> A) : M A := fun s => (Ok (f s), s).
Definition modify (f : Widget -> Widget) : M unit := fun s => (Ok tt, f s).
Definition lift {A} (r : result A) : M A := fun s => (r, s).
Definition when (b : bool) (m : M unit) : M unit := if b then m else ret tt.

Notation "'do' x <- m ;; k" := (bind m (fun x => k))
  (at level 10, x pattern, m at level 90, k at level 200).
Notation "'run' m ;; k" := (bind m (fun _ => k))
  (at level 10, m at level 90, k at level 200).

(** [l[i]] on a list: negative indices count from the end. *)
Definition py_index {A} (l : list A) (i : Z) : result A :=
  let n := Z.of_nat (length l) in
  let j := if i <? 0 then i + n else i in
  if (0 <=? j) && (j <? n) then
    match l !! Z.to_nat j with
    | Some a => Ok a
    | None => Raise IndexError
    end
  else Raise IndexError.

(** [l[i]] when [i] may be [None]. *)
Definition py_index_opt {A} (l : list A) (i : option Z) : result A :=
  match i with
  | Some i => py_index l i
  | None => Raise TypeError
  end.

(** [not l] for [l : list | None]. *)
Definition falsy {A} (l : option (list A)) : bool :=
  match l with
  | None => true
  | Some [] => true
  | Some (_ :: _) => false
  end.

Definition update_overlay_images : M unit :=
  do imgs <- get overlay_images ;;
  if falsy imgs then
    run modify (set_overlay_images_attr None) ;;
    modify (set_overlay_image_box None)
  else
    do idx <- get map_pattern_idx ;;
    do img <- lift (py_index_opt (default [] imgs) idx) ;;
    modify (set_overlay_image_box (Some img)).

Definition set_overlay_images (imgs : option (list Image)) : M unit :=
  run modify (set_overlay_images_attr imgs) ;;
  run modify (set_map_pattern_idx (Some 0)) ;;
  update_overlay_images.

(** [self.map_pattern_idx += d]: raises on [None]. *)
Definition add_map_pattern_idx (d : Z) : M Z :=
  do idx <- get map_pattern_idx ;;
  match idx with
  | None => raise TypeError
  | Some i => run modify (set_map_pattern_idx (Some (i + d))) ;; ret (i + d)
  end.

Definition next_overlay_image : M unit :=
  do vis <- get visible ;;
  do imgs <- get overlay_images ;;
  match vis, imgs with
  | true, Some l =>
      do i <- add_map_pattern_idx 1 ;;
      run when (Z.of_nat (length l) <=? i) (modify (set_map_pattern_idx (Some 0))) ;;
      update_overlay_images
  | _, _ => ret tt
  end.

Definition last_overlay_image : M unit :=
  do vis <- get visible ;;
  do imgs <- get overlay_images ;;
  match vis, imgs with
  | true, Some l =>
      do i <- add_map_pattern_idx (-1) ;;
      run when (i <? 0)
           (modify (set_map_pattern_idx (Some (Z.of_nat (length l) - 1)))) ;;
      update_overlay_images
  | _, _ => ret tt
  end.

Definition update_crystal_layout : M unit :=
  do idx <- get crystal_layout_idx ;;
  match idx with
  | None => modify (set_crystal_layout_image_box None)
  | Some i =>
      do imgs <- get crystal_layout_imgs ;;
      do img <- lift (py_index imgs i) ;;
      modify (set_crystal_layout_image_box (Some img))
  end.

(** [self.crystal_layout_idx += d] behind the test that it is not None. *)
Definition add_crystal_layout_idx (i d : Z) : M Z :=
  run modify (set_crystal_layout_idx (Some (i + d))) ;; ret (i + d).

Definition next_crystal_layout : M unit :=
  do vis <- get visible ;;
  do idx <- get crystal_layout_idx ;;
  match vis, idx with
  | true, Some i =>
      do j <- add_crystal_layout_idx i 1 ;;
      do imgs <- get crystal_layout_imgs ;;
      run when (Z.of_nat (length imgs) <=? j)
           (modify (set_crystal_layout_idx (Some 0))) ;;
      update_crystal_layout
  | _, _ => ret tt
  end.

Definition last_crystal_layout : M unit :=
  do vis <- get visible ;;
  do idx <- get crystal_layout_idx ;;
  match vis, idx with
  | true, Some i =>
      do j <- add_crystal_layout_idx i (-1) ;;
      do imgs <- get crystal_layout_imgs ;;
      run when (j <? 0)
           (modify (set_crystal_layout_idx (Some (Z.of_nat (length imgs) - 1)))) ;;
      update_crystal_layout
  | _, _ => ret tt
  end.

(** [if v is not None: ...] *)
Definition if_some {A} (v : option A) (k : A -> M unit) : M unit :=
  match v with
  | Some a => k a
  | None => ret tt
  end.

(** [screens] is what [QApplication.instance().screens()] returns. *)
Definition update_ui_state (screens : list UiUtils.Screen)
    (state : MapOverlayUIState Image) : M unit :=
  run if_some (UIState.x state) (fun _ =>
    do region <- lift (UiUtils.mss_region_to_qt_region screens
                      (UIState.x state, UIState.y state,
                       UIState.w state, UIState.h state)) ;;
    modify (set_geometry region)) ;;
  run if_some (UIState.opacity state) (fun v => modify (set_target_opacity v)) ;;
  run if_some (UIState.visible state) (fun v => modify (set_visible v)) ;;
  run if_some (UIState.overlay_images state) (fun v => set_overlay_images (Some v)) ;;
  run when (UIState.clear_image state) (set_overlay_images None) ;;
  run if_some (UIState.only_show_when_game_foreground state) (fun v =>
    modify (fun s => set_flags v (is_game_foreground s) (is_menu_opened s)
                               (is_setting_opened s) s)) ;;
  run if_some (UIState.is_game_foreground state) (fun v =>
    modify (fun s => set_flags (only_show_when_game_foreground s) v
                               (is_menu_opened s) (is_setting_opened s) s)) ;;
  run if_some (UIState.is_menu_opened state) (fun v =>
    modify (fun s => set_flags (only_show_when_game_foreground s)
                               (is_game_foreground s) v (is_setting_opened s) s)) ;;
  run if_some (UIState.is_setting_opened state) (fun v =>
    modify (fun s => set_flags (only_show_when_game_foreground s)
                               (is_game_foreground s) (is_menu_opened s) v s)) ;;
  run if_some (UIState.map_pattern_matching state) (fun v =>
    modify (set_map_pattern_matching v)) ;;
  run if_some (UIState.map_pattern_match_time state) (fun v =>
    modify (set_map_pattern_match_time v)) ;;
  if_some (UIState.display_crystal_layout state) (fun v =>
    run modify (set_crystal_layout_idx (if v then Some 0 else None)) ;;
    update_crystal_layout).

(** The widget as [__init__] leaves it before its closing call of
    [update_ui_state]: a fresh window with geometry [g0] and opacity [o0],
    and the crystal layout images [crystal] loaded from the data file. *)
Definition fresh (g0 : Z * Z * Z * Z) (o0 : float) (crystal : list Image) : Widget :=
  {| geometry := g0; windowOpacity := o0; isVisible := false;
     map_pattern_idx := None; overlay_images := None;
     map_pattern_match_time := 0%float; map_pattern_matching := false;
     overlay_image_box := None;
     crystal_layout_idx := None; crystal_layout_imgs := crystal;
     crystal_layout_image_box := None;
     target_opacity := 1%float; visible := true;
     only_show_when_game_foreground := false; is_game_foreground := false;
     is_menu_opened := false; is_setting_opened := false |}.

(** The patch [__init__] applies (lines 114-119). *)
Definition init_patch : MapOverlayUIState Image :=
  UIState.mk None None (Some 10) (Some 10) (Some 0%float) (Some true) None None
             false None None None None None None.

Definition __init__ (screens : list UiUtils.Screen) (g0 : Z * Z * Z * Z)
    (o0 : float) (crystal : list Image) : result unit * Widget :=
  update_ui_state screens init_patch (fresh g0 o0 crystal).

(** *** The opacity block of [timerEvent] (lines 320-330) *)

Definition threshold : float := 0.01%float.
Definition step : float := 0.6%float.

(** The value of the local [real_opacity] after the block, and whether
    [setWindowOpacity] was called with it. *)
Definition ease_opacity (target_opacity real_opacity : float) : float * bool :=
  let dlt := PrimFloat.sub target_opacity real_opacity in
  if PrimFloat.ltb threshold (PrimFloat.abs dlt) then
    (PrimFloat.add real_opacity (PrimFloat.mul dlt step), true)
  else if PrimFloat.ltb 0%float (PrimFloat.abs dlt)
          && PrimFloat.leb (PrimFloat.abs dlt) threshold then
    (target_opacity, true)
  else (real_opacity, false).

(** [stored v] is what [windowOpacity()] returns after
    [setWindowOpacity(v)]; it belongs to Qt. *)
Definition timerEvent (stored : float -> float) : M unit :=
  do real <- get windowOpacity ;;
  do target <- get target_opacity ;;
  let '(real_opacity, changed) := ease_opacity target real in
  run when changed (modify (set_windowOpacity (stored real_opacity))) ;;
  do vis <- get visible ;;
  do only_fg <- get only_show_when_game_foreground ;;
  do fg <- get is_game_foreground ;;
  do menu <- get is_menu_opened ;;
  do setting <- get is_setting_opened ;;
  let visible0 := vis && PrimFloat.ltb 0.01%float real_opacity in
  let visible1 := if only_fg then visible0 && (fg || menu || setting) else visible0 in
  do shown <- get isVisible ;;
  if visible1 && negb shown then modify (set_isVisible true)
  else if negb visible1 && shown then modify (set_isVisible false)
  else ret tt.

(** A window that stores the opacity it is given. *)
Definition stored_exact (v : float) : float := v.

(** The opacity the window has after [n] timer ticks. *)
Definition opacity_after (stored : float -> float) (n : nat) (s : Widget) : float :=
  windowOpacity (Nat.iter n (fun s => (timerEvent stored s).2) s).

(** One tick seen from the window: the opacity it has afterwards. *)
Definition tick_opacity (stored : float -> float) (target real : float) : float :=
  let '(real_opacity, changed) := ease_opacity target real in
  if changed then stored real_opacity else real.

(** A window that keeps its opacity as one byte: the value is clamped to
    [0, 1], scaled to 0..255 and truncated. *)
Definition stored_byte (v : float) : float :=
  let c := if PrimFloat.ltb v 0%float then 0%float
           else if PrimFloat.ltb 1%float v then 1%float else v in
  match to_int (PrimFloat.mul c 255%float) with
  | Ok n => match of_int n with
            | Ok f => PrimFloat.div f 255%float
            | Raise _ => c
            end
  | Raise _ => c
  end.

(** The method [m] leaves the attribute [f] as it was, also when it
    raises. *)
Definition keeps {A B} (f : Widget -> B) (m : M A) : Prop :=
  forall s, f (m s).2 = f s.

(** The method [m] keeps the property [P], also when it raises. *)
Definition preserves {A} (P : Widget -> Prop) (m : M A) : Prop :=
  forall s, P s -> P (m s).2.

(** The paging invariant: a stored list is not empty and the page index
    points into it. *)
Definition paging_inv (s : Widget) : Prop :=
  forall l, overlay_images s = Some l ->
    l <> [] /\
    exists i, map_pattern_idx s = Some i /\ 0 <= i < Z.of_nat (length l).

(** The method [m] raises nothing. *)
Definition succeeds {A} (m : M A) : Prop :=
  forall s, is_ok (m s).1 = true.

(** The same for the crystal layouts: a page index points into the list
    of layout images. *)
Definition crystal_inv (s : Widget) : Prop :=
  forall i, crystal_layout_idx s = Some i ->
    0 <= i < Z.of_nat (length (crystal_layout_imgs s)).

End Methods.
End MapOverlay.

(** ** scripts/ci_version.py *)

Module CiVersion.
Local Open Scope string_scope.
Local Open Scope result_scope.

(** *** Characters and [str] methods *)

Definition code (c : ascii) : N := N_of_ascii c.

(** [str.isspace] on one character, which is also the class [\s]. *)
Definition is_space (c : ascii) : bool :=
  let n := code c in
  ((9 <=? n) && (n <=? 13) || (28 <=? n) && (n <=? 32)
   || (n =? 133) || (n =? 160))%N.

(** The class [\d]: below 256 the only decimal digits are 0 to 9. *)
Definition is_digit (c : ascii) : bool :=
  let n := code c in ((48 <=? n) && (n <=? 57))%N.

(** [str.lower] on one character: the letters A-Z and the capital letters
    of Latin-1 (192-222 without the multiplication sign 215). *)
Definition lower_char (c : ascii) : ascii :=
  let n := code c in
  if ((65 <=? n) && (n <=? 90)
      || (192 <=? n) && (n <=? 222) && negb (n =? 215))%N
  then ascii_of_N (n + 32) else c.

(** A letter [p] of a pattern compiled with [re.IGNORECASE] matches [c]:
    below 256 only the two cases of the same ASCII letter match. *)
Definition ci_char (p c : ascii) : bool :=
  let n := code c in
  Ascii.eqb p c
  || ((65 <=? n) && (n <=? 90))%N && Ascii.eqb p (ascii_of_N (n + 32)).

Fixpoint str_lower (s : string) : string :=
  match s with
  | "" => ""
  | String c r => String (lower_char c) (str_lower r)
  end.

Fixpoint all_chars (P : ascii -> bool) (s : string) : bool :=
  match s with
  | "" => true
  | String c r => P c && all_chars P r
  end.

Definition is_empty (s : string) : bool :=
  match s with "" => true | _ => false end.

Fixpoint lstrip_by (P : ascii -> bool) (s : string) : string :=
  match s with
  | "" => ""
  | String c r => if P c then lstrip_by P r else s
  end.

Fixpoint rstrip_by (P : ascii -> bool) (s : string) : string :=
  match s with
  | "" => ""
  | String c r =>
      let r' := rstrip_by P r in
      if is_empty r' && P c then "" else String c r'
  end.

(** [s.strip()] *)
Definition strip (s : string) : string :=
  rstrip_by is_space (lstrip_by is_space s).

(** [s.rstrip(chars)] *)
Definition rstrip_chars (chars : list ascii) (s : string) : string :=
  rstrip_by (fun c => bool_decide (c ∈ chars)) s.

Definition CR : ascii := ascii_of_N 13.
Definition LF : ascii := ascii_of_N 10.
Definition QUOTE : ascii := ascii_of_N 34.

(** [s.startswith(p)] *)
Definition startswith (p s : string) : bool := String.prefix p s.

(** [s[n:]] for a natural [n]. *)
Fixpoint drop_str (n : nat) (s : string) : string :=
  match n, s with
  | O, _ => s
  | S n', String _ r => drop_str n' r
  | S _, "" => ""
  end.

(** [s.removeprefix(p)] *)
Definition removeprefix (p s : string) : string :=
  if startswith p s then drop_str (String.length p) s else s.

(** [c in s] for a one-character [c]. *)
Fixpoint contains (c : ascii) (s : string) : bool :=
  match s with
  | "" => false
  | String d r => Ascii.eqb c d || contains c r
  end.

(** The two parts of [s] around the first [c], when [c] occurs. *)
Fixpoint split_once (c : ascii) (s : string) : option (string * string) :=
  match s with
  | "" => None
  | String d r =>
      if Ascii.eqb c d then Some ("", r)
      else match split_once c r with
           | Some (a, b) => Some (String d a, b)
           | None => None
           end
  end.

(** [s.split(c, 1)] unpacked into two names: ValueError when [c] does not
    occur. *)
Definition split1 (c : ascii) (s : string) : result (string * string) :=
  match split_once c s with
  | Some ab => Ok ab
  | None => Raise ValueError
  end.

(** The characters at which [str.splitlines] ends a line (CR LF counts as
    one end). *)
Definition is_linebreak (c : ascii) : bool :=
  let n := code c in
  ((10 <=? n) && (n <=? 13) || (28 <=? n) && (n <=? 30) || (n =? 133))%N.

(** [s.splitlines(keepends)]; [cur] is the line read so far. *)
Fixpoint splitlines_from (keepends : bool) (cur : string) (s : string)
    : list string :=
  match s with
  | "" => if is_empty cur then [] else [cur]
  | String c r =>
      if Ascii.eqb c CR then
        match r with
        | String d r' =>
            if Ascii.eqb d LF then
              (cur ++ (if keepends then String CR (String LF "") else ""))
                :: splitlines_from keepends "" r'
            else
              (cur ++ (if keepends then String CR "" else ""))
                :: splitlines_from keepends "" r
        | "" => [cur ++ (if keepends then String CR "" else "")]
        end
      else if is_linebreak c then
        (cur ++ (if keepends then String c "" else ""))
          :: splitlines_from keepends "" r
      else splitlines_from keepends (cur ++ String c "") r
  end.

Definition splitlines (keepends : bool) (s : string) : list string :=
  splitlines_from keepends "" s.

(** [sep.join(l)] for the empty separator. *)
Definition join (l : list string) : string := foldr String.append "" l.

(** *** Regular expressions

    Each pattern is written as the function that decides it and returns
    its groups.  Every pattern of this file splits a string in at most one
    way, so the order in which [re] tries alternatives cannot change a
    group. *)

(** [re.fullmatch(r"\d+(?:\.\d+)*", s)]; [seen] says that the current
    component already has a digit. *)
Fixpoint release_re_from (seen : bool) (s : string) : bool :=
  match s with
  | "" => seen
  | String c r =>
      if is_digit c then release_re_from true r
      else if Ascii.eqb c "." && seen then release_re_from false r
      else false
  end.

Definition release_re (s : string) : bool := release_re_from false s.

(** [\d+] against a whole string. *)
Definition digits1 (s : string) : bool := negb (is_empty s) && all_chars is_digit s.

(** A literal [p] under [re.IGNORECASE] at the start of [s]: the text it
    matched and what follows. *)
Fixpoint ci_literal (p s : string) : option (string * string) :=
  match p, s with
  | "", _ => Some ("", s)
  | String a p', String c r =>
      if ci_char a c then
        match ci_literal p' r with
        | Some (m, rest) => Some (String c m, rest)
        | None => None
        end
      else None
  | String _ _, "" => None
  end.

(** [\.?(?P<num>\d+)] against a whole string: first with the dot, then
    without it. *)
Definition suffix_tail (s : string) : option string :=
  match s with
  | String "." r =>
      if digits1 r then Some r
      else if digits1 s then Some s else None
  | _ => if digits1 s then Some s else None
  end.

(** The alternatives of the group [label], in the order of the pattern. *)
Definition LABELS : list string :=
  ["alpha"; "a"; "beta"; "b"; "rc"; "pre"; "preview"; "dev"; "post"].

(** The suffix pattern of line 48 with [re.fullmatch] and
    [re.IGNORECASE]: the groups [(label, num)] of the first alternative
    with which the whole string matches. *)
Fixpoint suffix_re_alts (alts : list string) (s : string)
    : option (string * string) :=
  match alts with
  | [] => None
  | p :: alts' =>
      match ci_literal p s with
      | Some (label, rest) =>
          match suffix_tail rest with
          | Some num => Some (label, num)
          | None => suffix_re_alts alts' s
          end
      | None => suffix_re_alts alts' s
      end
  end.

Definition suffix_re (s : string) : option (string * string) :=
  suffix_re_alts LABELS s.

(** [_SECTION_RE.match(line)]: the group [name]. *)
Definition _SECTION_RE (line : string) : option string :=
  match lstrip_by is_space line with
  | String "[" r =>
      match split_once "]" r with
      | Some (name, tail) =>
          if negb (is_empty name) && all_chars is_space tail then Some name
          else None
      | None => None
      end
  | _ => None
  end.

(** [\s*version\s*=\s*] against a whole string. *)
Definition version_prefix_re (s : string) : bool :=
  let s1 := lstrip_by is_space s in
  if startswith "version" s1 then
    match lstrip_by is_space (drop_str 7 s1) with
    | String "=" r => is_empty (lstrip_by is_space r)
    | _ => false
    end
  else false.

(** [_VERSION_LINE_RE.match(line)]: the groups [(prefix, value, suffix)].
    The prefix and the suffix hold no quote, so the two quotes of the
    pattern are the first two of the line. *)
Definition _VERSION_LINE_RE (line : string) : option (string * string * string) :=
  match split_once QUOTE line with
  | Some (prefix, r) =>
      if version_prefix_re prefix then
        match split_once QUOTE r with
        | Some (value, suffix) =>
            if all_chars is_space suffix then Some (prefix, value, suffix)
            else None
        | None => None
        end
      else None
  | None => None
  end.

(** *** [tag_to_pep440] *)

Definition tag_to_pep440 (tag : string) : result (string * bool) :=
  let tag := strip tag in
  let tag := if startswith "refs/tags/" tag then removeprefix "refs/tags/" tag
             else tag in
  if negb (startswith "v" tag) || (String.length tag <? 2)%nat then
    Raise (VersionError "Tag must start with 'v'")
  else
    let raw := drop_str 1 tag in
    let is_prerelease := contains "-" raw in
    if negb is_prerelease then
      if negb (release_re raw) then
        Raise (VersionError "Release tag must look like v<digits[.digits...]>")
      else Ok (raw, false)
    else
      let? parts := split1 "-" raw in
      let base := parts.1 in
      let suffix := parts.2 in
      if negb (release_re base) then
        Raise (VersionError "Pre-release base must look like <digits[.digits...]>")
      else
        match suffix_re suffix with
        | None => Raise (VersionError "Unsupported pre-release tag suffix")
        | Some (label0, num) =>
            let label := str_lower label0 in
            if bool_decide (label ∈ ["alpha"; "a"]) then Ok (base ++ "a" ++ num, true)
            else if bool_decide (label ∈ ["beta"; "b"]) then Ok (base ++ "b" ++ num, true)
            else if String.eqb label "rc" then Ok (base ++ "rc" ++ num, true)
            else if bool_decide (label ∈ ["pre"; "preview"]) then Ok (base ++ "rc" ++ num, true)
            else if String.eqb label "dev" then Ok (base ++ ".dev" ++ num, true)
            else if String.eqb label "post" then Ok (base ++ ".post" ++ num, true)
            else Raise (VersionError "Unhandled label")
        end.

(** *** The tag shapes of the specification *)

(** Digits separated by dots: one or more non-empty runs of digits. *)
Inductive digits_dots : string -> Prop :=
| dd_last d : digits1 d = true -> digits_dots d
| dd_more d s : digits1 d = true -> digits_dots s ->
    digits_dots (d ++ "." ++ s).

(** The letters a to z. *)
Definition is_lower_letter (c : ascii) : bool :=
  let n := code c in ((97 <=? n) && (n <=? 122))%N.

(** The mapper raises a VersionError on [tag]. *)
Definition rejected (tag : string) : Prop :=
  exists msg, tag_to_pep440 tag = Raise (VersionError msg).

(** [label] is [L] up to the case of its letters. *)
Fixpoint ci_equal (L label : string) : bool :=
  match L, label with
  | "", "" => true
  | String a L', String c label' => ci_char a c && ci_equal L' label'
  | _, _ => false
  end.

(** The mapping table: a label and what it becomes after the base. *)
Definition LABEL_TABLE : list (string * string) :=
  [("alpha", "a"); ("a", "a"); ("beta", "b"); ("b", "b"); ("rc", "rc");
   ("pre", "rc"); ("preview", "rc"); ("dev", ".dev"); ("post", ".post")].

(** A supported suffix: a label in any case, an optional dot, digits. *)
Definition supported_suffix (suffix : string) : Prop :=
  exists L label dot num,
    L ∈ LABELS /\ ci_equal L label = true /\ (dot = "" \/ dot = ".") /\
    digits1 num = true /\ suffix = label ++ dot ++ num.

(** The tag starts with [v] and one more character at least, behind an
    optional [refs/tags/]. *)
Definition starts_with_v (tag : string) : Prop :=
  exists rest, rest <> "" /\ (tag = "v" ++ rest \/ tag = "refs/tags/v" ++ rest).

(** *** Files, the environment and the standard streams *)

(** [files] maps a path to the text stored in the file, as the code
    points its UTF-8 bytes encode; [linesep] is [os.linesep]; [GITHUB_ENV]
    is the environment variable of that name. *)
Record World := {
  files : gmap string string;
  linesep : string;
  GITHUB_ENV : option string;
  stdout : list string;
  stderr : list string;
}.

Definition set_files (f : gmap string string) (w : World) : World :=
  {| files := f; linesep := linesep w; GITHUB_ENV := GITHUB_ENV w;
     stdout := stdout w; stderr := stderr w |}.
Definition set_stdout (o : list string) (w : World) : World :=
  {| files := files w; linesep := linesep w; GITHUB_ENV := GITHUB_ENV w;
     stdout := o; stderr := stderr w |}.
Definition set_stderr (o : list string) (w : World) : World :=
  {| files := files w; linesep := linesep w; GITHUB_ENV := GITHUB_ENV w;
     stdout := stdout w; stderr := o |}.

Definition IO (A : Type) : Type := World -> result A * World.

Definition ret {A} (a : A) : IO A := fun w => (Ok a, w).
Definition raise {A} (e : exn) : IO A := fun w => (Raise e, w).
Definition bind {A B} (m : IO A) (k : A -> IO B) : IO B :=
  fun w => match m w with
           | (Ok a, w') => k a w'
           | (Raise e, w') => (Raise e, w')
           end.
Definition lift {A} (r : result A) : IO A := fun w => (r, w).
Definition when (b : bool) (m : IO unit) : IO unit := if b then m else ret tt.

Notation "'do' x <- m ;; k" := (bind m (fun x => k))
  (at level 10, x pattern, m at level 90, k at level 200).
Notation "'run' m ;; k" := (bind m (fun _ => k))
  (at level 10, m at level 90, k at level 200).

(** Reading in text mode with the default [newline=None]: CR LF and a
    lone CR both arrive as LF. *)
Fixpoint universal_newlines (s : string) : string :=
  match s with
  | "" => ""
  | String c r =>
      if Ascii.eqb c CR then
        match r with
        | String d r' =>
            if Ascii.eqb d LF then String LF (universal_newlines r')
            else String LF (universal_newlines r)
        | "" => String LF ""
        end
      else String c (universal_newlines r)
  end.

(** Writing in text mode with the default [newline=None]: every LF is
    written as [os.linesep]. *)
Fixpoint translate_newlines (sep : string) (s : string) : string :=
  match s with
  | "" => ""
  | String c r =>
      if Ascii.eqb c LF then sep ++ translate_newlines sep r
      else String c (translate_newlines sep r)
  end.

(** [path.read_text(encoding="utf-8")] *)
Definition read_text (path : string) : IO string :=
  fun w => match files w !! path with
           | Some stored => (Ok (universal_newlines stored), w)
           | None => (Raise FileNotFoundError, w)
           end.

(** [path.write_text(data, encoding="utf-8")] *)
Definition write_text (path data : string) : IO unit :=
  fun w => (Ok tt,
            set_files (<[path := translate_newlines (linesep w) data]> (files w)) w).

(** [print(s)] and [print(s, file=os.sys.stderr)]. *)
Definition print (s : string) : IO unit :=
  fun w => (Ok tt, set_stdout (stdout w ++ [s]) w).
Definition print_err (s : string) : IO unit :=
  fun w => (Ok tt, set_stderr (stderr w ++ [s]) w).

(** *** [update_pyproject_version] *)

Inductive scan := Unchanged | Rewritten (lines : list string) | Missing.

(** The loop of lines 85-110 from index [idx] on, where [todo] holds the
    lines from [idx] to the end of [lines]. *)
Fixpoint update_scan (new_version : string) (lines : list string)
    (in_project : bool) (idx : nat) (todo : list string) : scan :=
  match todo with
  | [] => Missing
  | line :: todo' =>
      match _SECTION_RE line with
      | Some name =>
          update_scan new_version lines (String.eqb (strip name) "project")
                      (S idx) todo'
      | None =>
          if negb in_project then
            update_scan new_version lines in_project (S idx) todo'
          else
            let line_without_ending := rstrip_chars [CR; LF] line in
            match _VERSION_LINE_RE line_without_ending with
            | None => update_scan new_version lines in_project (S idx) todo'
            | Some (prefix, current, suffix) =>
                if String.eqb current new_version then Unchanged
                else
                  let line_ending :=
                    drop_str (String.length line_without_ending) line in
                  Rewritten
                    (<[idx := prefix ++ String QUOTE new_version
                                ++ String QUOTE suffix ++ line_ending]> lines)
            end
      end
  end.

Definition NOT_FOUND : exn :=
  VersionError "Could not find [project].version in pyproject.toml".

Definition update_pyproject_version (pyproject_path new_version : string)
    : IO bool :=
  do text <- read_text pyproject_path ;;
  let lines := splitlines true text in
  match update_scan new_version lines false 0 lines with
  | Unchanged => ret false
  | Rewritten lines' =>
      run write_text pyproject_path (join lines') ;;
      ret true
  | Missing => raise NOT_FOUND
  end.

(** *** [read_pyproject_version] *)

Fixpoint read_scan (in_project : bool) (todo : list string) : option string :=
  match todo with
  | [] => None
  | line :: todo' =>
      match _SECTION_RE line with
      | Some name => read_scan (String.eqb (strip name) "project") todo'
      | None =>
          if negb in_project then read_scan in_project todo'
          else match _VERSION_LINE_RE line with
               | Some (_, value, _) => Some value
               | None => read_scan in_project todo'
               end
      end
  end.

Definition read_pyproject_version (pyproject_path : string) : IO string :=
  do text <- read_text pyproject_path ;;
  match read_scan false (splitlines false text) with
  | Some value => ret value
  | None => raise NOT_FOUND
  end.

(** *** [append_github_env] and [main] *)

(** The file is opened for appending with [newline="\n"], which writes
    LF as it is. *)
Definition append_github_env (name value : string) : IO unit :=
  fun w =>
    match GITHUB_ENV w with
    | None => (Ok tt, w)
    | Some env_path =>
        if is_empty env_path then (Ok tt, w)
        else
          let old := default "" (files w !! env_path) in
          (Ok tt,
           set_files (<[env_path := old ++ name ++ "=" ++ value ++ String LF ""]>
                        (files w)) w)
    end.

(** The parsed command line. *)
Record Args := {
  arg_tag : string;
  arg_file : string;
  arg_check : bool;
  arg_set_github_env : bool;
}.

Definition bool_str (b : bool) : string := if b then "true" else "false".

Definition main (args : Args) : IO Z :=
  do vp <- lift (tag_to_pep440 (arg_tag args)) ;;
  let pep440_version := vp.1 in
  let is_prerelease := vp.2 in
  let pyproject_path := arg_file args in
  if arg_check args then
    do current <- read_pyproject_version pyproject_path ;;
    run when (arg_set_github_env args)
          (run append_github_env "PROJECT_VERSION" pep440_version ;;
           run append_github_env "IS_PRERELEASE" (bool_str is_prerelease) ;;
           append_github_env "CURRENT_PROJECT_VERSION" current) ;;
    if negb (String.eqb current pep440_version) then
      run print_err "pyproject.toml version mismatch" ;;
      ret 2
    else
      run print pep440_version ;;
      ret 0
  else
    do changed <- update_pyproject_version pyproject_path pep440_version ;;
    run when (arg_set_github_env args)
          (run append_github_env "PROJECT_VERSION" pep440_version ;;
           run append_github_env "IS_PRERELEASE" (bool_str is_prerelease) ;;
           append_github_env "PYPROJECT_VERSION_CHANGED" (bool_str changed)) ;;
    run print pep440_version ;;
    ret 0.

(** *** The lines of a text without CR *)

(** [s] has no line break. *)
Definition nolb (s : string) : bool :=
  all_chars (fun c => negb (is_linebreak c)) s.

(** A line that ends in its one line break, which is not CR. *)
Definition terminated (l : string) : Prop :=
  exists body c,
    l = body ++ String c "" /\ nolb body = true /\
    is_linebreak c = true /\ c <> CR.

(** What [splitlines(keepends=True)] gives on such a text: terminated
    lines, and maybe a last line without an end. *)
Inductive line_list : list string -> Prop :=
| ll_nil : line_list []
| ll_last l : l <> "" -> nolb l = true -> line_list [l]
| ll_cons l L : terminated l -> line_list L -> line_list (l :: L).

(** *** Fixtures *)

Definition NL : string := String LF "".
Definition CRLF : string := String CR (String LF "").

(** [s] between two quotes. *)
Definition quoted (s : string) : string := String QUOTE (s ++ String QUOTE "").

(** A metadata file with the line terminator [eol]: a [project] section
    with a name and a version, and a [tool.other] section with a line that
    looks like a version line. *)
Definition pyproject (eol version : string) : string :=
  "[project]" ++ eol
  ++ "name = " ++ quoted "overlay" ++ eol
  ++ "version = " ++ quoted version ++ eol
  ++ "[tool.other]" ++ eol
  ++ "version = " ++ quoted "9.9.9" ++ eol.

(** A host with the line separator [sep] and one file. *)
Definition host (sep path content : string) : World :=
  {| files := {[ path := content ]}; linesep := sep; GITHUB_ENV := None;
     stdout := []; stderr := [] |}.

End CiVersion.

(** * Properties *)

(** ** The map detector *)

Module MapDetectorFacts.
Import MapDetector.

Lemma leading_digits_div (c : Z) :
  0 <= c < 100000 ->
  c / 100 = digit c 4 * 100 + digit c 3 * 10 + digit c 2.
Proof.
  intros Hc. unfold digit.
  change (10 ^ 4) with 10000. change (10 ^ 3) with 1000.
  change (10 ^ 2) with 100.
  Z.div_mod_to_equations. lia.
Qed.

Lemma same_leading3_div (c1 c2 : Z) :
  0 <= c1 < 100000 -> 0 <= c2 < 100000 ->
  (c1 / 100 = c2 / 100 <-> same_leading3 c1 c2).
Proof.
  intros H1 H2. unfold same_leading3. split.
  - intros E. unfold digit.
    change (10 ^ 4) with (100 * 100). change (10 ^ 3) with (100 * 10).
    change (10 ^ 2) with 100.
    rewrite <- !Z.div_div by lia. rewrite E. auto.
  - intros (E4 & E3 & E2).
    rewrite (leading_digits_div c1), (leading_digits_div c2) by assumption.
    congruence.
Qed.

(** C3 (as amended): on a DLC code (either code divided by 10000 is 5)
    the predicate holds exactly when the codes divided by 100 agree, which
    for codes of up to five digits says that their leading three digits
    agree; otherwise it holds exactly when the codes divided by 1000
    agree.  It is true for (53580, 53581), true for (53580, 53590) (both
    lead with 535), true for (34001, 34002) and false for (34001, 38000). *)
Theorem has_same_base_icon_spec (c1 c2 : Z) :
  ((c1 / 10000 = 5 \/ c2 / 10000 = 5) ->
     (has_same_base_icon c1 c2 = true <-> c1 / 100 = c2 / 100)) /\
  ((c1 / 10000 = 5 \/ c2 / 10000 = 5) ->
     0 <= c1 < 100000 -> 0 <= c2 < 100000 ->
     (has_same_base_icon c1 c2 = true <-> same_leading3 c1 c2)) /\
  (~ (c1 / 10000 = 5 \/ c2 / 10000 = 5) ->
     (has_same_base_icon c1 c2 = true <-> c1 / 1000 = c2 / 1000)) /\
  has_same_base_icon 53580 53581 = true /\
  has_same_base_icon 53580 53590 = true /\
  has_same_base_icon 34001 34002 = true /\
  has_same_base_icon 34001 38000 = false.
Proof.
  assert (Hdlc : (c1 / 10000 = 5 \/ c2 / 10000 = 5) ->
                 (has_same_base_icon c1 c2 = true <-> c1 / 100 = c2 / 100)).
  { intros Hd. unfold has_same_base_icon.
    replace ((c1 / 10000 =? 5) || (c2 / 10000 =? 5)) with true.
    - apply Z.eqb_eq.
    - symmetry. apply orb_true_iff. rewrite !Z.eqb_eq. exact Hd. }
  split; [exact Hdlc|]. split.
  { intros Hd H1 H2. rewrite (Hdlc Hd). by apply same_leading3_div. }
  split.
  { intros Hn. unfold has_same_base_icon.
    replace ((c1 / 10000 =? 5) || (c2 / 10000 =? 5)) with false.
    - apply Z.eqb_eq.
    - symmetry. apply orb_false_iff. rewrite !Z.eqb_neq. tauto. }
  repeat apply conj; vm_compute; reflexivity.
Qed.

Lemma has_same_base_icon_spec_witness :
  has_same_base_icon 53580 50000 = true <-> same_leading3 53580 50000.
Proof.
  apply (proj1 (proj2 (has_same_base_icon_spec 53580 50000))).
  - left. reflexivity.
  - lia.
  - lia.
Defined.

(** C3, the fixture of the claim that fails: 53580 and 53590 are both DLC
    codes with the leading digits 535, and the predicate is true on them,
    not false. *)
Lemma has_same_base_icon_53580_53590 :
  53580 / 10000 = 5 /\ same_leading3 53580 53590 /\
  has_same_base_icon 53580 53590 <> false.
Proof.
  split; [reflexivity|]. split.
  - repeat split.
  - vm_compute. discriminate.
Qed.

(** *** The scoring matrix *)

Lemma position_contribution_table (ctype expect_ctype : Z) :
  let same := has_same_base_icon ctype expect_ctype in
  let subicon := CTYPE_SUBICON_MAP !! ctype in
  let expect_subicon := CTYPE_SUBICON_MAP !! expect_ctype in
  (same = true -> subicon = expect_subicon ->
     position_contribution ctype expect_ctype = (10, 0)) /\
  (same = false -> subicon = expect_subicon ->
     position_contribution ctype expect_ctype = (1, 3)) /\
  (same = true -> subicon <> expect_subicon ->
     position_contribution ctype expect_ctype = (0, 10)) /\
  (same = false -> subicon <> expect_subicon ->
     position_contribution ctype expect_ctype = (0, 10)).
Proof.
  intros same subicon expect_subicon. subst same.
  unfold position_contribution. fold subicon expect_subicon.
  clearbody subicon expect_subicon.
  destruct (has_same_base_icon ctype expect_ctype); cbn [negb];
    repeat split; intros Hs Hsub; try discriminate.
  - by rewrite bool_decide_eq_true_2.
  - rewrite bool_decide_eq_false_2 by assumption.
    destruct subicon, expect_subicon; cbn; congruence.
  - by rewrite bool_decide_eq_true_2.
  - by rewrite bool_decide_eq_false_2.
Qed.

(** The last branch of the matrix is never taken. *)
Lemma position_contribution_never_3_1 (ctype expect_ctype : Z) :
  position_contribution ctype expect_ctype <> (3, 1).
Proof.
  destruct (position_contribution_table ctype expect_ctype) as (H1 & H2 & H3 & H4).
  destruct (has_same_base_icon ctype expect_ctype) eqn:Hs;
    destruct (decide (CTYPE_SUBICON_MAP !! ctype = CTYPE_SUBICON_MAP !! expect_ctype)) as [E|E].
  - rewrite H1 by auto. discriminate.
  - rewrite H3 by auto. discriminate.
  - rewrite H2 by auto. discriminate.
  - rewrite H4 by auto. discriminate.
Qed.

Lemma score_pattern_from (imgs : gset Z) (pattern : MapPattern)
    (poi_result : list (Position * Z)) (s0 e0 : Z) :
  fold_left
    (fun (acc : Z * Z) (item : Position * Z) =>
       let '(score, error) := acc in
       let '(pos, ctype) := item in
       let '(s, e) :=
         position_contribution ctype (expected_ctype imgs pattern pos) in
       (score + s, error + e))
    poi_result (s0, e0)
  = (s0 + foldr Z.add 0
            (map (fun item => (position_contribution item.2
                                 (expected_ctype imgs pattern item.1)).1) poi_result),
     e0 + foldr Z.add 0
            (map (fun item => (position_contribution item.2
                                 (expected_ctype imgs pattern item.1)).2) poi_result)).
Proof.
  revert s0 e0. induction poi_result as [|[pos ctype] l IH]; intros s0 e0; simpl.
  - f_equal; lia.
  - destruct (position_contribution ctype (expected_ctype imgs pattern pos))
      as [s e] eqn:E.
    rewrite IH. simpl. f_equal; lia.
Qed.

(** The totals of a pattern are the sums of the contributions of the
    sampled positions. *)
Lemma score_pattern_sum (imgs : gset Z) (pattern : MapPattern)
    (poi_result : list (Position * Z)) :
  score_pattern imgs poi_result pattern
  = (foldr Z.add 0
       (map (fun item => (position_contribution item.2
                            (expected_ctype imgs pattern item.1)).1) poi_result),
     foldr Z.add 0
       (map (fun item => (position_contribution item.2
                            (expected_ctype imgs pattern item.1)).2) poi_result)).
Proof. unfold score_pattern. by rewrite score_pattern_from. Qed.

(** C2, where the code leaves the matrix: 34001 (bleed ruins) observed and
    34002 (frost ruins) expected share the base icon and both carry a
    sub-icon, the two sub-icons differ, and the position adds (0, 10), not
    (3, 1); so does a pattern scored on that one position. *)
Theorem position_contribution_differing_subicons :
  has_same_base_icon 34001 34002 = true /\
  CTYPE_SUBICON_MAP !! 34001 = Some (Cond BLEED) /\
  CTYPE_SUBICON_MAP !! 34002 = Some (Cond FROST) /\
  position_contribution 34001 34002 = (0, 10) /\
  score_pattern {[34002]} [((1, 1), 34001)]
    {| p_id := 0; p_nightlord := 0; p_earth_shifting := 0;
       pos_constructions :=
         {[ (1, 1) := {| c_type := 34002; c_pos := 0; c_is_display := true |} ]} |}
  = (0, 10).
Proof. repeat apply conj; vm_compute; reflexivity. Qed.

(** *** The ranking *)

Lemma tuple_leb_ranks (a b : MapPatternMatchResult) :
  tuple_leb (sort_key a) (sort_key b) = true <-> ranks_before a b.
Proof.
  unfold tuple_leb, sort_key, ranks_before. simpl.
  rewrite orb_true_iff, andb_true_iff, Z.ltb_lt, Z.eqb_eq, Z.leb_le. lia.
Qed.

Lemma ranks_before_total (a b : MapPatternMatchResult) :
  ranks_before a b \/ ranks_before b a.
Proof. unfold ranks_before. lia. Qed.

Lemma ranks_before_trans (a b c : MapPatternMatchResult) :
  ranks_before a b -> ranks_before b c -> ranks_before a c.
Proof. unfold ranks_before. lia. Qed.

Lemma insert_by_perm (x : MapPatternMatchResult) l :
  Permutation (insert_by sort_key x l) (x :: l).
Proof.
  induction l as [|y l IH]; simpl; [done|].
  destruct (tuple_leb (sort_key x) (sort_key y)); [done|].
  rewrite IH. apply perm_swap.
Qed.

Lemma sorted_perm (l : list MapPatternMatchResult) :
  Permutation (sorted sort_key l) l.
Proof.
  induction l as [|x l IH]; simpl; [done|].
  unfold sorted in *. simpl. rewrite insert_by_perm. by constructor.
Qed.

Lemma insert_by_sorted (x : MapPatternMatchResult) l :
  StronglySorted ranks_before l ->
  StronglySorted ranks_before (insert_by sort_key x l).
Proof.
  induction 1 as [|y l Hl IH Hy]; simpl.
  - repeat constructor.
  - destruct (tuple_leb (sort_key x) (sort_key y)) eqn:E.
    + apply tuple_leb_ranks in E. constructor.
      * by constructor.
      * constructor; [done|].
        eapply Forall_impl; [exact Hy|]. intros z Hz.
        by eapply ranks_before_trans.
    + constructor; [done|].
      rewrite (insert_by_perm x l). constructor; [|done].
      destruct (ranks_before_total x y) as [H|H]; [|done].
      apply tuple_leb_ranks in H. congruence.
Qed.

Lemma sorted_sorted (l : list MapPatternMatchResult) :
  StronglySorted ranks_before (sorted sort_key l).
Proof.
  induction l as [|x l IH]; simpl; [constructor|].
  by apply insert_by_sorted.
Qed.

Lemma insert_by_filter (k : Z * Z) (x : MapPatternMatchResult) l :
  filter (fun y => sort_key y = k) (insert_by sort_key x l)
  = filter (fun y => sort_key y = k) (x :: l).
Proof.
  induction l as [|y l IH]; [done|]. cbn [insert_by].
  destruct (tuple_leb (sort_key x) (sort_key y)) eqn:E; [done|].
  rewrite (filter_cons _ y), IH, !filter_cons.
  destruct (decide (sort_key x = k)) as [Hx|], (decide (sort_key y = k)) as [Hy|];
    try done.
  exfalso. rewrite Hx, <- Hy in E. unfold tuple_leb in E.
  rewrite Z.eqb_refl, Z.leb_refl, orb_true_r in E. discriminate.
Qed.

(** The sort is stable: entries with the same key keep their order. *)
Lemma sorted_stable (k : Z * Z) (l : list MapPatternMatchResult) :
  filter (fun y => sort_key y = k) (sorted sort_key l)
  = filter (fun y => sort_key y = k) l.
Proof.
  induction l as [|x l IH]; [done|].
  change (sorted sort_key (x :: l)) with (insert_by sort_key x (sorted sort_key l)).
  by rewrite insert_by_filter, !filter_cons, IH.
Qed.
(** C5: for every list of scored candidates and every bound [k >= 0],
    the matcher returns the first [k] entries of the candidates sorted for
    the ranking: the result, followed by the entries left out, is a
    permutation of the candidates in which every entry ranks before all
    later ones (lower error first whatever the scores, and on equal
    errors the higher score first).  In the fixtures of the
    specification the error-3 candidate and the score-9 candidate win. *)
Theorem rank_topk_spec (results : list MapPatternMatchResult) (k : Z) :
  0 <= k ->
  (forall patterns imgs es nl poi,
     _match_map_pattern patterns imgs es nl poi (Some k)
     = rank_topk (candidates patterns imgs es nl poi) (Some k)) /\
  rank_topk results (Some k) = take (Z.to_nat k) (sorted sort_key results) /\
  (exists rest,
     Permutation (rank_topk results (Some k) ++ rest) results /\
     StronglySorted ranks_before (rank_topk results (Some k) ++ rest)) /\
  length (rank_topk results (Some k)) = Nat.min (Z.to_nat k) (length results) /\
  rank_topk [candidate 100 5; candidate 1 3] (Some 1) = [candidate 1 3] /\
  rank_topk [candidate 2 3; candidate 9 3] (Some 1) = [candidate 9 3].
Proof.
  intros Hk.
  assert (E : rank_topk results (Some k)
              = take (Z.to_nat k) (sorted sort_key results)).
  { unfold rank_topk, slice_to.
    destruct (0 <=? k) eqn:Hle; [done|]. apply Z.leb_gt in Hle. lia. }
  split; [done|]. split; [exact E|]. split; [|split].
  - exists (drop (Z.to_nat k) (sorted sort_key results)).
    rewrite E, take_drop. split; [apply sorted_perm | apply sorted_sorted].
  - rewrite E, length_take. f_equal. apply Permutation_length, sorted_perm.
  - split; vm_compute; reflexivity.
Qed.

Lemma rank_topk_spec_witness :
  length (rank_topk [candidate 2 3; candidate 9 3; candidate 100 5] (Some 2))
  = Nat.min (Z.to_nat 2) 3.
Proof.
  apply (rank_topk_spec [candidate 2 3; candidate 9 3; candidate 100 5] 2).
  lia.
Defined.

End MapDetectorFacts.

(** ** The window utilities *)

Module UiUtilsFacts.
Import PyFloat UiUtils.

(** Whenever the helper returns, x and y are the ones it was given and
    the new width and height are [int(int(w / scale) * scale)] and
    [int(int(h / scale) * scale)]. *)
Lemma process_region_to_adapt_scale_result x y w h scale r :
  process_region_to_adapt_scale (x, y, w, h) scale = Ok r ->
  exists w' new_w h' new_h,
    r = (x, y, new_w, new_h) /\
    int_div w scale = Ok w' /\ int_mul w' scale = Ok new_w /\
    int_div h scale = Ok h' /\ int_mul h' scale = Ok new_h.
Proof.
  unfold process_region_to_adapt_scale, rbind. intros H.
  destruct (int_div w scale) as [w'|] eqn:E1; [|discriminate].
  destruct (int_mul w' scale) as [new_w|] eqn:E2; [|discriminate].
  destruct (int_div h scale) as [h'|] eqn:E3; [|discriminate].
  destruct (int_mul h' scale) as [new_h|] eqn:E4; [|discriminate].
  exists w', new_w, h', new_h. inversion H. auto.
Qed.

(** C6, the fixture of the specification: for the region
    (0, 0, 1003, 751) and the scale 1.25 the helper returns the width
    1002 and the height 750; 1002 / 1.25 is 801.6, which is not an
    integer (750 / 1.25 is 600). *)
Theorem process_region_to_adapt_scale_1003 :
  process_region_to_adapt_scale (0, 0, 1003, 751) 1.25%float
  = Ok (0, 0, 1002, 750) /\
  (exists q, (let? f := of_int 1002 in truediv f 1.25%float)%res = Ok q /\
             is_integer q = false /\ to_int q = Ok 801 /\
             PrimFloat.ltb 801%float q = true) /\
  (exists q, (let? f := of_int 750 in truediv f 1.25%float)%res = Ok q /\
             is_integer q = true /\ to_int q = Ok 600).
Proof.
  split; [vm_compute; reflexivity|]. split.
  - eexists. split; [vm_compute; reflexivity|].
    repeat apply conj; vm_compute; reflexivity.
  - eexists. split; [vm_compute; reflexivity|].
    repeat apply conj; vm_compute; reflexivity.
Qed.

End UiUtilsFacts.

(** ** The map overlay *)

Module MapOverlayFacts.
Import PyFloat UiUtils MapOverlay.

Section Facts.
Context {Image : Type}.
Abbreviation Widget := (MapOverlayWidget Image).
Abbreviation M := (@MapOverlay.M Image).

(** *** Opacity easing *)

Lemma timerEvent_opacity (stored : float -> float) (s : Widget) :
  windowOpacity (timerEvent stored s).2
  = tick_opacity stored (target_opacity s) (windowOpacity s) /\
  target_opacity (timerEvent stored s).2 = target_opacity s.
Proof.
  unfold timerEvent, tick_opacity, bind, get, when, modify, ret.
  destruct (ease_opacity (target_opacity s) (windowOpacity s)) as [r ch].
  destruct ch; cbn [fst snd];
    repeat match goal with
           | |- context [if ?b then _ else _] => destruct b
           end; cbn; auto.
Qed.

Lemma opacity_after_iter (stored : float -> float) (n : nat) (s : Widget) :
  opacity_after stored n s
  = Nat.iter n (tick_opacity stored (target_opacity s)) (windowOpacity s).
Proof.
  unfold opacity_after.
  assert (H : windowOpacity (Nat.iter n (fun s => (timerEvent stored s).2) s)
              = Nat.iter n (tick_opacity stored (target_opacity s)) (windowOpacity s)
              /\ target_opacity (Nat.iter n (fun s => (timerEvent stored s).2) s)
                 = target_opacity s).
  { induction n as [|n [IH1 IH2]]; [done|]. rewrite !Nat.iter_succ.
    destruct (timerEvent_opacity stored
                (Nat.iter n (fun s => (timerEvent stored s).2) s)) as [E1 E2].
    rewrite E1, E2, IH1, IH2. done. }
  apply H.
Qed.

Lemma iter_fixed {A} (f : A -> A) (a : A) (n : nat) :
  f a = a -> Nat.iter n f a = a.
Proof. intros E. induction n; [done|]. rewrite Nat.iter_succ. congruence. Qed.

Lemma iter_plus {A} (f : A -> A) (a : A) (n m : nat) :
  Nat.iter (m + n) f a = Nat.iter m f (Nat.iter n f a).
Proof.
  induction m; [done|]. cbn [Nat.add]. rewrite !Nat.iter_succ. congruence.
Qed.

(** The snap branch is taken whenever the first branch is not and the
    gap is not zero and at most the threshold. *)
Lemma ease_opacity_snap (target real : float) :
  PrimFloat.ltb threshold (PrimFloat.abs (PrimFloat.sub target real)) = false ->
  PrimFloat.ltb 0%float (PrimFloat.abs (PrimFloat.sub target real)) = true ->
  PrimFloat.leb (PrimFloat.abs (PrimFloat.sub target real)) threshold = true ->
  ease_opacity target real = (target, true).
Proof. unfold ease_opacity. intros -> -> ->. reflexivity. Qed.

(** C8: from real opacity 0.0 with the target held at 1.0, the opacity
    rises strictly at each of the first seven ticks and is below 1.0
    before each of them, it never exceeds 1.0, and from the seventh tick
    on it is exactly 1.0: after six ticks the gap is not zero and at most
    0.01, and the seventh tick sets the opacity to the target. *)
Theorem opacity_easing_reaches_target (s : Widget) :
  windowOpacity s = 0%float ->
  target_opacity s = 1%float ->
  (forall n, (n < 7)%nat ->
     PrimFloat.ltb (opacity_after stored_exact n s)
                   (opacity_after stored_exact (S n) s) = true /\
     PrimFloat.ltb (opacity_after stored_exact n s) 1%float = true) /\
  (forall n, PrimFloat.leb (opacity_after stored_exact n s) 1%float = true) /\
  (forall n, (7 <= n)%nat -> opacity_after stored_exact n s = 1%float) /\
  (forall n, (n < 6)%nat ->
     PrimFloat.ltb threshold
       (PrimFloat.abs (PrimFloat.sub 1%float (opacity_after stored_exact n s)))
     = true) /\
  (let gap := PrimFloat.abs (PrimFloat.sub 1%float (opacity_after stored_exact 6 s)) in
   PrimFloat.ltb 0%float gap = true /\ PrimFloat.leb gap threshold = true /\
   ease_opacity 1%float (opacity_after stored_exact 6 s) = (1%float, true)).
Proof.
  intros H0 H1.
  assert (Hlate : forall n, (7 <= n)%nat -> opacity_after stored_exact n s = 1%float).
  { intros n Hn. rewrite opacity_after_iter, H0, H1.
    replace n with ((n - 7) + 7)%nat by lia. rewrite iter_plus.
    replace (Nat.iter 7 (tick_opacity stored_exact 1) 0)%float with 1%float
      by (vm_compute; reflexivity).
    apply iter_fixed. vm_compute. reflexivity. }
  split; [|split; [|split; [exact Hlate|split]]].
  - intros n Hn. rewrite !opacity_after_iter, H0, H1.
    do 7 (destruct n as [|n]; [split; vm_compute; reflexivity|]). lia.
  - intros n. destruct (Nat.lt_ge_cases n 7) as [Hn|Hn].
    + rewrite opacity_after_iter, H0, H1.
      do 7 (destruct n as [|n]; [vm_compute; reflexivity|]). lia.
    + rewrite (Hlate n Hn). vm_compute. reflexivity.
  - intros n Hn. rewrite opacity_after_iter, H0, H1.
    do 6 (destruct n as [|n]; [vm_compute; reflexivity|]). lia.
  - rewrite opacity_after_iter, H0, H1.
    repeat apply conj; vm_compute; reflexivity.
Qed.

(** The same holds for a window that keeps its opacity as one byte. *)
Lemma opacity_easing_one_byte (s : Widget) :
  windowOpacity s = 0%float ->
  target_opacity s = 1%float ->
  (forall n, (n < 7)%nat ->
     PrimFloat.ltb (opacity_after stored_byte n s)
                   (opacity_after stored_byte (S n) s) = true) /\
  (forall n, (7 <= n)%nat -> opacity_after stored_byte n s = 1%float).
Proof.
  intros H0 H1. split.
  - intros n Hn. rewrite !opacity_after_iter, H0, H1.
    do 7 (destruct n as [|n]; [vm_compute; reflexivity|]). lia.
  - intros n Hn. rewrite opacity_after_iter, H0, H1.
    replace n with ((n - 7) + 7)%nat by lia. rewrite iter_plus.
    replace (Nat.iter 7 (tick_opacity stored_byte 1) 0)%float with 1%float
      by (vm_compute; reflexivity).
    apply iter_fixed. vm_compute. reflexivity.
Qed.


(** *** Attributes a method leaves alone *)

Lemma keeps_ret {A B} (f : Widget -> B) (a : A) : keeps f (ret a).
Proof. by intros s. Qed.

Lemma keeps_raise {A B} (f : Widget -> B) (e : exn) : keeps f (@raise Image A e).
Proof. by intros s. Qed.

Lemma keeps_get {A B} (f : Widget -> B) (g : Widget -> A) : keeps f (get g).
Proof. by intros s. Qed.

Lemma keeps_lift {A B} (f : Widget -> B) (r : result A) : keeps f (lift r).
Proof. by intros s. Qed.

Lemma keeps_modify {B} (f : Widget -> B) (g : Widget -> Widget) :
  (forall s, f (g s) = f s) -> keeps f (modify g).
Proof. intros H s. apply H. Qed.

Lemma keeps_bind {A B C} (f : Widget -> C) (m : M A) (k : A -> M B) :
  keeps f m -> (forall a, keeps f (k a)) -> keeps f (bind m k).
Proof.
  intros Hm Hk s. unfold bind. specialize (Hm s).
  destruct (m s) as [[a|e] s']; cbn [snd] in *.
  - rewrite (Hk a s'). exact Hm.
  - exact Hm.
Qed.

Lemma keeps_when {B} (f : Widget -> B) (b : bool) (m : M unit) :
  keeps f m -> keeps f (when b m).
Proof. destruct b; [done|]. intros _. apply keeps_ret. Qed.

Lemma keeps_if_some {A B} (f : Widget -> B) (v : option A) (k : A -> M unit) :
  (forall a, keeps f (k a)) -> keeps f (if_some v k).
Proof. intros H. destruct v; [apply H | apply keeps_ret]. Qed.

Create HintDb keeps.

Ltac keeps_steps :=
  repeat first
    [ solve [auto with keeps nocore]
    | apply keeps_ret | apply keeps_raise | apply keeps_get | apply keeps_lift
    | apply keeps_modify; intros ?; reflexivity
    | apply keeps_when | apply keeps_if_some; intros ?
    | apply keeps_bind; [|intros ?] ].

Lemma keeps_geometry_update_overlay_images :
  keeps geometry (@update_overlay_images Image).
Proof.
  unfold update_overlay_images. apply keeps_bind; [apply keeps_get|].
  intros imgs. destruct (falsy imgs); keeps_steps.
Qed.

#[local] Hint Resolve keeps_geometry_update_overlay_images : keeps.

Lemma keeps_geometry_set_overlay_images (imgs : option (list Image)) :
  keeps geometry (set_overlay_images imgs).
Proof.
  unfold set_overlay_images. keeps_steps.
Qed.

Lemma keeps_update_crystal_layout {B} (f : Widget -> B) :
  (forall v s, f (set_crystal_layout_image_box v s) = f s) ->
  keeps f (@update_crystal_layout Image).
Proof.
  intros Hf. unfold update_crystal_layout. apply keeps_bind; [apply keeps_get|].
  intros [i|].
  - apply keeps_bind; [apply keeps_get|]. intros imgs.
    apply keeps_bind; [apply keeps_lift|]. intros img.
    apply keeps_modify, Hf.
  - apply keeps_modify, Hf.
Qed.

Lemma keeps_geometry_update_crystal_layout :
  keeps geometry (@update_crystal_layout Image).
Proof. by apply keeps_update_crystal_layout. Qed.

Lemma keeps_overlay_images_update_crystal_layout :
  keeps overlay_images (@update_crystal_layout Image).
Proof. by apply keeps_update_crystal_layout. Qed.

Lemma keeps_map_pattern_idx_update_crystal_layout :
  keeps map_pattern_idx (@update_crystal_layout Image).
Proof. by apply keeps_update_crystal_layout. Qed.

#[local] Hint Resolve keeps_geometry_set_overlay_images
  keeps_geometry_update_crystal_layout
  keeps_overlay_images_update_crystal_layout
  keeps_map_pattern_idx_update_crystal_layout : keeps.

(** *** Geometry *)

Lemma get_qt_screen_needs_y screens x w h :
  is_ok (get_qt_screen_by_mss_region screens (Some x, None, w, h)) = false.
Proof.
  induction screens as [|sc screens IH];
    cbn [get_qt_screen_by_mss_region]; [done|].
  unfold rbind.
  destruct (int_mul _ _); [|done].
  destruct (int_mul _ _); [|done].
  cbn [py_le].
  destruct (geometry_x sc <=? x); [|exact IH].
  destruct (x <=? geometry_x sc + _); [done|exact IH].
Qed.

Lemma mss_region_to_qt_region_needs_all screens x y w h r :
  mss_region_to_qt_region screens (x, y, w, h) = Ok r ->
  is_Some x /\ is_Some y /\ is_Some w /\ is_Some h.
Proof.
  unfold mss_region_to_qt_region.
  destruct x as [x|].
  2:{ destruct screens as [|sc screens]; cbn; [discriminate|].
      unfold rbind.
      destruct (int_mul _ _); [|discriminate].
      destruct (int_mul _ _); discriminate. }
  destruct y as [y|].
  2:{ pose proof (get_qt_screen_needs_y screens x w h) as Hn.
      destruct (get_qt_screen_by_mss_region screens (Some x, None, w, h));
        [discriminate|]. discriminate. }
  destruct (get_qt_screen_by_mss_region screens (Some x, Some y, w, h))
    as [scr|]; [|discriminate].
  cbn [rbind py_sub].
  destruct (int_div _ _); [|discriminate]. cbn [rbind].
  destruct (int_div _ _); [|discriminate]. cbn [rbind].
  destruct w as [w|]; [|discriminate]. cbn [rbind].
  destruct (int_div _ _); [|discriminate]. cbn [rbind].
  destruct h as [h|]; [|discriminate].
  intros _. repeat split; eauto.
Qed.

(** C9: a patch without x leaves the geometry as it was, whatever y, w
    and h hold and also when the patch raises later on; a patch with x
    that is applied without an exception carries y, w and h as well, and
    a patch with x that lacks one of them raises and leaves the geometry
    as it was; the patch of the constructor leaves the geometry as it
    was. *)
Theorem update_ui_state_geometry screens (state : MapOverlayUIState Image)
    (s : Widget) :
  (UIState.x state = None ->
     geometry (update_ui_state screens state s).2 = geometry s) /\
  (is_Some (UIState.x state) ->
     is_ok (update_ui_state screens state s).1 = true ->
     is_Some (UIState.y state) /\ is_Some (UIState.w state) /\
     is_Some (UIState.h state)) /\
  (is_Some (UIState.x state) ->
     UIState.y state = None \/ UIState.w state = None \/ UIState.h state = None ->
     is_ok (update_ui_state screens state s).1 = false /\
     (update_ui_state screens state s).2 = s) /\
  (forall g0 o0 (crystal : list Image),
     geometry (__init__ screens g0 o0 crystal).2 = g0 /\
     is_ok (__init__ screens g0 o0 crystal).1 = true).
Proof.
  assert (Hrest : forall st : MapOverlayUIState Image, UIState.x st = None ->
            keeps geometry (update_ui_state screens st)).
  { intros st Hx. unfold update_ui_state. rewrite Hx. cbn [if_some].
    keeps_steps. }
  assert (Hraise : is_Some (UIState.x state) ->
            is_ok (mss_region_to_qt_region screens
                     (UIState.x state, UIState.y state,
                      UIState.w state, UIState.h state)) = false ->
            exists e, update_ui_state screens state s = (Raise e, s)).
  { intros [xv Hx] Hno. unfold update_ui_state. rewrite Hx in *. cbn [if_some].
    unfold bind at 1. unfold bind at 1. unfold lift.
    destruct (mss_region_to_qt_region _ _) as [r|e]; [discriminate|].
    by exists e. }
  split; [|split; [|split]].
  - intros Hx. apply (Hrest state Hx).
  - intros Hx Hok.
    destruct (mss_region_to_qt_region screens
                (UIState.x state, UIState.y state, UIState.w state, UIState.h state))
      as [r|e] eqn:E.
    + apply mss_region_to_qt_region_needs_all in E. tauto.
    + destruct Hraise as [e' He']; [done|done|].
      rewrite He' in Hok. discriminate.
  - intros Hx Hmiss.
    assert (Hno : is_ok (mss_region_to_qt_region screens
                (UIState.x state, UIState.y state, UIState.w state, UIState.h state))
                  = false).
    { destruct (mss_region_to_qt_region _ _) as [r|e] eqn:E; [|done].
      apply mss_region_to_qt_region_needs_all in E.
      destruct E as (_ & [? Hy] & [? Hw] & [? Hh]).
      destruct Hmiss as [H|[H|H]]; congruence. }
    destruct (Hraise Hx Hno) as [e' He']. by rewrite He'.
  - intros g0 o0 crystal. unfold __init__. split.
    + by rewrite (Hrest init_patch eq_refl).
    + reflexivity.
Qed.

(** *** Paging *)

Lemma preserves_keeps {A} (m : M A) :
  keeps overlay_images m -> keeps map_pattern_idx m -> preserves paging_inv m.
Proof.
  intros H1 H2 s Hs l Hl. rewrite H1 in Hl. rewrite H2. by apply Hs.
Qed.

Lemma preserves_bind {A B} (P : Widget -> Prop) (m : M A) (k : A -> M B) :
  preserves P m -> (forall a, preserves P (k a)) -> preserves P (bind m k).
Proof.
  intros Hm Hk s Hs. unfold bind. specialize (Hm s Hs).
  destruct (m s) as [[a|e] s']; cbn [snd] in *; [by apply Hk | done].
Qed.

Lemma preserves_ret {A} (P : Widget -> Prop) (a : A) : preserves P (ret a).
Proof. by intros s. Qed.

Lemma preserves_when (P : Widget -> Prop) (b : bool) (m : M unit) :
  preserves P m -> preserves P (when b m).
Proof. destruct b; [done|]. intros _. apply preserves_ret. Qed.

Lemma preserves_if_some {A} (P : Widget -> Prop) (v : option A) (k : A -> M unit) :
  (forall a, preserves P (k a)) -> preserves P (if_some v k).
Proof. intros H. destruct v; [apply H | apply preserves_ret]. Qed.

Lemma py_index_in_range {A} (l : list A) (i : Z) :
  0 <= i < Z.of_nat (length l) -> exists a, py_index l i = Ok a.
Proof.
  intros Hi. unfold py_index.
  replace (i <? 0) with false by (symmetry; apply Z.ltb_ge; lia).
  replace (0 <=? i) with true by (symmetry; apply Z.leb_le; lia).
  replace (i <? Z.of_nat (length l)) with true by (symmetry; apply Z.ltb_lt; lia).
  cbn [andb].
  destruct (lookup_lt_is_Some_2 l (Z.to_nat i)) as [a Ha]; [lia|].
  rewrite Ha. by exists a.
Qed.

Lemma falsy_false (l : list Image) : l <> [] -> falsy (Some l) = false.
Proof. by destruct l. Qed.

(** With the index inside a non-empty list, [update_overlay_images] shows
    one image and changes nothing else. *)
Lemma update_overlay_images_shows (s : Widget) (l : list Image) (i : Z) :
  overlay_images s = Some l -> l <> [] ->
  map_pattern_idx s = Some i -> 0 <= i < Z.of_nat (length l) ->
  exists img, update_overlay_images s = (Ok tt, set_overlay_image_box (Some img) s).
Proof.
  intros Hl Hne Hi Hr. unfold update_overlay_images, bind, get, lift, modify.
  rewrite Hl, (falsy_false l Hne), Hi. cbn [default py_index_opt].
  change (id l) with l.
  destruct (py_index_in_range l i Hr) as [img ->]. by exists img.
Qed.

Lemma set_overlay_images_spec (imgs : option (list Image)) (s : Widget) :
  (set_overlay_images imgs s).1 = Ok tt /\
  paging_inv (set_overlay_images imgs s).2 /\
  map_pattern_idx (set_overlay_images imgs s).2 = Some 0 /\
  overlay_images (set_overlay_images imgs s).2
  = (if falsy imgs then None else imgs).
Proof.
  unfold set_overlay_images.
  unfold bind at 1. unfold modify at 1. unfold bind at 1. unfold modify at 1.
  destruct (falsy imgs) eqn:Hf.
  - unfold update_overlay_images, bind, get, modify.
    cbn [overlay_images set_map_pattern_idx set_overlay_images_attr].
    rewrite Hf. cbn. split; [done|]. split; [|done].
    intros l Hl. discriminate.
  - destruct imgs as [[|a l]|]; try discriminate.
    edestruct (update_overlay_images_shows
                 (set_map_pattern_idx (Some 0)
                    (set_overlay_images_attr (Some (a :: l)) s)) (a :: l) 0)
      as [img ->]; [done|done|done|cbn [length]; lia|].
    cbn. split; [done|]. split; [|done].
    intros l' Hl'. inversion Hl'; subst l'.
    split; [done|]. exists 0. split; [done|]. cbn [length]. lia.
Qed.

Lemma preserves_set_overlay_images (imgs : option (list Image)) :
  preserves paging_inv (set_overlay_images imgs).
Proof. intros s _. apply set_overlay_images_spec. Qed.

Lemma next_overlay_image_spec (s : Widget) (l : list Image) (i : Z) :
  paging_inv s -> visible s = true -> overlay_images s = Some l ->
  map_pattern_idx s = Some i ->
  exists img,
    next_overlay_image s
    = (Ok tt,
       set_overlay_image_box (Some img)
         (set_map_pattern_idx
            (Some (if i =? Z.of_nat (length l) - 1 then 0 else i + 1)) s)).
Proof.
  intros Hinv Hv Hl Hi.
  destruct (Hinv l Hl) as (Hne & i' & Hi' & Hr).
  assert (i' = i) by congruence. subst i'.
  unfold next_overlay_image, bind at 1, get at 1. rewrite Hv.
  unfold bind at 1, get at 1. rewrite Hl.
  unfold add_map_pattern_idx, bind at 1, bind at 1, get at 1. rewrite Hi.
  unfold bind at 1, modify at 1, ret at 1.
  unfold bind at 1, when.
  destruct (i =? Z.of_nat (length l) - 1) eqn:E.
  - apply Z.eqb_eq in E.
    replace (Z.of_nat (length l) <=? i + 1) with true
      by (symmetry; apply Z.leb_le; lia).
    unfold modify at 1.
    edestruct (update_overlay_images_shows
                 (set_map_pattern_idx (Some 0)
                    (set_map_pattern_idx (Some (i + 1)) s)) l 0)
      as [img ->]; [done|done|done|lia|]. by exists img.
  - apply Z.eqb_neq in E.
    replace (Z.of_nat (length l) <=? i + 1) with false
      by (symmetry; apply Z.leb_gt; lia).
    unfold ret at 1.
    edestruct (update_overlay_images_shows
                 (set_map_pattern_idx (Some (i + 1)) s) l (i + 1))
      as [img ->]; [done|done|done|lia|]. by exists img.
Qed.

Lemma last_overlay_image_spec (s : Widget) (l : list Image) (i : Z) :
  paging_inv s -> visible s = true -> overlay_images s = Some l ->
  map_pattern_idx s = Some i ->
  exists img,
    last_overlay_image s
    = (Ok tt,
       set_overlay_image_box (Some img)
         (set_map_pattern_idx
            (Some (if i =? 0 then Z.of_nat (length l) - 1 else i - 1)) s)).
Proof.
  intros Hinv Hv Hl Hi.
  destruct (Hinv l Hl) as (Hne & i' & Hi' & Hr).
  assert (i' = i) by congruence. subst i'.
  unfold last_overlay_image, bind at 1, get at 1. rewrite Hv.
  unfold bind at 1, get at 1. rewrite Hl.
  unfold add_map_pattern_idx, bind at 1, bind at 1, get at 1. rewrite Hi.
  unfold bind at 1, modify at 1, ret at 1.
  unfold bind at 1, when.
  destruct (i =? 0) eqn:E.
  - apply Z.eqb_eq in E. subst i.
    replace (0 + -1 <? 0) with true by done.
    unfold modify at 1.
    edestruct (update_overlay_images_shows
                 (set_map_pattern_idx (Some (Z.of_nat (length l) - 1))
                    (set_map_pattern_idx (Some (0 + -1)) s)) l
                 (Z.of_nat (length l) - 1))
      as [img ->]; [done|done|done|lia|]. by exists img.
  - apply Z.eqb_neq in E.
    replace (i + -1 <? 0) with false by (symmetry; apply Z.ltb_ge; lia).
    unfold ret at 1.
    edestruct (update_overlay_images_shows
                 (set_map_pattern_idx (Some (i + -1)) s) l (i + -1))
      as [img ->]; [done|done|done|lia|].
    exists img. by replace (i - 1) with (i + -1) by lia.
Qed.

Lemma paging_noop (s : Widget) :
  visible s = false \/ overlay_images s = None ->
  next_overlay_image s = (Ok tt, s) /\ last_overlay_image s = (Ok tt, s).
Proof.
  intros H. unfold next_overlay_image, last_overlay_image, bind, get, ret.
  destruct H as [-> | ->]; [|destruct (visible s)]; done.
Qed.

Lemma paging_step_inv (s : Widget) (l : list Image) (j : Z) (img : Image) :
  overlay_images s = Some l -> l <> [] -> 0 <= j < Z.of_nat (length l) ->
  paging_inv (set_overlay_image_box (Some img) (set_map_pattern_idx (Some j) s)).
Proof.
  intros Hl Hne Hj l' Hl'. cbn in Hl'. rewrite Hl in Hl'. inversion Hl'; subst l'.
  split; [done|]. by exists j.
Qed.

Lemma preserves_update_ui_state screens (state : MapOverlayUIState Image) :
  preserves paging_inv (update_ui_state screens state).
Proof.
  unfold update_ui_state.
  repeat first
    [ apply preserves_set_overlay_images
    | apply preserves_keeps; solve [keeps_steps]
    | apply preserves_when
    | apply preserves_if_some; intros ?
    | apply preserves_bind; [|intros ?] ].
Qed.

(** C10: the paging invariant holds for the fresh widget and is kept by
    setting an image list, by both paging operations and by applying a
    patch.  Setting a list puts the index at 0 and stores no list for an
    empty or absent one; next-page moves to the following image and from
    the last one to index 0; previous-page moves to the preceding image
    and from index 0 to the last one; both leave the widget as it is when
    the visible flag is false or no list is stored. *)
Theorem paging_invariant :
  (forall g0 o0 (crystal : list Image), paging_inv (fresh g0 o0 crystal)) /\
  (forall imgs (s : Widget),
     (set_overlay_images imgs s).1 = Ok tt /\
     paging_inv (set_overlay_images imgs s).2 /\
     map_pattern_idx (set_overlay_images imgs s).2 = Some 0 /\
     overlay_images (set_overlay_images imgs s).2
     = (if falsy imgs then None else imgs)) /\
  (forall s : Widget, paging_inv s ->
     (next_overlay_image s).1 = Ok tt /\ paging_inv (next_overlay_image s).2 /\
     overlay_images (next_overlay_image s).2 = overlay_images s /\
     (last_overlay_image s).1 = Ok tt /\ paging_inv (last_overlay_image s).2 /\
     overlay_images (last_overlay_image s).2 = overlay_images s) /\
  (forall (s : Widget) l i, paging_inv s -> visible s = true ->
     overlay_images s = Some l -> map_pattern_idx s = Some i ->
     map_pattern_idx (next_overlay_image s).2
     = Some (if i =? Z.of_nat (length l) - 1 then 0 else i + 1) /\
     map_pattern_idx (last_overlay_image s).2
     = Some (if i =? 0 then Z.of_nat (length l) - 1 else i - 1)) /\
  (forall s : Widget, visible s = false \/ overlay_images s = None ->
     next_overlay_image s = (Ok tt, s) /\ last_overlay_image s = (Ok tt, s)) /\
  (forall screens (state : MapOverlayUIState Image) (s : Widget),
     paging_inv s -> paging_inv (update_ui_state screens state s).2).
Proof.
  split; [|split; [|split; [|split; [|split]]]].
  - intros g0 o0 crystal l Hl. discriminate.
  - apply set_overlay_images_spec.
  - intros s Hinv.
    destruct (visible s) eqn:Hv, (overlay_images s) as [l|] eqn:Hl;
      try (destruct (paging_noop s) as [-> ->]; [auto|]; by rewrite ?Hl).
    destruct (Hinv l Hl) as (Hne & i & Hi & Hr).
    destruct (next_overlay_image_spec s l i Hinv Hv Hl Hi) as [img1 ->].
    destruct (last_overlay_image_spec s l i Hinv Hv Hl Hi) as [img2 ->].
    cbn [fst snd].
    split; [done|]. split.
    { apply paging_step_inv with (l := l); [done|done|].
      destruct (Z.eqb_spec i (Z.of_nat (length l) - 1)); lia. }
    split; [done|]. split; [done|]. split; [|done].
    apply paging_step_inv with (l := l); [done|done|].
    destruct (Z.eqb_spec i 0); lia.
  - intros s l i Hinv Hv Hl Hi.
    destruct (next_overlay_image_spec s l i Hinv Hv Hl Hi) as [img1 ->].
    destruct (last_overlay_image_spec s l i Hinv Hv Hl Hi) as [img2 ->].
    done.
  - apply paging_noop.
  - intros screens state s. apply preserves_update_ui_state.
Qed.

End Facts.

Lemma opacity_easing_reaches_target_witness :
  opacity_after stored_exact 9 (@fresh unit (0, 0, 10, 10) 0%float []) = 1%float.
Proof.
  apply (opacity_easing_reaches_target (@fresh unit (0, 0, 10, 10) 0%float []));
    [reflexivity | reflexivity | lia].
Defined.

Lemma update_ui_state_geometry_witness :
  geometry
    (update_ui_state []
       (UIState.mk None (Some 5) (Some 10) (Some 10) None None None None
                   false None None None None None None)
       (@fresh unit (1, 2, 3, 4) 0%float [])).2
  = (1, 2, 3, 4).
Proof.
  apply (proj1 (update_ui_state_geometry [] _ (@fresh unit (1, 2, 3, 4) 0%float []))).
  reflexivity.
Defined.

Lemma paging_invariant_witness :
  map_pattern_idx
    (next_overlay_image
       (set_overlay_images (Some [tt; tt]) (@fresh unit (0, 0, 0, 0) 0%float [])).2).2
  = Some 1 /\
  map_pattern_idx
    (last_overlay_image
       (set_overlay_images (Some [tt; tt]) (@fresh unit (0, 0, 0, 0) 0%float [])).2).2
  = Some 1.
Proof.
  apply (proj1 (proj2 (proj2 (proj2 (@paging_invariant unit))))
           (set_overlay_images (Some [tt; tt]) (@fresh unit (0, 0, 0, 0) 0%float [])).2
           [tt; tt] 0).
  - apply (proj1 (proj2 (@paging_invariant unit))).
  - reflexivity.
  - reflexivity.
  - reflexivity.
Defined.

End MapOverlayFacts.

(** ** The release version manager *)

Module CiVersionFacts.
Import CiVersion.
Local Open Scope string_scope.
#[local] Arguments String.append !s1 s2 : simpl nomatch.

(** *** Strings *)

Lemma app_assoc (a b c : string) : (a ++ b) ++ c = a ++ (b ++ c).
Proof. induction a as [|x a IH]; cbn; congruence. Qed.

Lemma app_nil_r (a : string) : a ++ "" = a.
Proof. induction a as [|x a IH]; cbn; congruence. Qed.

Lemma app_is_empty (a b : string) : is_empty (a ++ b) = is_empty a && is_empty b.
Proof. by destruct a. Qed.

Lemma all_chars_app P (a b : string) :
  all_chars P (a ++ b) = all_chars P a && all_chars P b.
Proof.
  induction a as [|x a IH]; cbn; [done|]. rewrite IH. by rewrite andb_assoc.
Qed.

Lemma startswith_app (p s : string) : startswith p (p ++ s) = true.
Proof.
  unfold startswith. induction p as [|x p IH]; cbn.
  - by destruct s.
  - destruct (ascii_dec x x); [exact IH|congruence].
Qed.

Lemma startswith_inv (p s : string) :
  startswith p s = true -> exists r, s = p ++ r.
Proof.
  unfold startswith. revert s. induction p as [|x p IH]; intros s H.
  - by exists s.
  - destruct s as [|y s]; cbn in H; [discriminate|].
    destruct (ascii_dec x y) as [->|]; [|discriminate].
    destruct (IH s H) as [r ->]. by exists r.
Qed.

Lemma drop_str_app (p s : string) : drop_str (String.length p) (p ++ s) = s.
Proof. induction p as [|x p IH]; cbn; [by destruct s|exact IH]. Qed.

Lemma contains_app c (a b : string) :
  contains c (a ++ b) = contains c a || contains c b.
Proof.
  induction a as [|x a IH]; cbn; [done|]. rewrite IH. by rewrite orb_assoc.
Qed.

Lemma split_once_app c (a b : string) :
  contains c a = false -> split_once c (a ++ String c b) = Some (a, b).
Proof.
  induction a as [|x a IH]; cbn; intros H.
  - by rewrite Ascii.eqb_refl.
  - apply orb_false_iff in H as [Hx Ha]. rewrite Hx, (IH Ha). done.
Qed.

Lemma split_once_inv c (s a b : string) :
  split_once c s = Some (a, b) -> s = a ++ String c b /\ contains c a = false.
Proof.
  revert a. induction s as [|x s IH]; cbn; intros a H; [done|].
  destruct (Ascii.eqb c x) eqn:E.
  - apply Ascii.eqb_eq in E. subst x. by inversion H.
  - destruct (split_once c s) as [[a' b']|]; [|done]. inversion H; subst.
    destruct (IH a' eq_refl) as [-> Hc]. cbn. by rewrite E.
Qed.

(** [rstrip] keeps a string that ends in a part it keeps. *)
Lemma rstrip_by_app P (a b : string) :
  is_empty b = false -> rstrip_by P b = b -> rstrip_by P (a ++ b) = a ++ b.
Proof.
  intros Hb Hr. induction a as [|x a IH]; cbn; [done|].
  rewrite IH, app_is_empty, Hb, andb_false_r. done.
Qed.

Lemma rstrip_by_all_kept P (s : string) :
  all_chars (fun c => negb (P c)) s = true -> rstrip_by P s = s.
Proof.
  induction s as [|x s IH]; cbn; [done|]. intros H.
  apply andb_true_iff in H as [Hx Hs]. rewrite (IH Hs).
  apply negb_true_iff in Hx. by rewrite Hx, andb_false_r.
Qed.

(** *** Character classes *)

Lemma digit_not_space c : is_digit c = true -> is_space c = false.
Proof.
  unfold is_digit, is_space. intros H.
  apply andb_true_iff in H as [H1 H2].
  apply N.leb_le in H1. apply N.leb_le in H2.
  repeat (apply orb_false_iff; split);
    first [ apply N.eqb_neq; lia
          | apply andb_false_iff;
            first [ right; apply N.leb_gt; lia | left; apply N.leb_gt; lia ] ].
Qed.

Lemma digit_not_dash c : is_digit c = true -> Ascii.eqb "-" c = false.
Proof.
  intros H. destruct (Ascii.eqb_spec "-" c) as [<-|]; [|done].
  discriminate H.
Qed.

Lemma digits_kept_by_rstrip (s : string) :
  all_chars is_digit s = true -> rstrip_by is_space s = s.
Proof.
  intros H. apply rstrip_by_all_kept. induction s as [|x s IH]; cbn in *; [done|].
  apply andb_true_iff in H as [Hx Hs]. by rewrite (digit_not_space x Hx), (IH Hs).
Qed.

Lemma digits_no_dash (s : string) :
  all_chars is_digit s = true -> contains "-" s = false.
Proof.
  induction s as [|x s IH]; cbn [contains all_chars]; [done|]. intros H.
  apply andb_true_iff in H as [Hx Hs]. by rewrite (digit_not_dash x Hx), (IH Hs).
Qed.

Lemma digits1_inv (s : string) :
  digits1 s = true -> is_empty s = false /\ all_chars is_digit s = true.
Proof.
  unfold digits1. intros H. apply andb_true_iff in H as [H1 H2].
  by apply negb_true_iff in H1.
Qed.

(** *** Digits separated by dots *)

Lemma release_re_from_digits (d rest : string) :
  all_chars is_digit d = true -> is_empty d = false ->
  forall seen, release_re_from seen (d ++ rest) = release_re_from true rest.
Proof.
  induction d as [|x d IH]; cbn; [done|]. intros H _ seen.
  apply andb_true_iff in H as [Hx Hd]. rewrite Hx.
  destruct d as [|y d]; [done|]. by apply IH.
Qed.

Lemma release_re_complete (s : string) : digits_dots s -> release_re s = true.
Proof.
  unfold release_re. induction 1 as [d Hd|d s Hd Hs IH].
  - apply digits1_inv in Hd as [Hne Hall].
    rewrite <- (app_nil_r d). by rewrite release_re_from_digits.
  - apply digits1_inv in Hd as [Hne Hall].
    rewrite release_re_from_digits by done. cbn.
    destruct s as [|x s]; [done|]. exact IH.
Qed.

Lemma digits_dots_shape (s : string) :
  digits_dots s ->
  is_empty s = false /\ rstrip_by is_space s = s /\ contains "-" s = false.
Proof.
  induction 1 as [d Hd|d s Hd Hs (IH1 & IH2 & IH3)];
    apply digits1_inv in Hd as [Hne Hall].
  - by rewrite digits_kept_by_rstrip, digits_no_dash.
  - rewrite app_is_empty, Hne. split; [done|]. split.
    + apply rstrip_by_app; [by rewrite app_is_empty|].
      change ("." ++ s) with (String "." s). cbn. by rewrite IH2, IH1.
    + rewrite contains_app, digits_no_dash by done. cbn. exact IH3.
Qed.


Lemma release_re_sound_from (s : string) :
  (release_re_from false s = true -> digits_dots s) /\
  (release_re_from true s = true ->
   forall d0, digits1 d0 = true -> digits_dots (d0 ++ s)).
Proof.
  induction s as [|c r [IHf IHt]]; cbn [release_re_from].
  - split; [discriminate|]. intros _ d0 Hd0. rewrite app_nil_r. by constructor.
  - destruct (is_digit c) eqn:Hc.
    + split; intros H.
      * apply (IHt H (String c "")). unfold digits1. cbn. by rewrite Hc.
      * intros d0 Hd0.
        replace (d0 ++ String c r) with ((d0 ++ String c "") ++ r)
          by (by rewrite app_assoc).
        apply (IHt H). apply digits1_inv in Hd0 as [Hne Hall].
        unfold digits1. rewrite app_is_empty, Hne, all_chars_app, Hall.
        cbn. by rewrite Hc.
    + split; [by rewrite andb_false_r|].
      rewrite andb_true_r. destruct (Ascii.eqb_spec c ".") as [->|]; [|done].
      intros H d0 Hd0. apply (dd_more d0 r Hd0), IHf, H.
Qed.

Lemma release_re_sound (s : string) : release_re s = true -> digits_dots s.
Proof. apply release_re_sound_from. Qed.

(** *** Labels *)

Lemma ci_char_lower a c :
  ci_char a c = true -> lower_char a = a -> lower_char c = a.
Proof.
  unfold ci_char. intros H Ha. apply orb_true_iff in H as [H|H].
  - apply Ascii.eqb_eq in H. by subst c.
  - apply andb_true_iff in H as [Hr H]. apply Ascii.eqb_eq in H.
    unfold lower_char. rewrite Hr. cbn [orb]. by symmetry.
Qed.

Lemma lower_letter_fixed a : is_lower_letter a = true -> lower_char a = a.
Proof.
  destruct a as [[] [] [] [] [] [] [] []]; intros H;
    first [discriminate H | reflexivity].
Qed.

Lemma lower_of_dot_or_digit c :
  c = "."%char \/ is_digit c = true -> is_lower_letter (lower_char c) = false.
Proof.
  intros [->|H]; [reflexivity|].
  destruct c as [[] [] [] [] [] [] [] []];
    first [discriminate H | reflexivity].
Qed.

(** A letter of a label does not match a dot or a digit. *)
Lemma ci_char_letter a c :
  is_lower_letter a = true -> c = "."%char \/ is_digit c = true ->
  ci_char a c = false.
Proof.
  intros Ha Hc. destruct (ci_char a c) eqn:E; [|done].
  apply ci_char_lower in E; [|by apply lower_letter_fixed].
  apply lower_of_dot_or_digit in Hc. congruence.
Qed.

Lemma ci_equal_lower (L label : string) :
  ci_equal L label = true -> all_chars is_lower_letter L = true ->
  str_lower label = L.
Proof.
  revert label. induction L as [|a L IH]; intros [|c label]; cbn; try done.
  intros H HL. apply andb_true_iff in H as [Hc Hl].
  apply andb_true_iff in HL as [Ha HL].
  rewrite (ci_char_lower a c Hc (lower_letter_fixed a Ha)), (IH label Hl HL). done.
Qed.

Lemma ci_literal_equal (L label rest : string) :
  ci_equal L label = true -> ci_literal L (label ++ rest) = Some (label, rest).
Proof.
  revert label. induction L as [|a L IH]; intros [|c label]; cbn; try done.
  intros H. apply andb_true_iff in H as [Hc Hl]. by rewrite Hc, (IH label Hl).
Qed.

Lemma ci_literal_inv (P s l rest : string) :
  ci_literal P s = Some (l, rest) -> s = l ++ rest /\ ci_equal P l = true.
Proof.
  revert s l. induction P as [|a P IH]; intros s l; cbn.
  - intros H. by inversion H.
  - destruct s as [|c s]; [done|]. destruct (ci_char a c) eqn:Hc; [|done].
    destruct (ci_literal P s) as [[m r]|] eqn:E; [|done].
    intros H. inversion H; subst. destruct (IH s m E) as [-> Hm].
    cbn. by rewrite Hc.
Qed.

Lemma suffix_tail_inv (s n : string) :
  suffix_tail s = Some n ->
  digits1 n = true /\ (s = "." ++ n \/ s = n).
Proof.
  unfold suffix_tail. destruct s as [|c r].
  - destruct (digits1 "") eqn:E; [|done]. intros H. inversion H; subst. auto.
  - destruct (Ascii.eqb_spec c ".") as [->|Hne].
    + destruct (digits1 r) eqn:E1.
      * intros H. inversion H; subst. auto.
      * destruct (digits1 (String "." r)) eqn:E2; [|done].
        intros H. inversion H; subst. auto.
    + assert (H0 : (if digits1 (String c r) then Some (String c r) else None)
                   = Some n ->
                   digits1 n = true /\ (String c r = "." ++ n \/ String c r = n)).
      { destruct (digits1 (String c r)) eqn:E; [|done].
        intros H. inversion H; subst. auto. }
      destruct c as [[] [] [] [] [] [] [] []]; first [exact H0 | by destruct Hne].
Qed.

Lemma suffix_tail_digits (dot num : string) :
  dot = "" \/ dot = "." -> digits1 num = true ->
  suffix_tail (dot ++ num) = Some num.
Proof.
  intros Hdot Hnum. destruct Hdot as [->| ->].
  - cbn. unfold suffix_tail. rewrite Hnum.
    destruct num as [|c r]; [done|].
    apply digits1_inv in Hnum as [_ Hall]. cbn in Hall.
    apply andb_true_iff in Hall as [Hc _].
    destruct c as [[] [] [] [] [] [] [] []]; first [discriminate Hc | reflexivity].
  - cbn. by rewrite Hnum.
Qed.

(** What follows a label starts with a dot or a digit. *)
Lemma tail_head (dot num : string) :
  dot = "" \/ dot = "." -> digits1 num = true ->
  exists c r, dot ++ num = String c r /\ (c = "."%char \/ is_digit c = true).
Proof.
  intros [->| ->] Hnum.
  - destruct num as [|c r]; [done|]. exists c, r. split; [done|]. right.
    apply digits1_inv in Hnum as [_ Hall]. cbn in Hall.
    by apply andb_true_iff in Hall as [Hc _].
  - exists "."%char, num. auto.
Qed.

(** Only the alternative that is the label itself matches the suffix. *)
Lemma ci_literal_unique (P L label dot num l' rest' num' : string) :
  all_chars is_lower_letter P = true -> all_chars is_lower_letter L = true ->
  ci_equal L label = true -> dot = "" \/ dot = "." -> digits1 num = true ->
  ci_literal P (label ++ dot ++ num) = Some (l', rest') ->
  suffix_tail rest' = Some num' ->
  P = L.
Proof.
  intros HP HL Heq Hdot Hnum. revert L label l' HP HL Heq.
  induction P as [|a P IH]; intros L label l' HP HL Heq Hlit Htail.
  - cbn in Hlit. inversion Hlit; subst. clear Hlit.
    destruct label as [|c label]; [by destruct L|].
    destruct L as [|b L]; [done|]. exfalso.
    cbn in Heq, HL. apply andb_true_iff in Heq as [Hc _].
    apply andb_true_iff in HL as [Hb _].
    apply suffix_tail_inv in Htail as [Hn' [E|E]].
    + cbn in E. inversion E; subst c.
      rewrite (ci_char_letter b "." Hb) in Hc by auto. done.
    + rewrite <- E in Hn'. apply digits1_inv in Hn' as [_ Hall].
      cbn in Hall. apply andb_true_iff in Hall as [Hd _].
      rewrite (ci_char_letter b c Hb) in Hc by auto. done.
  - cbn in HP. apply andb_true_iff in HP as [Ha HP].
    destruct label as [|c label].
    + exfalso. destruct (tail_head dot num Hdot Hnum) as (c & r & E & Hc).
      cbn in Hlit. rewrite E in Hlit. cbn in Hlit.
      by rewrite (ci_char_letter a c Ha Hc) in Hlit.
    + destruct L as [|b L]; [done|].
      cbn in Heq, HL, Hlit. apply andb_true_iff in Heq as [Hc Heq].
      apply andb_true_iff in HL as [Hb HL].
      destruct (ci_char a c) eqn:Hac; [|done].
      destruct (ci_literal P (label ++ dot ++ num)) as [[m r]|] eqn:E; [|done].
      inversion Hlit; subst. f_equal.
      * apply ci_char_lower in Hac; [|by apply lower_letter_fixed].
        apply ci_char_lower in Hc; [|by apply lower_letter_fixed]. congruence.
      * by apply (IH L label m).
Qed.

Lemma suffix_re_alts_complete (alts : list string) (L label dot num : string) :
  forallb (all_chars is_lower_letter) alts = true ->
  L ∈ alts -> ci_equal L label = true -> dot = "" \/ dot = "." ->
  digits1 num = true ->
  suffix_re_alts alts (label ++ dot ++ num) = Some (label, num).
Proof.
  intros Halts HL Heq Hdot Hnum.
  induction alts as [|P alts IH]; [by apply elem_of_nil in HL|].
  cbn in Halts. apply andb_true_iff in Halts as [HP Halts].
  assert (HLl : all_chars is_lower_letter L = true).
  { apply elem_of_cons in HL as [->|HL]; [done|].
    rewrite forallb_forall in Halts. apply Halts. by apply list_elem_of_In. }
  cbn [suffix_re_alts].
  destruct (ci_literal P (label ++ dot ++ num)) as [[l' rest']|] eqn:Elit.
  - destruct (suffix_tail rest') as [num'|] eqn:Etail.
    + pose proof (ci_literal_unique P L label dot num l' rest' num'
                    HP HLl Heq Hdot Hnum Elit Etail) as ->.
      rewrite (ci_literal_equal L label (dot ++ num) Heq) in Elit.
      inversion Elit; subst.
      rewrite (suffix_tail_digits dot num Hdot Hnum) in Etail. congruence.
    + apply elem_of_cons in HL as [->|HL]; [|by apply IH].
      rewrite (ci_literal_equal P label (dot ++ num) Heq) in Elit.
      inversion Elit; subst.
      rewrite (suffix_tail_digits dot num Hdot Hnum) in Etail. done.
  - apply elem_of_cons in HL as [->|HL]; [|by apply IH].
    by rewrite (ci_literal_equal P label (dot ++ num) Heq) in Elit.
Qed.

Lemma suffix_re_alts_sound (alts : list string) (s l n : string) :
  suffix_re_alts alts s = Some (l, n) ->
  exists P dot, P ∈ alts /\ ci_equal P l = true /\ (dot = "" \/ dot = ".") /\
                digits1 n = true /\ s = l ++ dot ++ n.
Proof.
  induction alts as [|P alts IH]; cbn [suffix_re_alts]; [done|].
  destruct (ci_literal P s) as [[l' rest']|] eqn:Elit.
  - destruct (suffix_tail rest') as [num'|] eqn:Etail.
    + intros H. inversion H; subst.
      apply ci_literal_inv in Elit as [-> Heq].
      apply suffix_tail_inv in Etail as [Hn [->| ->]].
      * exists P, ".". repeat split; auto. by left.
      * exists P, "". repeat split; auto. by left.
    + intros H. destruct (IH H) as (P' & dot & HP' & Hrest).
      exists P', dot. split; [by right|done].
  - intros H. destruct (IH H) as (P' & dot & HP' & Hrest).
    exists P', dot. split; [by right|done].
Qed.

Lemma suffix_re_sound (s l n : string) :
  suffix_re s = Some (l, n) -> supported_suffix s.
Proof.
  intros H. apply suffix_re_alts_sound in H as (P & dot & HP & Heq & Hdot & Hn & ->).
  by exists P, l, dot, n.
Qed.


(** *** The mapping of accepted tags *)

Lemma strip_tag (pre x : string) :
  pre = "" \/ pre = "refs/tags/" -> is_empty x = false ->
  rstrip_by is_space x = x ->
  strip (pre ++ "v" ++ x) = pre ++ "v" ++ x.
Proof.
  intros Hpre Hx Hr. unfold strip.
  replace (lstrip_by is_space (pre ++ "v" ++ x)) with (pre ++ "v" ++ x)
    by (by destruct Hpre as [->| ->]).
  rewrite <- app_assoc. by apply rstrip_by_app.
Qed.

(** After the prefix and the [v], the mapper goes on with the rest. *)
Lemma tag_head_norm (pre raw : string) :
  pre = "" \/ pre = "refs/tags/" ->
  (if startswith "refs/tags/" (pre ++ "v" ++ raw)
   then removeprefix "refs/tags/" (pre ++ "v" ++ raw)
   else pre ++ "v" ++ raw) = String "v" raw.
Proof.
  intros Hpre. destruct Hpre as [->| ->]; [done|].
  unfold removeprefix. rewrite startswith_app.
  by rewrite (drop_str_app "refs/tags/" ("v" ++ raw)).
Qed.

Lemma tag_head (pre raw : string) :
  pre = "" \/ pre = "refs/tags/" -> is_empty raw = false ->
  (if startswith "refs/tags/" (pre ++ "v" ++ raw)
   then removeprefix "refs/tags/" (pre ++ "v" ++ raw)
   else pre ++ "v" ++ raw) = String "v" raw /\
  negb (startswith "v" (String "v" raw))
  || (String.length (String "v" raw) <? 2)%nat = false.
Proof.
  intros Hpre Hraw. split; [by apply tag_head_norm|]. by destruct raw.
Qed.

Lemma tag_release (pre raw : string) :
  pre = "" \/ pre = "refs/tags/" -> digits_dots raw ->
  tag_to_pep440 (pre ++ "v" ++ raw) = Ok (raw, false).
Proof.
  intros Hpre Hraw.
  destruct (digits_dots_shape raw Hraw) as (Hne & Hr & Hdash).
  unfold tag_to_pep440. rewrite (strip_tag pre raw Hpre Hne Hr).
  destruct (tag_head pre raw Hpre Hne) as [-> ->].
  cbn [drop_str]. rewrite Hdash. cbn [negb].
  by rewrite (release_re_complete raw Hraw).
Qed.

Lemma lower_labels : forallb (all_chars is_lower_letter) LABELS = true.
Proof. reflexivity. Qed.

Lemma label_table_labels (L out : string) :
  (L, out) ∈ LABEL_TABLE -> L ∈ LABELS.
Proof.
  unfold LABEL_TABLE, LABELS. rewrite !elem_of_cons, elem_of_nil.
  intros H. repeat destruct H as [H|H]; try done; inversion H; subst; auto 10.
Qed.

Lemma tag_prerelease (pre base L out label dot num : string) :
  pre = "" \/ pre = "refs/tags/" -> digits_dots base ->
  (L, out) ∈ LABEL_TABLE -> ci_equal L label = true ->
  dot = "" \/ dot = "." -> digits1 num = true ->
  tag_to_pep440 (pre ++ "v" ++ base ++ "-" ++ label ++ dot ++ num)
  = Ok (base ++ out ++ num, true).
Proof.
  intros Hpre Hbase HL Heq Hdot Hnum.
  destruct (digits_dots_shape base Hbase) as (Hne & Hr & Hdash).
  pose proof (label_table_labels L out HL) as HLl.
  assert (HLlow : all_chars is_lower_letter L = true).
  { pose proof lower_labels as H. rewrite forallb_forall in H.
    apply H. by apply list_elem_of_In. }
  destruct (digits1_inv num Hnum) as [Hnne Hnall].
  set (raw := base ++ "-" ++ label ++ dot ++ num).
  assert (Hrne : is_empty raw = false) by (unfold raw; by rewrite app_is_empty, Hne).
  assert (Hrr : rstrip_by is_space raw = raw).
  { unfold raw. rewrite <- !app_assoc. apply rstrip_by_app; [done|].
    by apply digits_kept_by_rstrip. }
  unfold tag_to_pep440. rewrite (strip_tag pre raw Hpre Hrne Hrr).
  destruct (tag_head pre raw Hpre Hrne) as [-> ->].
  cbn [drop_str].
  assert (Hsplit : split1 "-" raw = Ok (base, label ++ dot ++ num)).
  { unfold split1, raw. change ("-" ++ label ++ dot ++ num)
      with (String "-" (label ++ dot ++ num)).
    by rewrite split_once_app. }
  replace (contains "-" raw) with true
    by (unfold raw; rewrite contains_app; cbn; by rewrite orb_true_r).
  cbn [negb]. rewrite Hsplit. cbn [rbind fst snd].
  rewrite (release_re_complete base Hbase). cbn [negb].
  unfold suffix_re.
  rewrite (suffix_re_alts_complete LABELS L label dot num lower_labels HLl Heq Hdot Hnum).
  rewrite (ci_equal_lower L label Heq HLlow).
  clear -HL. unfold LABEL_TABLE in HL. rewrite !elem_of_cons, elem_of_nil in HL.
  repeat destruct HL as [HL|HL]; try done; inversion HL; subst; reflexivity.
Qed.

Lemma head_check_inv (r : string) :
  negb (startswith "v" r) || (String.length r <? 2)%nat = false ->
  exists rest, rest <> "" /\ r = "v" ++ rest.
Proof.
  intros H. apply orb_false_iff in H as [Hv Hlen].
  apply negb_false_iff, startswith_inv in Hv as [rest ->].
  exists rest. split; [|done]. by intros ->.
Qed.

(** The marker the mapper puts after the base for a label of the
    pattern. *)
Lemma label_marker (P base num : string) :
  P ∈ LABELS ->
  exists out, (P, out) ∈ LABEL_TABLE /\
    (if bool_decide (P ∈ ["alpha"; "a"]) then Ok (base ++ "a" ++ num, true)
     else if bool_decide (P ∈ ["beta"; "b"]) then Ok (base ++ "b" ++ num, true)
     else if String.eqb P "rc" then Ok (base ++ "rc" ++ num, true)
     else if bool_decide (P ∈ ["pre"; "preview"]) then Ok (base ++ "rc" ++ num, true)
     else if String.eqb P "dev" then Ok (base ++ ".dev" ++ num, true)
     else if String.eqb P "post" then Ok (base ++ ".post" ++ num, true)
     else Raise (VersionError "Unhandled label"))
    = Ok (base ++ out ++ num, true).
Proof.
  unfold LABELS. rewrite !elem_of_cons, elem_of_nil. intros H.
  repeat destruct H as [H|H]; try done; subst P;
    eexists; (split; [|reflexivity]);
    unfold LABEL_TABLE; rewrite !elem_of_cons; auto 12.
Qed.

(** Every accepted tag has one of the two shapes. *)
Lemma tag_accepted_shape (tag v : string) (p : bool) :
  tag_to_pep440 tag = Ok (v, p) ->
  exists pre raw,
    (pre = "" \/ pre = "refs/tags/") /\ strip tag = pre ++ "v" ++ raw /\
    ((digits_dots raw /\ v = raw /\ p = false) \/
     (exists base L out label dot num,
        digits_dots base /\ (L, out) ∈ LABEL_TABLE /\
        ci_equal L label = true /\ (dot = "" \/ dot = ".") /\
        digits1 num = true /\ raw = base ++ "-" ++ label ++ dot ++ num /\
        v = base ++ out ++ num /\ p = true)).
Proof.
  unfold tag_to_pep440.
  set (n := if startswith "refs/tags/" (strip tag)
            then removeprefix "refs/tags/" (strip tag) else strip tag).
  assert (Hn : exists pre, (pre = "" \/ pre = "refs/tags/") /\ strip tag = pre ++ n).
  { unfold n. destruct (startswith "refs/tags/" (strip tag)) eqn:E.
    - apply startswith_inv in E as [r Er]. exists "refs/tags/".
      split; [by right|]. rewrite Er. unfold removeprefix.
      by rewrite startswith_app, drop_str_app.
    - exists "". split; [by left|done]. }
  destruct Hn as (pre & Hpre & Et). clearbody n.
  destruct (negb (startswith "v" n) || (String.length n <? 2)%nat) eqn:Hc;
    [discriminate|].
  destruct (head_check_inv n Hc) as (raw & Hraw & ->).
  change (drop_str 1 ("v" ++ raw)) with raw.
  intros H. exists pre, raw. split; [done|]. split; [done|].
  destruct (contains "-" raw) eqn:Hdash; cbn [negb] in H.
  - right. unfold split1 in H.
    destruct (split_once "-" raw) as [[base suffix]|] eqn:Es; [|discriminate].
    cbn [rbind fst snd] in H.
    apply split_once_inv in Es as [Eraw _].
    destruct (release_re base) eqn:Eb; [|discriminate]. cbn [negb] in H.
    destruct (suffix_re suffix) as [[l num]|] eqn:Esuf; [|discriminate].
    apply suffix_re_alts_sound in Esuf as (P & dot & HP & Heq & Hdot & Hnum & Esuffix).
    assert (HPlow : all_chars is_lower_letter P = true).
    { pose proof lower_labels as Hl. rewrite forallb_forall in Hl.
      apply Hl. by apply list_elem_of_In. }
    rewrite (ci_equal_lower P l Heq HPlow) in H.
    destruct (label_marker P base num HP) as (out & Hout & Hchain).
    rewrite Hchain in H. inversion H; subst v p.
    exists base, P, out, l, dot, num.
    repeat split; try done.
    + by apply release_re_sound.
    + by rewrite Eraw, Esuffix.
  - left. destruct (release_re raw) eqn:Er; [|discriminate].
    cbn [negb] in H. inversion H; subst.
    split; [by apply release_re_sound|done].
Qed.
(** C1: behind an optional [refs/tags/] and the [v], digits separated by
    dots map to themselves with is-prerelease false; a base of that form
    followed by a dash, a label of the table in any case, an optional dot
    and digits maps to the base, the marker of the label and the digits,
    with is-prerelease true for every label, [post] included.  Every tag
    the mapper accepts has, once surrounding whitespace is trimmed, one of
    these two shapes and the result stated for it.  The fixtures of the
    specification evaluate as stated. *)
Theorem tag_to_pep440_mapping :
  (forall pre base : string,
     pre = "" \/ pre = "refs/tags/" -> digits_dots base ->
     tag_to_pep440 (pre ++ "v" ++ base) = Ok (base, false) /\
     forall L out label dot num : string,
       (L, out) ∈ LABEL_TABLE -> ci_equal L label = true ->
       dot = "" \/ dot = "." -> digits1 num = true ->
       tag_to_pep440 (pre ++ "v" ++ base ++ "-" ++ label ++ dot ++ num)
       = Ok (base ++ out ++ num, true)) /\
  (forall (tag v : string) (p : bool),
     tag_to_pep440 tag = Ok (v, p) ->
     exists pre raw,
       (pre = "" \/ pre = "refs/tags/") /\ strip tag = pre ++ "v" ++ raw /\
       ((digits_dots raw /\ v = raw /\ p = false) \/
        (exists base L out label dot num,
           digits_dots base /\ (L, out) ∈ LABEL_TABLE /\
           ci_equal L label = true /\ (dot = "" \/ dot = ".") /\
           digits1 num = true /\ raw = base ++ "-" ++ label ++ dot ++ num /\
           v = base ++ out ++ num /\ p = true))) /\
  tag_to_pep440 "v1.2.3" = Ok ("1.2.3", false) /\
  tag_to_pep440 "v1.2.3-rc.1" = Ok ("1.2.3rc1", true) /\
  tag_to_pep440 "v1.2.3-alpha.2" = Ok ("1.2.3a2", true) /\
  tag_to_pep440 "v1.2.3-a2" = Ok ("1.2.3a2", true) /\
  tag_to_pep440 "v1.2.3-beta1" = Ok ("1.2.3b1", true) /\
  tag_to_pep440 "v1.2.3-dev.4" = Ok ("1.2.3.dev4", true) /\
  tag_to_pep440 "v1.2.3-post.5" = Ok ("1.2.3.post5", true) /\
  tag_to_pep440 "v1.2.3-preview.6" = Ok ("1.2.3rc6", true) /\
  tag_to_pep440 "refs/tags/v2.0" = Ok ("2.0", false).
Proof.
  split.
  { intros pre base Hpre Hbase. split; [by apply tag_release|].
    intros L out label dot num. by apply tag_prerelease. }
  split; [exact tag_accepted_shape|].
  repeat apply conj; vm_compute; reflexivity.
Qed.

Lemma tag_to_pep440_mapping_witness :
  tag_to_pep440 ("refs/tags/" ++ "v" ++ "10.4" ++ "-" ++ "PoSt" ++ "." ++ "12")
  = Ok ("10.4" ++ ".post" ++ "12", true).
Proof.
  apply (proj2 (proj1 tag_to_pep440_mapping "refs/tags/" "10.4"
                  (or_intror eq_refl)
                  (dd_more "10" "4" eq_refl (dd_last "4" eq_refl)))
           "post" ".post" "PoSt" "." "12").
  - unfold LABEL_TABLE. rewrite !elem_of_cons. auto 10.
  - reflexivity.
  - by right.
  - reflexivity.
Defined.


(** *** Rejected tags *)

Lemma main_rejects (args : Args) (w : World) (e : exn) :
  tag_to_pep440 (arg_tag args) = Raise e -> main args w = (Raise e, w).
Proof. intros H. unfold main, bind, lift. by rewrite H. Qed.

Lemma tag_without_v (tag : string) :
  ~ starts_with_v (strip tag) -> rejected tag.
Proof.
  intros Hno. unfold rejected, tag_to_pep440.
  destruct (startswith "refs/tags/" (strip tag)) eqn:E.
  - apply startswith_inv in E as [r Er]. rewrite Er.
    unfold removeprefix. rewrite startswith_app, drop_str_app.
    destruct (negb (startswith "v" r) || (String.length r <? 2)%nat) eqn:Hc;
      [eauto|].
    destruct (head_check_inv r Hc) as (rest & Hrest & ->).
    destruct Hno. exists rest. split; [done|]. right. by rewrite Er.
  - destruct (negb (startswith "v" (strip tag))
              || (String.length (strip tag) <? 2)%nat) eqn:Hc; [eauto|].
    destruct (head_check_inv _ Hc) as (rest & Hrest & Er).
    destruct Hno. exists rest. auto.
Qed.

Lemma tag_bad_release (tag pre raw : string) :
  pre = "" \/ pre = "refs/tags/" -> strip tag = pre ++ "v" ++ raw ->
  contains "-" raw = false -> ~ digits_dots raw -> rejected tag.
Proof.
  intros Hpre Et Hdash Hno. unfold rejected, tag_to_pep440.
  rewrite Et, (tag_head_norm pre raw Hpre).
  destruct (negb (startswith "v" (String "v" raw))
            || (String.length (String "v" raw) <? 2)%nat); [eauto|].
  cbn [drop_str]. rewrite Hdash. cbn [negb].
  destruct (release_re raw) eqn:E; [|cbn [negb]; eauto].
  destruct Hno. by apply release_re_sound.
Qed.

Lemma tag_bad_prerelease (tag pre raw base suffix : string) :
  pre = "" \/ pre = "refs/tags/" -> strip tag = pre ++ "v" ++ raw ->
  raw = base ++ "-" ++ suffix -> contains "-" base = false ->
  ~ digits_dots base \/ ~ supported_suffix suffix -> rejected tag.
Proof.
  intros Hpre Et Er Hdash Hno. unfold rejected, tag_to_pep440.
  rewrite Et, (tag_head_norm pre raw Hpre).
  destruct (negb (startswith "v" (String "v" raw))
            || (String.length (String "v" raw) <? 2)%nat); [eauto|].
  cbn [drop_str]. subst raw.
  replace (contains "-" (base ++ "-" ++ suffix)) with true
    by (rewrite contains_app; cbn; by rewrite orb_true_r).
  cbn [negb]. unfold split1.
  change ("-" ++ suffix) with (String "-" suffix).
  rewrite (split_once_app "-" base suffix Hdash). cbn [rbind fst snd].
  destruct (release_re base) eqn:Eb; [|cbn [negb]; eauto]. cbn [negb].
  destruct (suffix_re suffix) as [[l n]|] eqn:Es; [|eauto].
  destruct Hno as [Hno|Hno]; destruct Hno.
  - by apply release_re_sound.
  - by apply (suffix_re_sound suffix l n).
Qed.

(** C7 (as amended): a tag that, once surrounding whitespace is trimmed,
    does not start with [v] and one more character behind an optional
    [refs/tags/], or whose part after the [v] holds no dash and is not
    digits separated by dots, or whose base before the first dash is not
    digits separated by dots, or whose suffix after that dash is not a
    supported label with its number, makes the mapper raise VersionError;
    [main] then raises the same error and leaves every file, the
    environment log and both streams as they were.  The tags 1.2.3, v,
    v1.2.3-xyz.1 and va.b.c are rejected. *)
Theorem tag_to_pep440_rejects :
  (forall tag, ~ starts_with_v (strip tag) -> rejected tag) /\
  (forall tag pre raw : string,
     pre = "" \/ pre = "refs/tags/" -> strip tag = pre ++ "v" ++ raw ->
     (contains "-" raw = false -> ~ digits_dots raw -> rejected tag) /\
     (forall base suffix : string,
        raw = base ++ "-" ++ suffix -> contains "-" base = false ->
        ~ digits_dots base \/ ~ supported_suffix suffix -> rejected tag)) /\
  (forall (args : Args) (w : World),
     rejected (arg_tag args) ->
     exists msg, tag_to_pep440 (arg_tag args) = Raise (VersionError msg) /\
                 main args w = (Raise (VersionError msg), w)) /\
  rejected "1.2.3" /\ rejected "v" /\ rejected "v1.2.3-xyz.1" /\
  rejected "va.b.c".
Proof.
  split; [exact tag_without_v|]. split.
  { intros tag pre raw Hpre Et. split.
    - by apply (tag_bad_release tag pre raw).
    - intros base suffix. by apply (tag_bad_prerelease tag pre raw). }
  split.
  { intros args w [msg Hmsg]. exists msg. split; [done|]. by apply main_rejects. }
  repeat apply conj; eexists; vm_compute; reflexivity.
Qed.

Lemma tag_to_pep440_rejects_witness : rejected "release-1".
Proof.
  apply (proj1 tag_to_pep440_rejects "release-1").
  intros (rest & _ & [H|H]); vm_compute in H; discriminate H.
Defined.

(** C7, where the claim as stated fails: the tag with a blank in front
    does not start with [v], and the mapper accepts it. *)
Lemma tag_with_leading_blank_accepted :
  ~ starts_with_v " v1.2.3" /\
  tag_to_pep440 " v1.2.3" = Ok ("1.2.3", false) /\
  ~ rejected " v1.2.3".
Proof.
  split; [|split].
  - intros (rest & _ & [H|H]); discriminate H.
  - vm_compute. reflexivity.
  - intros [msg H]. vm_compute in H. discriminate H.
Qed.


(** *** Rewriting the version line *)

Ltac norm_app :=
  repeat first [ rewrite !app_assoc | progress cbn [String.append] ].

Lemma join_app (l1 l2 : list string) : join (l1 ++ l2)%list = join l1 ++ join l2.
Proof.
  induction l1 as [|x l1 IH]; cbn; [done|].
  unfold join in *. cbn. by rewrite IH, app_assoc.
Qed.

(** Joining the lines split with their ends gives the text back. *)
Lemma join_splitlines_from (s : string) :
  (forall cur, join (splitlines_from true cur s) = cur ++ s) /\
  (forall c cur, join (splitlines_from true cur (String c s)) = cur ++ String c s).
Proof.
  assert (Hstep : forall c r,
    (forall cur, join (splitlines_from true cur r) = cur ++ r) ->
    (forall d r', r = String d r' ->
       forall cur, join (splitlines_from true cur r') = cur ++ r') ->
    forall cur, join (splitlines_from true cur (String c r)) = cur ++ String c r).
  { intros c r Hr Hr' cur. cbn [splitlines_from].
    destruct (Ascii.eqb_spec c CR) as [->|Hc].
    - destruct r as [|d r'].
      + unfold join. cbn. by rewrite !app_nil_r.
      + destruct (Ascii.eqb_spec d LF) as [->|Hd].
        * unfold join. cbn [foldr]. fold (join (splitlines_from true "" r')).
          rewrite (Hr' LF r' eq_refl). by rewrite app_assoc.
        * unfold join. cbn [foldr].
          fold (join (splitlines_from true "" (String d r'))).
          rewrite Hr. by rewrite app_assoc.
    - destruct (is_linebreak c).
      + unfold join. cbn [foldr]. fold (join (splitlines_from true "" r)).
        rewrite Hr. by rewrite app_assoc.
      + rewrite Hr. by rewrite app_assoc. }
  induction s as [|d r [IH1 IH2]].
  - split.
    + intros cur. cbn. destruct cur; [done|]. unfold join. cbn.
      by rewrite !app_nil_r.
    + intros c. apply Hstep; [|done].
      intros cur. cbn. destruct cur; [done|]. unfold join. cbn.
      by rewrite !app_nil_r.
  - split; [apply IH2|]. intros c. apply Hstep; [apply IH2|].
    intros d' r' E. inversion E; subst. apply IH1.
Qed.

Lemma join_splitlines (s : string) : join (splitlines true s) = s.
Proof. unfold splitlines. by rewrite (proj1 (join_splitlines_from s) ""). Qed.

Lemma rstrip_by_split P (s : string) :
  s = rstrip_by P s ++ drop_str (String.length (rstrip_by P s)) s.
Proof.
  induction s as [|c r IH]; cbn [rstrip_by]; [done|].
  destruct (is_empty (rstrip_by P r) && P c) eqn:E; [done|].
  cbn. by rewrite <- IH.
Qed.

Lemma version_line_inv (line prefix value suffix : string) :
  _VERSION_LINE_RE line = Some (prefix, value, suffix) ->
  line = prefix ++ String QUOTE (value ++ String QUOTE suffix) /\
  version_prefix_re prefix = true /\ contains QUOTE prefix = false /\
  contains QUOTE value = false /\ all_chars is_space suffix = true.
Proof.
  unfold _VERSION_LINE_RE.
  destruct (split_once QUOTE line) as [[p r]|] eqn:E1; [|done].
  destruct (version_prefix_re p) eqn:Ep; [|done].
  destruct (split_once QUOTE r) as [[v sfx]|] eqn:E2; [|done].
  destruct (all_chars is_space sfx) eqn:Es; [|done].
  intros H. inversion H; subst.
  apply split_once_inv in E1 as [-> Hp]. apply split_once_inv in E2 as [-> Hv].
  done.
Qed.

(** The loop rewrites one line, between its two quotes, and keeps the
    text around them. *)
Lemma update_scan_rewritten (new_version : string) (lines : list string)
    (todo : list string) :
  forall (in_project : bool) (before : list string) (lines' : list string),
  lines = (before ++ todo)%list ->
  update_scan new_version lines in_project (length before) todo = Rewritten lines' ->
  exists mid prefix value suffix ending after,
    todo = (mid ++ (prefix ++ String QUOTE (value ++ String QUOTE (suffix ++ ending)))%string
                :: after)%list /\
    lines' = (before ++ mid
              ++ (prefix ++ String QUOTE (new_version ++ String QUOTE (suffix ++ ending)))%string
                 :: after)%list /\
    value <> new_version /\
    version_prefix_re prefix = true /\
    contains QUOTE value = false /\
    all_chars is_space suffix = true.
Proof.
  induction todo as [|line todo IH]; intros in_project before lines' Hl;
    cbn [update_scan]; [done|].
  assert (Hnext : forall b,
    update_scan new_version lines b (S (length before)) todo = Rewritten lines' ->
    exists mid prefix value suffix ending after,
      (line :: todo)%list
      = (mid ++ (prefix ++ String QUOTE (value ++ String QUOTE (suffix ++ ending)))%string
             :: after)%list /\
      lines' = (before ++ mid
                ++ (prefix ++ String QUOTE (new_version ++ String QUOTE (suffix ++ ending)))%string
                   :: after)%list /\
      value <> new_version /\ version_prefix_re prefix = true /\
      contains QUOTE value = false /\ all_chars is_space suffix = true).
  { intros b Hb.
    destruct (IH b (before ++ [line])%list lines') as
      (mid & prefix & value & suffix & ending & after & E1 & E2 & Hrest).
    - by rewrite <- List.app_assoc.
    - by rewrite length_app, Nat.add_1_r.
    - exists (line :: mid)%list, prefix, value, suffix, ending, after.
      split; [by rewrite E1|]. split; [|done].
      by rewrite E2, <- List.app_assoc. }
  destruct (_SECTION_RE line) as [name|]; [apply Hnext|].
  destruct in_project; cbn [negb]; [|apply Hnext].
  destruct (_VERSION_LINE_RE (rstrip_chars [CR; LF] line))
    as [[[prefix value] suffix]|] eqn:Ev; [|apply Hnext].
  destruct (String.eqb_spec value new_version) as [|Hne]; [done|].
  intros H. inversion H; subst lines'. clear H.
  apply version_line_inv in Ev as (Eline & Hp & _ & Hv & Hs).
  set (ending := drop_str (String.length (rstrip_chars [CR; LF] line)) line) in *.
  assert (Hline : line = prefix ++ String QUOTE (value ++ String QUOTE (suffix ++ ending))).
  { rewrite (rstrip_by_split (fun c => bool_decide (c ∈ [CR; LF])) line) at 1.
    fold (rstrip_chars [CR; LF] line). fold ending. rewrite Eline.
    rewrite app_assoc. cbn. by rewrite app_assoc. }
  exists []%list, prefix, value, suffix, ending, todo.
  split; [by rewrite <- Hline|]. split; [|done].
  rewrite Hl. rewrite insert_app_r_alt by lia.
  by rewrite Nat.sub_diag.
Qed.

(** On the text that was read, a rewrite replaces the value between the
    quotes of one line and nothing else. *)
Lemma update_scan_text (new_version text : string) (lines' : list string) :
  update_scan new_version (splitlines true text) false 0 (splitlines true text)
  = Rewritten lines' ->
  exists a prefix value suffix b,
    text = a ++ prefix ++ String QUOTE (value ++ String QUOTE (suffix ++ b)) /\
    join lines' = a ++ prefix ++ String QUOTE (new_version ++ String QUOTE (suffix ++ b)) /\
    value <> new_version /\
    version_prefix_re prefix = true /\ contains QUOTE value = false /\
    all_chars is_space suffix = true.
Proof.
  intros H.
  destruct (update_scan_rewritten new_version (splitlines true text)
              (splitlines true text) false [] lines' eq_refl H)
    as (mid & prefix & value & suffix & ending & after & E1 & E2 & Hrest).
  exists (join mid), prefix, value, suffix, (ending ++ join after).
  split; [|split; [|exact Hrest]].
  - rewrite <- (join_splitlines text) at 1. rewrite E1, join_app.
    unfold join at 2. cbn [foldr]. fold (join after).
    by norm_app.
  - rewrite E2. cbn [app]. rewrite join_app.
    unfold join at 2. cbn [foldr]. fold (join after).
    by norm_app.
Qed.

(** The world is written to only when the version changes. *)
Lemma update_pyproject_version_world (path new_version : string) (w : World) :
  match update_pyproject_version path new_version w with
  | (Ok true, w') =>
      exists stored lines',
        files w !! path = Some stored /\
        update_scan new_version (splitlines true (universal_newlines stored))
          false 0 (splitlines true (universal_newlines stored)) = Rewritten lines' /\
        w' = set_files (<[path := translate_newlines (linesep w) (join lines')]>
                          (files w)) w
  | (Ok false, w') => w' = w
  | (Raise e, w') => w' = w /\ (e = FileNotFoundError \/ e = NOT_FOUND)
  end.
Proof.
  unfold update_pyproject_version, bind, read_text.
  destruct (files w !! path) as [stored|] eqn:Ef; [|auto].
  destruct (update_scan _ _ _ _ _) as [|lines'|] eqn:Es; cbn; eauto.
Qed.

Lemma translate_newlines_NL (s : string) : translate_newlines NL s = s.
Proof.
  induction s as [|c r IH]; cbn [translate_newlines]; [done|].
  destruct (Ascii.eqb_spec c LF) as [->|]; rewrite IH; done.
Qed.

Lemma universal_newlines_no_cr (s : string) :
  contains CR s = false -> universal_newlines s = s.
Proof.
  induction s as [|c r IH]; cbn [universal_newlines contains]; [done|].
  intros H. apply orb_false_iff in H as [Hc Hr].
  rewrite Ascii.eqb_sym in Hc. rewrite Hc, (IH Hr). done.
Qed.

(** X19: where reading and writing translate nothing (the host separates
    lines with LF and the file holds no CR), a change replaces the value
    between the quotes of one version line, keeps every other character
    of the file, and touches no other file. *)
Lemma update_pyproject_version_lf (path new_version stored : string) (w : World) :
  linesep w = NL -> files w !! path = Some stored -> contains CR stored = false ->
  (update_pyproject_version path new_version w).1 = Ok true ->
  exists a prefix value suffix b,
    stored = a ++ prefix ++ String QUOTE (value ++ String QUOTE (suffix ++ b)) /\
    files (update_pyproject_version path new_version w).2 !! path
    = Some (a ++ prefix ++ String QUOTE (new_version ++ String QUOTE (suffix ++ b))) /\
    (forall other, other <> path ->
       files (update_pyproject_version path new_version w).2 !! other
       = files w !! other) /\
    value <> new_version /\
    version_prefix_re prefix = true /\ contains QUOTE value = false /\
    all_chars is_space suffix = true.
Proof.
  intros Hsep Hf Hcr Hok.
  pose proof (update_pyproject_version_world path new_version w) as Hw.
  destruct (update_pyproject_version path new_version w) as [[[]|e] w'];
    try discriminate Hok.
  destruct Hw as (stored' & lines' & Hf' & Hscan & ->).
  assert (stored' = stored) by congruence. subst stored'.
  rewrite (universal_newlines_no_cr stored Hcr) in Hscan.
  destruct (update_scan_text new_version stored lines' Hscan)
    as (a & prefix & value & suffix & b & E1 & E2 & Hrest).
  exists a, prefix, value, suffix, b.
  split; [exact E1|]. cbn [snd files set_files].
  rewrite Hsep, translate_newlines_NL, E2.
  split; [by rewrite lookup_insert_eq|]. split; [|exact Hrest].
  intros other Hother. by rewrite lookup_insert_ne.
Qed.

(** C4, where the file is not kept: every line of the stored file ends in
    CR LF and the host separates lines with LF; the version changes and
    the file written ends every line in LF.  On a host that separates
    lines with CR LF, the file whose lines end in LF comes back with CR LF
    on every line.  Where the host's separator is the one of the file,
    only the value changes, and the look-alike line of the other section
    stays. *)
Theorem update_pyproject_version_line_ends :
  (let r := update_pyproject_version "pyproject.toml" "1.0.1"
              (host NL "pyproject.toml" (pyproject CRLF "1.0.0")) in
   r.1 = Ok true /\
   files r.2 !! "pyproject.toml" = Some (pyproject NL "1.0.1") /\
   pyproject NL "1.0.1" <> pyproject CRLF "1.0.1") /\
  (let r := update_pyproject_version "pyproject.toml" "1.0.1"
              (host CRLF "pyproject.toml" (pyproject NL "1.0.0")) in
   r.1 = Ok true /\
   files r.2 !! "pyproject.toml" = Some (pyproject CRLF "1.0.1")) /\
  (let r := update_pyproject_version "pyproject.toml" "1.0.1"
              (host NL "pyproject.toml" (pyproject NL "1.0.0")) in
   r.1 = Ok true /\
   files r.2 !! "pyproject.toml" = Some (pyproject NL "1.0.1")) /\
  (let w := host NL "pyproject.toml" (pyproject CRLF "1.0.0") in
   update_pyproject_version "pyproject.toml" "1.0.0" w = (Ok false, w)) /\
  (let w := host NL "pyproject.toml" ("[tool.other]" ++ NL ++ "version = "
                                        ++ quoted "9.9.9" ++ NL) in
   update_pyproject_version "pyproject.toml" "1.0.1" w = (Raise NOT_FOUND, w)).
Proof.
  repeat apply conj; try (vm_compute; reflexivity).
  vm_compute. discriminate.
Qed.

End CiVersionFacts.

(** ** More on the map detector *)

Module MapDetectorMore.
Import MapDetector MapDetectorFacts.

(** *** POI keys and prefixes *)

Lemma in_POI_ICONS_spec (k : Z) :
  in_POI_ICONS k = true <->
  k ∈ [30; 32; 34; 37; 38; 40; 41; 510; 511; 500; 501; 524; 525; 535; 536].
Proof.
  unfold in_POI_ICONS, POI_ICON_SCALE. rewrite bool_decide_eq_true.
  rewrite <- not_eq_None_Some, <- not_elem_of_list_to_map. cbn [fmap list_fmap fst].
  split; [|tauto]. intros H.
  destruct (decide (k ∈ [30; 32; 34; 37; 38; 40; 41; 510; 511; 500; 501;
                         524; 525; 535; 536])); tauto.
Qed.

Lemma in_POI_ICONS_cases (k : Z) :
  in_POI_ICONS k = true <->
  k = 30 \/ k = 32 \/ k = 34 \/ k = 37 \/ k = 38 \/ k = 40 \/ k = 41 \/
  k = 510 \/ k = 511 \/ k = 500 \/ k = 501 \/ k = 524 \/ k = 525 \/
  k = 535 \/ k = 536.
Proof.
  rewrite in_POI_ICONS_spec, !elem_of_cons, elem_of_nil. tauto.
Qed.

Lemma decimal_prefix_step (p x : Z) :
  0 <= x -> x <> p -> (decimal_prefix p x <-> decimal_prefix p (x / 10)).
Proof.
  intros Hx Hne. unfold decimal_prefix. split.
  - intros (i & Hi & E). destruct (decide (i = 0)) as [->|Hi0].
    + rewrite Z.pow_0_r, Z.div_1_r in E. done.
    + exists (i - 1). split; [lia|].
      rewrite Z.div_div by (try apply Z.pow_pos_nonneg; lia).
      replace (10 * 10 ^ (i - 1)) with (10 ^ i); [done|].
      rewrite <- Z.pow_succ_r by lia. f_equal. lia.
  - intros (i & Hi & E). exists (i + 1). split; [lia|].
    rewrite Z.pow_add_r, Z.pow_1_r by lia.
    rewrite Z.mul_comm, <- Z.div_div by (try apply Z.pow_pos_nonneg; lia). done.
Qed.

Lemma decimal_prefix_le (p x : Z) : 0 <= x -> decimal_prefix p x -> 0 <= p <= x.
Proof.
  intros Hx (i & Hi & <-).
  assert (0 < 10 ^ i) by (apply Z.pow_pos_nonneg; lia).
  split; [apply Z.div_pos; lia|].
  apply Z.div_le_upper_bound; [lia|]. nia.
Qed.

(** With enough rounds for the size of the code, the loop ends, and it
    returns True exactly on a decimal prefix. *)
Lemma match_prefix_loop_spec (fuel : nat) (x p : Z) :
  0 <= x -> p <> 0 -> x < 2 ^ (Z.of_nat fuel - 1) ->
  exists b, match_prefix_loop fuel x p = Some b /\
            (b = true <-> decimal_prefix p x).
Proof.
  revert x. induction fuel as [|fuel IH]; intros x Hx Hp Hfuel.
  { rewrite Z.pow_neg_r in Hfuel by lia. lia. }
  replace (Z.of_nat (S fuel) - 1) with (Z.of_nat fuel) in Hfuel by lia.
  cbn [match_prefix_loop].
  destruct (Z.eqb_spec x 0) as [->|Hx0].
  { exists false. split; [done|]. split; [done|].
    intros H. apply decimal_prefix_le in H; lia. }
  destruct (Z.ltb_spec x p) as [Hlt|Hge].
  { exists false. split; [done|]. split; [done|].
    intros H. apply decimal_prefix_le in H; lia. }
  destruct (Z.eqb_spec x p) as [->|Hne].
  { exists true. split; [done|]. split; [|done]. intros _.
    exists 0. split; [lia|]. by rewrite Z.pow_0_r, Z.div_1_r. }
  destruct (IH (x / 10)) as (b & Hb & Hspec).
  - apply Z.div_pos; lia.
  - done.
  - destruct fuel as [|fuel]; [cbn in Hfuel; lia|].
    replace (Z.of_nat (S fuel)) with (Z.succ (Z.of_nat (S fuel) - 1)) in Hfuel
      by lia.
    rewrite Z.pow_succ_r in Hfuel by lia.
    Z.div_mod_to_equations. lia.
  - exists b. split; [done|]. by rewrite Hspec, <- decimal_prefix_step.
Qed.

(** X1: for a code that is not negative, [match_prefix] returns as soon
    as every loop is given enough rounds for the size of the code (the
    code is below 2 to the power of the rounds less one), and it returns
    True exactly when some prefix of the list is 0 and the code is 0, or
    is not 0 and is a decimal prefix of the code. *)
Theorem match_prefix_decimal (fuel : nat) (ctype : Z) (prefix : list Z) :
  0 <= ctype -> ctype < 2 ^ (Z.of_nat fuel - 1) ->
  exists b, match_prefix fuel ctype prefix = Some b /\
    (b = true <->
     exists p, p ∈ prefix /\
       ((p = 0 /\ ctype = 0) \/ (p <> 0 /\ decimal_prefix p ctype))).
Proof.
  intros Hc Hfuel. induction prefix as [|p prefix (b & Hb & IH)].
  - exists false. split; [done|]. split; [done|].
    intros (p & Hp & _). by apply elem_of_nil in Hp.
  - cbn [match_prefix].
    assert (Hrest : forall b', (b' = true <->
              exists q, q ∈ prefix /\
                ((q = 0 /\ ctype = 0) \/ (q <> 0 /\ decimal_prefix q ctype))) ->
            ~ ((p = 0 /\ ctype = 0) \/ (p <> 0 /\ decimal_prefix p ctype)) ->
            (b' = true <->
              exists q, q ∈ p :: prefix /\
                ((q = 0 /\ ctype = 0) \/ (q <> 0 /\ decimal_prefix q ctype)))).
    { intros b' Hb' Hno. rewrite Hb'. split.
      - intros (q & Hq & H). exists q. split; [by right|done].
      - intros (q & Hq & H). apply elem_of_cons in Hq as [->|Hq]; [done|].
        by exists q. }
    destruct (Z.eqb_spec p 0) as [->|Hp].
    + destruct (Z.eqb_spec ctype 0) as [->|Hc0].
      * exists true. split; [done|]. split; [|done]. intros _.
        exists 0. split; [by left|]. by left.
      * exists b. split; [done|]. apply Hrest; [done|]. lia.
    + destruct (match_prefix_loop_spec fuel ctype p Hc Hp Hfuel)
        as (b1 & -> & Hb1).
      destruct b1.
      * exists true. split; [done|]. split; [|done]. intros _.
        exists p. split; [by left|]. right. split; [done|]. by apply Hb1.
      * exists b. split; [done|]. apply Hrest; [done|].
        intros [[? _]|[_ H]]; [done|]. apply Hb1 in H. done.
Qed.

Lemma match_prefix_decimal_witness :
  exists b, match_prefix 20 34001 [38; 34] = Some b /\
    (b = true <->
     exists p, p ∈ [38; 34] /\
       ((p = 0 /\ 34001 = 0) \/ (p <> 0 /\ decimal_prefix p 34001))).
Proof.
  apply (match_prefix_decimal 20 34001 [38; 34]); [lia|reflexivity].
Defined.

(** X2: on a negative code and a prefix below it, the loop of
    [match_prefix] never ends: the code stays negative and above the
    prefix when its last digit is dropped. *)
Theorem match_prefix_negative_runs_on (fuel : nat) (ctype p : Z) (rest : list Z) :
  ctype < 0 -> p < ctype ->
  match_prefix fuel ctype (p :: rest) = None.
Proof.
  intros Hneg Hp.
  assert (Hloop : forall x, x < 0 -> p < x -> match_prefix_loop fuel x p = None).
  { induction fuel as [|fuel IH]; intros x Hx Hpx; [done|].
    cbn [match_prefix_loop].
    destruct (Z.eqb_spec x 0); [lia|].
    destruct (Z.ltb_spec x p); [lia|].
    destruct (Z.eqb_spec x p); [lia|].
    apply IH; Z.div_mod_to_equations; lia. }
  cbn [match_prefix]. destruct (Z.eqb_spec p 0); [lia|].
  by rewrite Hloop.
Qed.

Lemma match_prefix_negative_runs_on_witness :
  match_prefix 100 (-1) [-5; 34] = None.
Proof. apply (match_prefix_negative_runs_on 100 (-1) (-5) [34]); lia. Defined.

(** X3: the key [get_poi_key] returns is a key of [POI_ICONS] and a
    decimal prefix of the code: for a code that is not negative,
    [match_prefix] of the code and its key returns True. *)
Theorem get_poi_key_is_prefix (ctype k : Z) (fuel : nat) :
  get_poi_key ctype = Some k ->
  in_POI_ICONS k = true /\
  (k = ctype / 100 \/ k = ctype / 1000) /\
  (0 <= ctype -> ctype < 2 ^ (Z.of_nat fuel - 1) ->
   match_prefix_int fuel ctype k = Some true).
Proof.
  unfold get_poi_key. intros H.
  assert (Hk : in_POI_ICONS k = true /\ (k = ctype / 100 \/ k = ctype / 1000)).
  { destruct (in_POI_ICONS (ctype / 100)) eqn:E1.
    - inversion H; subst. auto.
    - destruct (in_POI_ICONS (ctype / 1000)) eqn:E2; [|done].
      inversion H; subst. auto. }
  destruct Hk as [Hin Hdiv]. split; [done|]. split; [done|].
  intros Hc Hfuel. unfold match_prefix_int. cbn [match_prefix].
  assert (Hk0 : k <> 0) by (apply in_POI_ICONS_cases in Hin; lia).
  destruct (Z.eqb_spec k 0); [done|].
  destruct (match_prefix_loop_spec fuel ctype k Hc Hk0 Hfuel) as (b & -> & Hb).
  assert (b = true) as ->; [|done].
  apply Hb. destruct Hdiv as [->| ->]; [exists 2|exists 3]; split; try lia; done.
Qed.

Lemma get_poi_key_is_prefix_witness :
  in_POI_ICONS 30 = true /\
  (30 = 30301 / 100 \/ 30 = 30301 / 1000) /\
  (0 <= 30301 -> 30301 < 2 ^ (Z.of_nat 20 - 1) ->
   match_prefix_int 20 30301 30 = Some true).
Proof. apply (get_poi_key_is_prefix 30301 30 20). reflexivity. Defined.

(** *** Base icons *)

Lemma has_same_base_icon_true (c1 c2 : Z) :
  has_same_base_icon c1 c2 = true <->
  (((c1 / 100) / 100 = 5 \/ (c2 / 100) / 100 = 5) /\ c1 / 100 = c2 / 100) \/
  (~ ((c1 / 100) / 100 = 5 \/ (c2 / 100) / 100 = 5) /\
   (c1 / 100) / 10 = (c2 / 100) / 10).
Proof.
  unfold has_same_base_icon.
  rewrite !(Z.div_div _ 100 100), !(Z.div_div _ 100 10) by lia.
  change (100 * 100) with 10000. change (100 * 10) with 1000.
  destruct (Z.eqb_spec (c1 / 10000) 5), (Z.eqb_spec (c2 / 10000) 5);
    cbn [orb]; rewrite Z.eqb_eq; tauto.
Qed.

(** X4: [has_same_base_icon] is an equivalence: every code has the base
    icon of itself, the order of the two codes does not matter, and two
    codes that share the base icon of a third share theirs. *)
Theorem has_same_base_icon_equivalence (a b c : Z) :
  has_same_base_icon a a = true /\
  has_same_base_icon a b = has_same_base_icon b a /\
  (has_same_base_icon a b = true -> has_same_base_icon b c = true ->
   has_same_base_icon a c = true).
Proof.
  split; [|split].
  - apply has_same_base_icon_true. lia.
  - destruct (has_same_base_icon b a) eqn:E.
    + apply has_same_base_icon_true. apply has_same_base_icon_true in E. lia.
    + destruct (has_same_base_icon a b) eqn:E'; [|done].
      apply has_same_base_icon_true in E'.
      assert (has_same_base_icon b a = true)
        by (apply has_same_base_icon_true; lia). congruence.
  - rewrite !has_same_base_icon_true.
    generalize (a / 100), (b / 100), (c / 100). intros A B C.
    intros H1 H2. Z.div_mod_to_equations. lia.
Qed.

Lemma has_same_base_icon_equivalence_witness :
  has_same_base_icon 34001 34103 = true.
Proof.
  apply (proj2 (proj2 (has_same_base_icon_equivalence 34001 34002 34103)));
    reflexivity.
Defined.


Lemma in_POI_ICONS_range (k : Z) :
  in_POI_ICONS k = true ->
  (30 <= k <= 41) \/ (500 <= k <= 536).
Proof. intros H. apply in_POI_ICONS_cases in H. lia. Qed.

Lemma get_poi_key_by_hundreds (c : Z) :
  get_poi_key c =
  if in_POI_ICONS (c / 100) then Some (c / 100)
  else if in_POI_ICONS ((c / 100) / 10) then Some ((c / 100) / 10) else None.
Proof.
  unfold get_poi_key. rewrite (Z.div_div c 100 10) by lia. done.
Qed.

(** X5: on five-digit codes the scoring and the icon catalogue agree:
    two codes with the same base icon have the same POI key, and two
    codes with the same POI key have the same base icon. *)
Theorem has_same_base_icon_poi_key (c1 c2 : Z) :
  10000 <= c1 < 100000 -> 10000 <= c2 < 100000 ->
  (has_same_base_icon c1 c2 = true -> get_poi_key c1 = get_poi_key c2) /\
  (forall k, get_poi_key c1 = Some k -> get_poi_key c2 = Some k ->
             has_same_base_icon c1 c2 = true).
Proof.
  intros H1 H2. rewrite !get_poi_key_by_hundreds.
  pose proof (has_same_base_icon_true c1 c2) as Hsame.
  assert (HA : 100 <= c1 / 100 < 1000) by (Z.div_mod_to_equations; lia).
  assert (HB : 100 <= c2 / 100 < 1000) by (Z.div_mod_to_equations; lia).
  generalize dependent (c1 / 100). generalize dependent (c2 / 100).
  intros B HB A Hsame HA. clear H1 H2.
  split.
  - intros H. apply Hsame in H. destruct H as [[_ ->]|[Hn E]]; [done|].
    destruct (in_POI_ICONS A) eqn:EA.
    { apply in_POI_ICONS_range in EA. exfalso. Z.div_mod_to_equations. lia. }
    destruct (in_POI_ICONS B) eqn:EB.
    { apply in_POI_ICONS_range in EB. exfalso. Z.div_mod_to_equations. lia. }
    by rewrite E.
  - intros k HkA HkB.
    destruct (in_POI_ICONS A) eqn:EA; [apply in_POI_ICONS_range in EA|clear EA];
      (destruct (in_POI_ICONS B) eqn:EB;
         [apply in_POI_ICONS_range in EB|clear EB]);
      try (destruct (in_POI_ICONS (A / 10)) eqn:EA';
             [apply in_POI_ICONS_range in EA'|discriminate]);
      try (destruct (in_POI_ICONS (B / 10)) eqn:EB';
             [apply in_POI_ICONS_range in EB'|discriminate]);
      inversion HkA; inversion HkB; subst;
      apply Hsame; Z.div_mod_to_equations; lia.
Qed.

Lemma has_same_base_icon_poi_key_witness :
  get_poi_key 52400 = get_poi_key 52420.
Proof.
  apply (proj1 (has_same_base_icon_poi_key 52400 52420 ltac:(lia) ltac:(lia))).
  reflexivity.
Defined.

(** *** Scores *)

Lemma position_contribution_values (ctype expect_ctype : Z) :
  position_contribution ctype expect_ctype = (10, 0) \/
  position_contribution ctype expect_ctype = (1, 3) \/
  position_contribution ctype expect_ctype = (0, 10).
Proof.
  destruct (position_contribution_table ctype expect_ctype) as (H1 & H2 & H3 & H4).
  destruct (has_same_base_icon ctype expect_ctype);
    destruct (decide (CTYPE_SUBICON_MAP !! ctype
                      = CTYPE_SUBICON_MAP !! expect_ctype)); auto.
Qed.

(** X6: over [n] sampled positions the score and the error of a pattern
    lie between 0 and [10 * n], their sum is at most [10 * n], and the
    error is 0 exactly when the score is [10 * n], which is exactly when
    every sampled position agrees with the pattern in base icon and
    sub-icon. *)
Theorem score_pattern_bounds (imgs : gset Z) (pattern : MapPattern)
    (poi_result : list (Position * Z)) :
  let n := Z.of_nat (length poi_result) in
  let score := (score_pattern imgs poi_result pattern).1 in
  let error := (score_pattern imgs poi_result pattern).2 in
  0 <= score <= 10 * n /\ 0 <= error <= 10 * n /\ score + error <= 10 * n /\
  (error = 0 <-> score = 10 * n) /\
  (error = 0 <->
   Forall (fun item => position_contribution item.2
                         (expected_ctype imgs pattern item.1) = (10, 0))
          poi_result).
Proof.
  cbv zeta. rewrite score_pattern_sum. cbn [fst snd].
  induction poi_result as [|[pos ctype] l IH]; cbn [map foldr length fst snd].
  - split; [lia|]. split; [lia|]. split; [lia|]. split; [lia|].
    split; [by constructor|done].
  - destruct IH as (Hs & He & Hsum & Hz & Hall).
    rewrite Forall_cons. cbn [fst snd].
    destruct (position_contribution_values ctype (expected_ctype imgs pattern pos))
      as [E|[E|E]]; rewrite E; cbn [fst snd];
      (split; [lia|]); (split; [lia|]); (split; [lia|]);
      (split; [lia|]).
    + rewrite <- Hall. split; [intros; split; [done|lia] | intros [_ ?]; lia].
    + split; [lia | intros [? _]; done].
    + split; [lia | intros [? _]; done].
Qed.

(** *** What the matcher returns *)

Lemma slice_to_prefix {A} (l : list A) (k : option Z) :
  exists rest, (slice_to l k ++ rest)%list = l.
Proof.
  unfold slice_to. destruct k as [k|]; [|exists []; by rewrite app_nil_r].
  destruct (0 <=? k); eexists; apply take_drop.
Qed.

(** X7: whatever [topk] is, every result of the matcher carries a pattern
    of the catalogue that has the given special terrain and, when the
    nightlord was recognised, that nightlord; it carries the nightlord as
    recognised and the score and error of that pattern. *)
Theorem match_map_pattern_results (patterns : list MapPattern) (imgs : gset Z)
    (earth_shifting : Z) (nightlord : option Z)
    (poi_result : list (Position * Z)) (topk : option Z)
    (r : MapPatternMatchResult) :
  r ∈ _match_map_pattern patterns imgs earth_shifting nightlord poi_result topk ->
  r_pattern r ∈ patterns /\
  p_earth_shifting (r_pattern r) = earth_shifting /\
  (forall nl, nightlord = Some nl -> p_nightlord (r_pattern r) = nl) /\
  r_nightlord r = nightlord /\
  (r_score r, r_error r) = score_pattern imgs poi_result (r_pattern r).
Proof.
  unfold _match_map_pattern, rank_topk. intros Hr.
  destruct (slice_to_prefix
              (sorted sort_key
                 (candidates patterns imgs earth_shifting nightlord poi_result))
              topk) as [rest Hrest].
  assert (Hin : r ∈ candidates patterns imgs earth_shifting nightlord poi_result).
  { rewrite <- (sorted_perm (candidates _ _ _ _ _)), <- Hrest.
    apply elem_of_app. by left. }
  unfold candidates in Hin. apply list_elem_of_omap in Hin as (pattern & Hp & Hsome).
  destruct (Z.eqb_spec (p_earth_shifting pattern) earth_shifting) as [Hes|];
    cbn [negb] in Hsome; [|done].
  destruct (score_pattern imgs poi_result pattern) as [score error] eqn:Esc.
  destruct nightlord as [nl|].
  - destruct (Z.eqb_spec (p_nightlord pattern) nl) as [Hnl|];
      cbn [negb] in Hsome; [|done].
    inversion Hsome; subst r.
    cbn [r_pattern r_nightlord r_score r_error].
    split; [exact Hp|]. split; [exact Hes|]. split; [|by rewrite Esc].
    intros nl' E. congruence.
  - inversion Hsome; subst r.
    cbn [r_pattern r_nightlord r_score r_error].
    split; [exact Hp|]. split; [exact Hes|]. split; [|by rewrite Esc].
    intros nl' E. discriminate E.
Qed.

Lemma match_map_pattern_results_witness :
  r_pattern (candidate 0 0) ∈
    [{| p_id := 0; p_nightlord := 0; p_earth_shifting := 0;
        pos_constructions := ∅ |}].
Proof.
  apply (match_map_pattern_results
           [{| p_id := 0; p_nightlord := 0; p_earth_shifting := 0;
               pos_constructions := ∅ |}] ∅ 0 None [] None (candidate 0 0)).
  vm_compute. by left.
Defined.

(** X8: without a bound ([topk] is None, the default of the detection
    parameters) the matcher returns the whole ranking, a sorted
    permutation of the candidates; with a negative bound [k] it returns
    the ranking without its last [-k] entries. *)
Theorem rank_topk_unbounded (results : list MapPatternMatchResult) (k : Z) :
  Permutation (rank_topk results None) results /\
  StronglySorted ranks_before (rank_topk results None) /\
  (k < 0 ->
   exists dropped,
     (rank_topk results (Some k) ++ dropped)%list = rank_topk results None /\
     length dropped = Nat.min (Z.to_nat (- k)) (length results)).
Proof.
  unfold rank_topk. cbn [slice_to].
  split; [apply sorted_perm|]. split; [apply sorted_sorted|].
  intros Hk. destruct (Z.leb_spec 0 k); [lia|].
  exists (drop (Z.to_nat (Z.of_nat (length (sorted sort_key results)) + k))
               (sorted sort_key results)).
  split; [apply take_drop|].
  rewrite length_drop.
  rewrite (Permutation_length (sorted_perm results)). lia.
Qed.

Lemma rank_topk_unbounded_witness :
  exists dropped,
    (rank_topk [candidate 2 3; candidate 9 3; candidate 100 5] (Some (-1))
     ++ dropped)%list
    = rank_topk [candidate 2 3; candidate 9 3; candidate 100 5] None /\
    length dropped = Nat.min (Z.to_nat (- -1)) 3.
Proof.
  apply (rank_topk_unbounded [candidate 2 3; candidate 9 3; candidate 100 5] (-1)).
  lia.
Defined.

(** X9: the ranking is stable: candidates with the same error and the
    same score come out in the order in which they went in, which is the
    order of the patterns in the catalogue. *)
Theorem rank_topk_ties_keep_order (results : list MapPatternMatchResult)
    (error score : Z) :
  filter (fun r => r_error r = error /\ r_score r = score) (rank_topk results None)
  = filter (fun r => r_error r = error /\ r_score r = score) results.
Proof.
  unfold rank_topk. cbn [slice_to].
  pose proof (sorted_stable (error, - score) results) as H.
  assert (E : forall l : list MapPatternMatchResult,
            filter (fun r => r_error r = error /\ r_score r = score) l
            = filter (fun y => sort_key y = (error, - score)) l).
  { intros l. apply list_filter_iff. intros r. unfold sort_key. split.
    - intros [-> ->]. done.
    - intros E. inversion E. split; [done|lia]. }
  by rewrite !E.
Qed.

End MapDetectorMore.

(** ** More on the screen helpers *)

Module UiUtilsMore.
Import PyFloat UiUtils.

Lemma get_qt_screen_ignores_size (screens : list Screen) (x y w h w' h' : option Z) :
  get_qt_screen_by_mss_region screens (x, y, w, h)
  = get_qt_screen_by_mss_region screens (x, y, w', h').
Proof.
  induction screens as [|screen screens IH]; [done|].
  cbn [get_qt_screen_by_mss_region]. unfold rbind.
  destruct (int_mul _ _); [|done]. destruct (int_mul _ _); [|done].
  destruct (py_le _ x) as [[|]|]; [| |done].
  - destruct (py_le x _) as [[|]|]; [| |done].
    + destruct (py_le _ y) as [[|]|]; [| |done].
      * destruct (py_le y _) as [[|]|]; done.
      * done.
    + done.
  - done.
Qed.

(** X10: the screen [get_qt_screen_by_mss_region] returns is one of the
    screens of the application and holds the corner (x, y) of the region,
    both edges included, in the box that starts at the origin of the
    screen and has its width and height multiplied by the pixel ratio and
    truncated; the width and the height of the region play no part. *)
Theorem get_qt_screen_by_mss_region_found (screens : list Screen)
    (x y w h : option Z) (sc : Screen) :
  get_qt_screen_by_mss_region screens (x, y, w, h) = Ok sc ->
  sc ∈ screens /\
  (forall w' h', get_qt_screen_by_mss_region screens (x, y, w', h') = Ok sc) /\
  exists x0 y0 mss_sw mss_sh,
    x = Some x0 /\ y = Some y0 /\
    int_mul (geometry_width sc) (devicePixelRatio sc) = Ok mss_sw /\
    int_mul (geometry_height sc) (devicePixelRatio sc) = Ok mss_sh /\
    geometry_x sc <= x0 <= geometry_x sc + mss_sw /\
    geometry_y sc <= y0 <= geometry_y sc + mss_sh.
Proof.
  intros H. split; [|split].
  - induction screens as [|screen screens IH]; [done|].
    cbn [get_qt_screen_by_mss_region] in H. unfold rbind in H.
    destruct (int_mul _ _); [|done]. destruct (int_mul _ _); [|done].
    destruct (py_le _ x) as [[|]|]; [| |done].
    + destruct (py_le x _) as [[|]|]; [| |done].
      * destruct (py_le _ y) as [[|]|]; [| |done].
        -- destruct (py_le y _) as [[|]|]; [| |done].
           ++ inversion H; subst. by left.
           ++ right. by apply IH.
        -- right. by apply IH.
      * right. by apply IH.
    + right. by apply IH.
  - intros w' h'. by rewrite (get_qt_screen_ignores_size screens x y w' h' w h).
  - induction screens as [|screen screens IH]; [done|].
    cbn [get_qt_screen_by_mss_region] in H. unfold rbind in H.
    destruct (int_mul (geometry_width screen) _) as [mss_sw|] eqn:Ew; [|done].
    destruct (int_mul (geometry_height screen) _) as [mss_sh|] eqn:Eh; [|done].
    destruct x as [x0|]; [|done]. cbn [py_le] in H.
    destruct (Z.leb_spec (geometry_x screen) x0); [|by apply IH].
    destruct (Z.leb_spec x0 (geometry_x screen + mss_sw)); [|by apply IH].
    destruct y as [y0|]; [|done]. cbn [py_le] in H.
    destruct (Z.leb_spec (geometry_y screen) y0); [|by apply IH].
    destruct (Z.leb_spec y0 (geometry_y screen + mss_sh)); [|by apply IH].
    inversion H; subst sc.
    exists x0, y0, mss_sw, mss_sh. repeat split; done.
Qed.

Lemma get_qt_screen_by_mss_region_found_witness :
  {| geometry_x := 1920; geometry_y := 0; geometry_width := 1280;
     geometry_height := 720; devicePixelRatio := 1.5%float |}
  ∈ [ {| geometry_x := 0; geometry_y := 0; geometry_width := 1920;
         geometry_height := 1080; devicePixelRatio := 1%float |};
      {| geometry_x := 1920; geometry_y := 0; geometry_width := 1280;
         geometry_height := 720; devicePixelRatio := 1.5%float |} ].
Proof.
  apply (get_qt_screen_by_mss_region_found
           [ {| geometry_x := 0; geometry_y := 0; geometry_width := 1920;
                geometry_height := 1080; devicePixelRatio := 1%float |};
             {| geometry_x := 1920; geometry_y := 0; geometry_width := 1280;
                geometry_height := 720; devicePixelRatio := 1.5%float |} ]
           (Some 3000) (Some 500) (Some 100) (Some 100)).
  vm_compute. reflexivity.
Defined.

Lemma of_int_raises (z : Z) (e : exn) : of_int z = Raise e -> e = OverflowError.
Proof. unfold of_int. destruct (PrimFloat.is_infinity _); congruence. Qed.

(** X11: with a scale that is zero (0.0 or -0.0),
    [process_region_to_adapt_scale] never returns: it raises
    ZeroDivisionError, or OverflowError when the width is too large for a
    float. *)
Theorem process_region_to_adapt_scale_zero (region : Z * Z * Z * Z)
    (scale : float) :
  PrimFloat.eqb scale 0%float = true ->
  exists e, process_region_to_adapt_scale region scale = Raise e /\
            (e = ZeroDivisionError \/ e = OverflowError).
Proof.
  intros Hz. destruct region as [[[x y] w] h].
  unfold process_region_to_adapt_scale, int_div, truediv, rbind at 1 2 3.
  rewrite Hz. destruct (of_int w) as [f|e] eqn:E.
  - exists ZeroDivisionError. auto.
  - exists e. split; [done|]. right. by apply of_int_raises in E.
Qed.

Lemma process_region_to_adapt_scale_zero_witness :
  exists e, process_region_to_adapt_scale (0, 0, 1920, 1080) (-0)%float = Raise e /\
            (e = ZeroDivisionError \/ e = OverflowError).
Proof.
  apply (process_region_to_adapt_scale_zero (0, 0, 1920, 1080) (-0)%float).
  reflexivity.
Defined.

End UiUtilsMore.

(** ** More on the map overlay *)

Module MapOverlayMore.
Import PyFloat UiUtils MapOverlay MapOverlayFacts.

Section More.
Context {Image : Type}.
Abbreviation Widget := (MapOverlayWidget Image).
Abbreviation M := (@MapOverlay.M Image).

(** *** The timer *)

(** X12: the opacity and visibility block of a timer tick (lines 320 to
    338) raises nothing and changes no attribute but the opacity and the
    visibility of the window; afterwards the window is visible exactly
    when the visible flag is set, the opacity computed in this tick is
    above 0.01 and, if the overlay follows the game window, the game, the
    menu or the settings are in front. *)
Theorem timerEvent_visibility (stored : float -> float) (s : Widget) :
  let real_opacity := (ease_opacity (target_opacity s) (windowOpacity s)).1 in
  let s' := (timerEvent stored s).2 in
  (timerEvent stored s).1 = Ok tt /\
  s' = set_isVisible (isVisible s') (set_windowOpacity (windowOpacity s') s) /\
  (isVisible s' = true <->
   visible s = true /\ PrimFloat.ltb 0.01%float real_opacity = true /\
   (only_show_when_game_foreground s = true ->
    is_game_foreground s = true \/ is_menu_opened s = true
    \/ is_setting_opened s = true)).
Proof.
  cbv zeta. unfold timerEvent, bind, get, when, modify, ret.
  destruct (ease_opacity (target_opacity s) (windowOpacity s)) as [r ch].
  cbn [fst]. destruct s as [g o iv mi oi mt mm ob ci cl cb t v f1 f2 f3 f4].
  cbn [visible only_show_when_game_foreground is_game_foreground
       is_menu_opened is_setting_opened target_opacity windowOpacity].
  destruct (PrimFloat.ltb 0.01 r);
    destruct ch, v, f1, f2, f3, f4, iv; cbn;
    (split; [reflexivity|]); (split; [reflexivity|]);
    intuition discriminate.
Qed.

(** *** Crystal layouts *)

Lemma update_crystal_layout_at (s : Widget) (i : Z) (img : Image) :
  crystal_layout_idx s = Some i -> py_index (crystal_layout_imgs s) i = Ok img ->
  update_crystal_layout s = (Ok tt, set_crystal_layout_image_box (Some img) s).
Proof.
  intros Hi Himg. unfold update_crystal_layout, bind, get, lift, modify.
  by rewrite Hi, Himg.
Qed.

Lemma crystal_step_inv (s : Widget) (j : Z) (img : Image) :
  0 <= j < Z.of_nat (length (crystal_layout_imgs s)) ->
  crystal_inv (set_crystal_layout_image_box (Some img)
                 (set_crystal_layout_idx (Some j) s)).
Proof. intros Hj i Hi. cbn in *. by inversion Hi; subst. Qed.

Lemma next_crystal_layout_spec (s : Widget) (i : Z) :
  crystal_inv s -> visible s = true -> crystal_layout_idx s = Some i ->
  let j := if i =? Z.of_nat (length (crystal_layout_imgs s)) - 1 then 0 else i + 1 in
  exists img,
    py_index (crystal_layout_imgs s) j = Ok img /\
    next_crystal_layout s
    = (Ok tt, set_crystal_layout_image_box (Some img)
                (set_crystal_layout_idx (Some j) s)).
Proof.
  intros Hinv Hv Hi. cbv zeta. specialize (Hinv i Hi).
  unfold next_crystal_layout, bind at 1, get at 1. rewrite Hv.
  unfold bind at 1, get at 1. rewrite Hi.
  unfold add_crystal_layout_idx, bind at 1, bind at 1, modify at 1, ret at 1.
  unfold bind at 1, get at 1.
  cbn [crystal_layout_imgs set_crystal_layout_idx].
  unfold bind at 1, when.
  destruct (Z.eqb_spec i (Z.of_nat (length (crystal_layout_imgs s)) - 1)) as [E|E].
  - replace (Z.of_nat (length (crystal_layout_imgs s)) <=? i + 1) with true
      by (symmetry; apply Z.leb_le; lia).
    unfold modify at 1.
    destruct (py_index_in_range (crystal_layout_imgs s) 0) as [img Himg]; [lia|].
    exists img. split; [done|].
    by rewrite (update_crystal_layout_at _ 0 img).
  - replace (Z.of_nat (length (crystal_layout_imgs s)) <=? i + 1) with false
      by (symmetry; apply Z.leb_gt; lia).
    unfold ret at 1.
    destruct (py_index_in_range (crystal_layout_imgs s) (i + 1)) as [img Himg];
      [lia|].
    exists img. split; [done|].
    by rewrite (update_crystal_layout_at _ (i + 1) img).
Qed.

Lemma last_crystal_layout_spec (s : Widget) (i : Z) :
  crystal_inv s -> visible s = true -> crystal_layout_idx s = Some i ->
  let j := if i =? 0 then Z.of_nat (length (crystal_layout_imgs s)) - 1 else i - 1 in
  exists img,
    py_index (crystal_layout_imgs s) j = Ok img /\
    last_crystal_layout s
    = (Ok tt, set_crystal_layout_image_box (Some img)
                (set_crystal_layout_idx (Some j) s)).
Proof.
  intros Hinv Hv Hi. cbv zeta. specialize (Hinv i Hi).
  unfold last_crystal_layout, bind at 1, get at 1. rewrite Hv.
  unfold bind at 1, get at 1. rewrite Hi.
  unfold add_crystal_layout_idx, bind at 1, bind at 1, modify at 1, ret at 1.
  unfold bind at 1, get at 1.
  cbn [crystal_layout_imgs set_crystal_layout_idx].
  unfold bind at 1, when.
  destruct (Z.eqb_spec i 0) as [E|E].
  - subst i. replace (0 + -1 <? 0) with true by done.
    unfold modify at 1.
    destruct (py_index_in_range (crystal_layout_imgs s)
                (Z.of_nat (length (crystal_layout_imgs s)) - 1)) as [img Himg];
      [lia|].
    exists img. split; [done|].
    by rewrite (update_crystal_layout_at _
                  (Z.of_nat (length (crystal_layout_imgs s)) - 1) img).
  - replace (i + -1 <? 0) with false by (symmetry; apply Z.ltb_ge; lia).
    unfold ret at 1.
    destruct (py_index_in_range (crystal_layout_imgs s) (i - 1)) as [img Himg];
      [lia|].
    exists img. split; [done|].
    replace (i + -1) with (i - 1) by lia.
    by rewrite (update_crystal_layout_at _ (i - 1) img).
Qed.

Lemma crystal_noop (s : Widget) :
  visible s = false \/ crystal_layout_idx s = None ->
  next_crystal_layout s = (Ok tt, s) /\ last_crystal_layout s = (Ok tt, s).
Proof.
  intros H. unfold next_crystal_layout, last_crystal_layout, bind, get, ret.
  destruct H as [-> | ->]; [|destruct (visible s)]; done.
Qed.

(** X13: the crystal layout pages behave like the map pages.  While a
    page index points into the list of layout images, next-page and
    previous-page raise nothing, keep the list and leave the index inside
    it; on a visible overlay next-page moves to the following layout and
    from the last one to index 0, previous-page to the preceding layout
    and from index 0 to the last one; both leave the widget as it is when
    the visible flag is false or no layout is displayed. *)
Theorem crystal_layout_paging (s : Widget) :
  crystal_inv s ->
  ((next_crystal_layout s).1 = Ok tt /\ crystal_inv (next_crystal_layout s).2 /\
   crystal_layout_imgs (next_crystal_layout s).2 = crystal_layout_imgs s /\
   (last_crystal_layout s).1 = Ok tt /\ crystal_inv (last_crystal_layout s).2 /\
   crystal_layout_imgs (last_crystal_layout s).2 = crystal_layout_imgs s) /\
  (forall i, visible s = true -> crystal_layout_idx s = Some i ->
     let n := Z.of_nat (length (crystal_layout_imgs s)) in
     crystal_layout_idx (next_crystal_layout s).2
     = Some (if i =? n - 1 then 0 else i + 1) /\
     crystal_layout_idx (last_crystal_layout s).2
     = Some (if i =? 0 then n - 1 else i - 1)) /\
  (visible s = false \/ crystal_layout_idx s = None ->
   next_crystal_layout s = (Ok tt, s) /\ last_crystal_layout s = (Ok tt, s)).
Proof.
  intros Hinv. split; [|split].
  - destruct (visible s) eqn:Hv, (crystal_layout_idx s) as [i|] eqn:Hi;
      try (destruct (crystal_noop s) as [-> ->]; [auto|]; by cbn [fst snd]).
    destruct (next_crystal_layout_spec s i Hinv Hv Hi) as (img1 & _ & ->).
    destruct (last_crystal_layout_spec s i Hinv Hv Hi) as (img2 & _ & ->).
    specialize (Hinv i Hi). cbn [fst snd].
    split; [done|]. split.
    { apply crystal_step_inv.
      destruct (Z.eqb_spec i (Z.of_nat (length (crystal_layout_imgs s)) - 1)); lia. }
    split; [done|]. split; [done|]. split; [|done].
    apply crystal_step_inv. destruct (Z.eqb_spec i 0); lia.
  - intros i Hv Hi. cbv zeta.
    destruct (next_crystal_layout_spec s i Hinv Hv Hi) as (img1 & _ & ->).
    destruct (last_crystal_layout_spec s i Hinv Hv Hi) as (img2 & _ & ->).
    done.
  - apply crystal_noop.
Qed.

(** *** Map pages *)

Lemma update_overlay_images_at (s : Widget) (l : list Image) (i : Z) (img : Image) :
  overlay_images s = Some l -> l <> [] ->
  map_pattern_idx s = Some i -> py_index l i = Ok img ->
  update_overlay_images s = (Ok tt, set_overlay_image_box (Some img) s).
Proof.
  intros Hl Hne Hi Himg. unfold update_overlay_images, bind, get, lift, modify.
  rewrite Hl, (falsy_false l Hne), Hi. cbn [default py_index_opt].
  change (id l) with l. by rewrite Himg.
Qed.

Lemma next_overlay_image_at (s : Widget) (l : list Image) (i : Z) :
  paging_inv s -> visible s = true -> overlay_images s = Some l ->
  map_pattern_idx s = Some i ->
  let j := if i =? Z.of_nat (length l) - 1 then 0 else i + 1 in
  0 <= j < Z.of_nat (length l) /\
  exists img,
    py_index l j = Ok img /\
    next_overlay_image s
    = (Ok tt, set_overlay_image_box (Some img) (set_map_pattern_idx (Some j) s)).
Proof.
  intros Hinv Hv Hl Hi. cbv zeta.
  destruct (Hinv l Hl) as (Hne & i' & Hi' & Hr).
  assert (i' = i) by congruence. subst i'.
  split; [destruct (Z.eqb_spec i (Z.of_nat (length l) - 1)); lia|].
  unfold next_overlay_image, bind at 1, get at 1. rewrite Hv.
  unfold bind at 1, get at 1. rewrite Hl.
  unfold add_map_pattern_idx, bind at 1, bind at 1, get at 1. rewrite Hi.
  unfold bind at 1, modify at 1, ret at 1.
  unfold bind at 1, when.
  destruct (Z.eqb_spec i (Z.of_nat (length l) - 1)) as [E|E].
  - replace (Z.of_nat (length l) <=? i + 1) with true
      by (symmetry; apply Z.leb_le; lia).
    unfold modify at 1.
    destruct (py_index_in_range l 0) as [img Himg]; [lia|].
    exists img. split; [done|].
    by rewrite (update_overlay_images_at _ l 0 img).
  - replace (Z.of_nat (length l) <=? i + 1) with false
      by (symmetry; apply Z.leb_gt; lia).
    unfold ret at 1.
    destruct (py_index_in_range l (i + 1)) as [img Himg]; [lia|].
    exists img. split; [done|].
    by rewrite (update_overlay_images_at _ l (i + 1) img).
Qed.

Lemma last_overlay_image_at (s : Widget) (l : list Image) (i : Z) :
  paging_inv s -> visible s = true -> overlay_images s = Some l ->
  map_pattern_idx s = Some i ->
  let j := if i =? 0 then Z.of_nat (length l) - 1 else i - 1 in
  0 <= j < Z.of_nat (length l) /\
  exists img,
    py_index l j = Ok img /\
    last_overlay_image s
    = (Ok tt, set_overlay_image_box (Some img) (set_map_pattern_idx (Some j) s)).
Proof.
  intros Hinv Hv Hl Hi. cbv zeta.
  destruct (Hinv l Hl) as (Hne & i' & Hi' & Hr).
  assert (i' = i) by congruence. subst i'.
  split; [destruct (Z.eqb_spec i 0); lia|].
  unfold last_overlay_image, bind at 1, get at 1. rewrite Hv.
  unfold bind at 1, get at 1. rewrite Hl.
  unfold add_map_pattern_idx, bind at 1, bind at 1, get at 1. rewrite Hi.
  unfold bind at 1, modify at 1, ret at 1.
  unfold bind at 1, when.
  destruct (Z.eqb_spec i 0) as [E|E].
  - subst i. replace (0 + -1 <? 0) with true by done.
    unfold modify at 1.
    destruct (py_index_in_range l (Z.of_nat (length l) - 1)) as [img Himg]; [lia|].
    exists img. split; [done|].
    by rewrite (update_overlay_images_at _ l (Z.of_nat (length l) - 1) img).
  - replace (i + -1 <? 0) with false by (symmetry; apply Z.ltb_ge; lia).
    unfold ret at 1.
    destruct (py_index_in_range l (i - 1)) as [img Himg]; [lia|].
    exists img. split; [done|].
    replace (i + -1) with (i - 1) by lia.
    by rewrite (update_overlay_images_at _ l (i - 1) img).
Qed.

(** The widget after a page step: still visible, with the same list, on
    the page [j]. *)
Lemma page_step_state (s : Widget) (l : list Image) (j : Z) (img : Image) :
  visible s = true -> overlay_images s = Some l -> l <> [] ->
  0 <= j < Z.of_nat (length l) ->
  let s1 := set_overlay_image_box (Some img) (set_map_pattern_idx (Some j) s) in
  paging_inv s1 /\ visible s1 = true /\ overlay_images s1 = Some l /\
  map_pattern_idx s1 = Some j.
Proof.
  intros Hv Hl Hne Hj. cbv zeta.
  split; [by apply paging_step_inv with (l := l)|]. done.
Qed.

Lemma page_twice (s : Widget) (i j : Z) (img1 img : Image) :
  map_pattern_idx s = Some i ->
  set_overlay_image_box (Some img)
    (set_map_pattern_idx (Some i)
       (set_overlay_image_box (Some img1) (set_map_pattern_idx (Some j) s)))
  = set_overlay_image_box (Some img) s.
Proof. destruct s. cbn. by intros ->. Qed.

(** X14: paging is a round trip.  On a visible overlay with a stored list
    and the index inside it, next-page followed by previous-page, and
    previous-page followed by next-page, raise nothing and leave the
    widget as it was, showing the image of the page it was on. *)
Theorem overlay_paging_round_trip (s : Widget) (l : list Image) (i : Z) :
  paging_inv s -> visible s = true -> overlay_images s = Some l ->
  map_pattern_idx s = Some i ->
  exists img,
    py_index l i = Ok img /\
    last_overlay_image (next_overlay_image s).2
    = (Ok tt, set_overlay_image_box (Some img) s) /\
    next_overlay_image (last_overlay_image s).2
    = (Ok tt, set_overlay_image_box (Some img) s).
Proof.
  intros Hinv Hv Hl Hi.
  destruct (Hinv l Hl) as (Hne & i' & Hi' & Hr).
  assert (i' = i) by congruence. subst i'.
  destruct (py_index_in_range l i Hr) as [img Himg].
  exists img. split; [done|]. split.
  - destruct (next_overlay_image_at s l i Hinv Hv Hl Hi) as (Hj & img1 & _ & ->).
    cbn [snd].
    destruct (page_step_state s l _ img1 Hv Hl Hne Hj) as (Hinv1 & Hv1 & Hl1 & Hi1).
    destruct (last_overlay_image_at _ l _ Hinv1 Hv1 Hl1 Hi1) as (_ & img2 & Himg2 & ->).
    assert (E : (if (if i =? Z.of_nat (length l) - 1 then 0 else i + 1) =? 0
                 then Z.of_nat (length l) - 1
                 else (if i =? Z.of_nat (length l) - 1 then 0 else i + 1) - 1) = i).
    { destruct (Z.eqb_spec i (Z.of_nat (length l) - 1));
        [|destruct (Z.eqb_spec (i + 1) 0)]; cbn; lia. }
    rewrite E in *. rewrite Himg in Himg2. inversion Himg2; subst img2.
    by rewrite page_twice.
  - destruct (last_overlay_image_at s l i Hinv Hv Hl Hi) as (Hj & img1 & _ & ->).
    cbn [snd].
    destruct (page_step_state s l _ img1 Hv Hl Hne Hj) as (Hinv1 & Hv1 & Hl1 & Hi1).
    destruct (next_overlay_image_at _ l _ Hinv1 Hv1 Hl1 Hi1) as (_ & img2 & Himg2 & ->).
    assert (E : (if (if i =? 0 then Z.of_nat (length l) - 1 else i - 1)
                    =? Z.of_nat (length l) - 1
                 then 0
                 else (if i =? 0 then Z.of_nat (length l) - 1 else i - 1) + 1) = i).
    { destruct (Z.eqb_spec i 0);
        [rewrite Z.eqb_refl
        |destruct (Z.eqb_spec (i - 1) (Z.of_nat (length l) - 1))]; lia. }
    rewrite E in *. rewrite Himg in Himg2. inversion Himg2; subst img2.
    by rewrite page_twice.
Qed.

Lemma next_overlay_image_iter (s : Widget) (l : list Image) (i : Z) (k : nat) :
  paging_inv s -> visible s = true -> overlay_images s = Some l ->
  map_pattern_idx s = Some i ->
  let sk := Nat.iter k (fun s => (next_overlay_image s).2) s in
  paging_inv sk /\ visible sk = true /\ overlay_images sk = Some l /\
  map_pattern_idx sk = Some ((i + Z.of_nat k) mod Z.of_nat (length l)).
Proof.
  intros Hinv Hv Hl Hi. cbv zeta.
  destruct (Hinv l Hl) as (Hne & i' & Hi' & Hr).
  assert (i' = i) by congruence. subst i'.
  induction k as [|k (Hinvk & Hvk & Hlk & Hik)].
  - cbn [Nat.iter nat_rect]. rewrite Z.add_0_r, Z.mod_small by lia. done.
  - rewrite Nat.iter_succ.
    destruct (next_overlay_image_at _ l _ Hinvk Hvk Hlk Hik) as (Hj & img & _ & ->).
    cbn [snd].
    destruct (page_step_state _ l _ img Hvk Hlk Hne Hj) as (H1 & H2 & H3 & H4).
    split; [done|]. split; [done|]. split; [done|]. rewrite H4. f_equal.
    replace (i + Z.of_nat (S k)) with (i + Z.of_nat k + 1) by lia.
    rewrite <- (Z.add_mod_idemp_l (i + Z.of_nat k) 1) by lia.
    pose proof (Z.mod_pos_bound (i + Z.of_nat k) (Z.of_nat (length l))) as Hb.
    destruct (Z.eqb_spec ((i + Z.of_nat k) mod Z.of_nat (length l))
                (Z.of_nat (length l) - 1)) as [E|E].
    + rewrite E. replace (Z.of_nat (length l) - 1 + 1) with (Z.of_nat (length l))
        by lia.
      by rewrite Z.mod_same by lia.
    + by rewrite (Z.mod_small (_ + 1)) by lia.
Qed.

Lemma last_overlay_image_iter (s : Widget) (l : list Image) (i : Z) (k : nat) :
  paging_inv s -> visible s = true -> overlay_images s = Some l ->
  map_pattern_idx s = Some i ->
  let sk := Nat.iter k (fun s => (last_overlay_image s).2) s in
  paging_inv sk /\ visible sk = true /\ overlay_images sk = Some l /\
  map_pattern_idx sk = Some ((i - Z.of_nat k) mod Z.of_nat (length l)).
Proof.
  intros Hinv Hv Hl Hi. cbv zeta.
  destruct (Hinv l Hl) as (Hne & i' & Hi' & Hr).
  assert (i' = i) by congruence. subst i'.
  induction k as [|k (Hinvk & Hvk & Hlk & Hik)].
  - cbn [Nat.iter nat_rect]. rewrite Z.sub_0_r, Z.mod_small by lia. done.
  - rewrite Nat.iter_succ.
    destruct (last_overlay_image_at _ l _ Hinvk Hvk Hlk Hik) as (Hj & img & _ & ->).
    cbn [snd].
    destruct (page_step_state _ l _ img Hvk Hlk Hne Hj) as (H1 & H2 & H3 & H4).
    split; [done|]. split; [done|]. split; [done|]. rewrite H4. f_equal.
    replace (i - Z.of_nat (S k)) with (i - Z.of_nat k - 1) by lia.
    rewrite <- (Zminus_mod_idemp_l (i - Z.of_nat k) 1).
    pose proof (Z.mod_pos_bound (i - Z.of_nat k) (Z.of_nat (length l))) as Hb.
    destruct (Z.eqb_spec ((i - Z.of_nat k) mod Z.of_nat (length l)) 0) as [E|E].
    + rewrite E.
      replace (0 - 1) with (Z.of_nat (length l) - 1 + (-1) * Z.of_nat (length l))
        by lia.
      by rewrite Z.mod_add, Z.mod_small by lia.
    + by rewrite (Z.mod_small (_ - 1)) by lia.
Qed.

(** X15: paging goes round the list.  On a visible overlay with a stored
    list and the index inside it, [k] presses of next-page put the index
    [k] places further, counted modulo the length of the list, [k]
    presses of previous-page [k] places back; as many presses as the list
    has images lead back to the page the overlay was on. *)
Theorem overlay_paging_cycle (s : Widget) (l : list Image) (i : Z) (k : nat) :
  paging_inv s -> visible s = true -> overlay_images s = Some l ->
  map_pattern_idx s = Some i ->
  map_pattern_idx (Nat.iter k (fun s => (next_overlay_image s).2) s)
  = Some ((i + Z.of_nat k) mod Z.of_nat (length l)) /\
  map_pattern_idx (Nat.iter k (fun s => (last_overlay_image s).2) s)
  = Some ((i - Z.of_nat k) mod Z.of_nat (length l)) /\
  map_pattern_idx (Nat.iter (length l) (fun s => (next_overlay_image s).2) s)
  = Some i /\
  map_pattern_idx (Nat.iter (length l) (fun s => (last_overlay_image s).2) s)
  = Some i.
Proof.
  intros Hinv Hv Hl Hi.
  destruct (Hinv l Hl) as (Hne & i' & Hi' & Hr).
  assert (i' = i) by congruence. subst i'.
  split; [apply (next_overlay_image_iter s l i k); done|].
  split; [apply (last_overlay_image_iter s l i k); done|].
  split.
  - destruct (next_overlay_image_iter s l i (length l)) as (_ & _ & _ & ->);
      try done.
    f_equal. replace (i + Z.of_nat (length l)) with (i + 1 * Z.of_nat (length l))
      by lia.
    by rewrite Z.mod_add, Z.mod_small by lia.
  - destruct (last_overlay_image_iter s l i (length l)) as (_ & _ & _ & ->);
      try done.
    f_equal. replace (i - Z.of_nat (length l)) with (i + (-1) * Z.of_nat (length l))
      by lia.
    by rewrite Z.mod_add, Z.mod_small by lia.
Qed.

(** *** Patches *)

Lemma succeeds_ret {A} (a : A) : succeeds (@ret Image A a).
Proof. by intros s. Qed.

Lemma succeeds_modify (g : Widget -> Widget) : succeeds (modify g).
Proof. by intros s. Qed.

Lemma succeeds_when (b : bool) (m : M unit) : succeeds m -> succeeds (when b m).
Proof. destruct b; [done|]. intros _. apply succeeds_ret. Qed.

Lemma succeeds_if_some {A} (v : option A) (k : A -> M unit) :
  (forall a, succeeds (k a)) -> succeeds (if_some v k).
Proof. intros H. destruct v; [apply H | apply succeeds_ret]. Qed.

Lemma succeeds_set_overlay_images (imgs : option (list Image)) :
  succeeds (set_overlay_images imgs).
Proof.
  intros s. by destruct (set_overlay_images_spec imgs s) as (-> & _).
Qed.

(** A step that raises nothing hands the widget it leaves behind to the
    rest of the method. *)
Lemma bind_run {A} (m : M unit) (k : unit -> M A) (s : Widget) :
  succeeds m -> bind m k s = k tt (m s).2.
Proof.
  intros H. specialize (H s). unfold bind.
  by destruct (m s) as [[[]|e] s1].
Qed.

Lemma bind_step {A B} (f : Widget -> B) (m : M unit) (k : unit -> M A)
    (s : Widget) :
  succeeds m -> keeps f m -> exists s1, bind m k s = k tt s1 /\ f s1 = f s.
Proof.
  intros Hs Hk. exists (m s).2. split; [by apply bind_run | apply Hk].
Qed.

Ltac frame :=
  repeat first
    [ apply keeps_ret | apply keeps_raise | apply keeps_get | apply keeps_lift
    | apply keeps_modify; intros ?; reflexivity
    | apply keeps_when | apply keeps_if_some; intros ?
    | apply keeps_bind; [|intros ?]
    | match goal with
      | |- keeps _ (match ?x with _ => _ end) => destruct x
      end
    | progress unfold update_overlay_images, set_overlay_images,
        add_map_pattern_idx, add_crystal_layout_idx, update_crystal_layout,
        next_overlay_image, last_overlay_image,
        next_crystal_layout, last_crystal_layout ].

Ltac patch_step f :=
  match goal with
  | |- context [bind ?m ?k ?s] =>
      let s1 := fresh "s" in
      let H := fresh "Hf" in
      destruct (bind_step f m k s) as (s1 & -> & H);
      [ first [ apply succeeds_if_some; intros ?; apply succeeds_modify
              | apply succeeds_if_some; intros ?; apply succeeds_set_overlay_images
              | apply succeeds_when; apply succeeds_set_overlay_images
              | assumption ]
      | frame
      | cbv beta ]
  end.

(** The first step of [update_ui_state] raises nothing when the patch
    has no [x] or the region can be converted. *)
Lemma succeeds_geometry screens (state : MapOverlayUIState Image) :
  UIState.x state = None
  \/ is_ok (mss_region_to_qt_region screens
              (UIState.x state, UIState.y state,
               UIState.w state, UIState.h state)) = true ->
  succeeds (@if_some Image _ (UIState.x state) (fun _ =>
    bind (lift (mss_region_to_qt_region screens
                  (UIState.x state, UIState.y state,
                   UIState.w state, UIState.h state)))
         (fun region => modify (set_geometry region)))).
Proof.
  intros [-> | H] s; [done|].
  destruct (UIState.x state); [|done]. cbn [if_some].
  unfold bind, lift, modify.
  by destruct (mss_region_to_qt_region _ _).
Qed.

(** X16: a patch raises in two places only (drawing an image aside,
    which is not modelled).  When its region cannot be converted,
    [update_ui_state] raises what the conversion raises and leaves the
    widget as it was.  Otherwise everything up to the crystal
    layout is applied, and the crystal layout decides: asked to display
    the layouts, the widget goes to page 0 and shows its image, or raises
    IndexError with the index left at 0 when there is no layout image;
    asked to hide them, it clears the index and the image; not asked, it
    keeps both. *)
Theorem update_ui_state_outcome screens (state : MapOverlayUIState Image)
    (s : Widget) :
  let region := (UIState.x state, UIState.y state,
                 UIState.w state, UIState.h state) in
  let r := update_ui_state screens state s in
  (forall e, is_Some (UIState.x state) ->
     mss_region_to_qt_region screens region = Raise e -> r = (Raise e, s)) /\
  (UIState.x state = None
   \/ is_ok (mss_region_to_qt_region screens region) = true ->
   crystal_layout_imgs r.2 = crystal_layout_imgs s /\
   match UIState.display_crystal_layout state with
   | Some true =>
       crystal_layout_idx r.2 = Some 0 /\
       match crystal_layout_imgs s with
       | [] => r.1 = Raise IndexError /\
               crystal_layout_image_box r.2 = crystal_layout_image_box s
       | img :: _ => r.1 = Ok tt /\ crystal_layout_image_box r.2 = Some img
       end
   | Some false =>
       r.1 = Ok tt /\ crystal_layout_idx r.2 = None /\
       crystal_layout_image_box r.2 = None
   | None =>
       r.1 = Ok tt /\ crystal_layout_idx r.2 = crystal_layout_idx s /\
       crystal_layout_image_box r.2 = crystal_layout_image_box s
   end).
Proof.
  cbv zeta. split.
  - intros e [x Hx] He. unfold update_ui_state. rewrite Hx. cbn [if_some].
    unfold bind at 2. unfold bind at 1. unfold lift. rewrite <- Hx, He. done.
  - intros Hgeo. pose proof (succeeds_geometry screens state Hgeo) as Hs.
    unfold update_ui_state.
    do 11 patch_step (fun s : Widget =>
      (crystal_layout_idx s, crystal_layout_imgs s, crystal_layout_image_box s)).
    assert (E : (crystal_layout_idx s10, crystal_layout_imgs s10,
                 crystal_layout_image_box s10)
                = (crystal_layout_idx s, crystal_layout_imgs s,
                   crystal_layout_image_box s)) by congruence.
    inversion E as [[E1 E2 E3]]. clear - E1 E2 E3.
    destruct (UIState.display_crystal_layout state) as [[|]|]; cbn [if_some].
    + unfold update_crystal_layout, bind, modify, get, lift.
      cbn [crystal_layout_idx crystal_layout_imgs set_crystal_layout_idx].
      rewrite E2. destruct (crystal_layout_imgs s) as [|img imgs]; cbn; done.
    + unfold update_crystal_layout, bind, modify, get. cbn. done.
    + unfold ret. cbn. done.
Qed.

Lemma py_index_head {A} (a : A) (l : list A) : py_index (a :: l) 0 = Ok a.
Proof.
  unfold py_index.
  replace (0 <? Z.of_nat (length (a :: l))) with true
    by (symmetry; apply Z.ltb_lt; cbn [length]; lia).
  done.
Qed.

(** X17: what a patch does to the map pages, when its geometry step
    raises nothing.  With [clear_image] set, or with an empty list, the
    widget ends with no list, no image and the index 0, also when the
    patch carries a list; with a non-empty list and [clear_image] not
    set it stores the list and shows its first image; with neither, the
    list, the image and the index stay as they were. *)
Theorem update_ui_state_overlay_images screens (state : MapOverlayUIState Image)
    (s : Widget) :
  let region := (UIState.x state, UIState.y state,
                 UIState.w state, UIState.h state) in
  let s' := (update_ui_state screens state s).2 in
  UIState.x state = None
  \/ is_ok (mss_region_to_qt_region screens region) = true ->
  (overlay_images s', overlay_image_box s', map_pattern_idx s')
  = match UIState.clear_image state, UIState.overlay_images state with
    | false, Some (img :: l) => (Some (img :: l), Some img, Some 0)
    | false, None => (overlay_images s, overlay_image_box s, map_pattern_idx s)
    | _, _ => (None, None, Some 0)
    end.
Proof.
  cbv zeta. intros Hgeo.
  pose proof (succeeds_geometry screens state Hgeo) as Hs.
  unfold update_ui_state.
  do 3 patch_step (fun s : Widget =>
    (overlay_images s, overlay_image_box s, map_pattern_idx s)).
  rewrite bind_run
    by (apply succeeds_if_some; intros ?; apply succeeds_set_overlay_images).
  rewrite bind_run by (apply succeeds_when; apply succeeds_set_overlay_images).
  match goal with
  | |- context [bind ?m ?k _] =>
      assert (Hk : keeps (fun w : Widget =>
                (overlay_images w, overlay_image_box w, map_pattern_idx w))
                (bind m k)) by frame
  end.
  rewrite Hk. clear Hk Hs Hgeo.
  destruct (UIState.clear_image state),
    (UIState.overlay_images state) as [[|img l]|]; cbn [if_some when];
    unfold set_overlay_images, update_overlay_images, bind, modify, get, lift, ret;
    cbn [overlay_images set_overlay_images_attr set_map_pattern_idx
         set_overlay_image_box map_pattern_idx overlay_image_box falsy
         default py_index_opt fst snd];
    unfold id; rewrite ?py_index_head; cbn; congruence.
Qed.

(** X18: only the timer touches the window.  Applying a patch, setting
    an image list and the four paging operations leave the opacity and
    the visibility of the window as they are, also when they raise. *)
Theorem window_left_to_timer screens (state : MapOverlayUIState Image)
    (imgs : option (list Image)) :
  Forall (fun m : M unit => keeps windowOpacity m /\ keeps isVisible m)
    [update_ui_state screens state; set_overlay_images imgs;
     next_overlay_image; last_overlay_image;
     next_crystal_layout; last_crystal_layout].
Proof.
  repeat constructor; unfold update_ui_state; frame.
Qed.

End More.
Lemma crystal_layout_paging_witness :
  crystal_layout_idx
    (next_crystal_layout
       (set_crystal_layout_idx (Some 1) (@fresh unit (0, 0, 0, 0) 0%float [tt; tt]))).2
  = Some 0 /\
  crystal_layout_idx
    (last_crystal_layout
       (set_crystal_layout_idx (Some 1) (@fresh unit (0, 0, 0, 0) 0%float [tt; tt]))).2
  = Some 0.
Proof.
  apply (proj1 (proj2 (@crystal_layout_paging unit
           (set_crystal_layout_idx (Some 1) (@fresh unit (0, 0, 0, 0) 0%float [tt; tt]))
           ltac:(intros i Hi; inversion Hi; cbn; lia))) 1); reflexivity.
Defined.

Lemma overlay_paging_round_trip_witness :
  exists img,
    py_index [tt; tt; tt] 2 = Ok img /\
    last_overlay_image
      (next_overlay_image
         (set_map_pattern_idx (Some 2)
            (set_overlay_images_attr (Some [tt; tt; tt])
               (@fresh unit (0, 0, 0, 0) 0%float [])))).2
    = (Ok tt, set_overlay_image_box (Some img)
                (set_map_pattern_idx (Some 2)
                   (set_overlay_images_attr (Some [tt; tt; tt])
                      (@fresh unit (0, 0, 0, 0) 0%float [])))) /\
    next_overlay_image
      (last_overlay_image
         (set_map_pattern_idx (Some 2)
            (set_overlay_images_attr (Some [tt; tt; tt])
               (@fresh unit (0, 0, 0, 0) 0%float [])))).2
    = (Ok tt, set_overlay_image_box (Some img)
                (set_map_pattern_idx (Some 2)
                   (set_overlay_images_attr (Some [tt; tt; tt])
                      (@fresh unit (0, 0, 0, 0) 0%float [])))).
Proof.
  apply (@overlay_paging_round_trip unit
           (set_map_pattern_idx (Some 2)
              (set_overlay_images_attr (Some [tt; tt; tt])
                 (@fresh unit (0, 0, 0, 0) 0%float []))) [tt; tt; tt] 2);
    try reflexivity.
  intros l Hl. inversion Hl; subst l. split; [done|].
  exists 2. split; [reflexivity|]. cbn. lia.
Defined.

Lemma overlay_paging_cycle_witness :
  map_pattern_idx
    (Nat.iter 3 (fun s => (next_overlay_image s).2)
       (set_map_pattern_idx (Some 2)
          (set_overlay_images_attr (Some [tt; tt; tt])
             (@fresh unit (0, 0, 0, 0) 0%float []))))
  = Some 2.
Proof.
  apply (proj1 (proj2 (proj2
           (@overlay_paging_cycle unit
              (set_map_pattern_idx (Some 2)
                 (set_overlay_images_attr (Some [tt; tt; tt])
                    (@fresh unit (0, 0, 0, 0) 0%float []))) [tt; tt; tt] 2 0
              ltac:(intros l Hl; inversion Hl; subst l; split; [done|];
                    exists 2; split; [reflexivity|cbn; lia])
              ltac:(reflexivity) ltac:(reflexivity) ltac:(reflexivity))))).
Defined.

Lemma update_ui_state_outcome_witness :
  (update_ui_state []
     (UIState.mk None None None None None None None (Some true)
                 false None None None None None None)
     (@fresh unit (0, 0, 0, 0) 0%float [])).1
  = Raise IndexError.
Proof.
  apply (proj2 (@update_ui_state_outcome unit []
           (UIState.mk None None None None None None None (Some true)
                       false None None None None None None)
           (@fresh unit (0, 0, 0, 0) 0%float []))).
  left. reflexivity.
Defined.

Lemma update_ui_state_overlay_images_witness :
  let s' := (update_ui_state []
               (UIState.mk None None None None None None (Some [tt; tt]) None
                           true None None None None None None)
               (@fresh unit (0, 0, 0, 0) 0%float [])).2 in
  (overlay_images s', overlay_image_box s', map_pattern_idx s')
  = (None, None, Some 0).
Proof.
  apply (@update_ui_state_overlay_images unit []
           (UIState.mk None None None None None None (Some [tt; tt]) None
                       true None None None None None None)
           (@fresh unit (0, 0, 0, 0) 0%float [])).
  left. reflexivity.
Defined.

End MapOverlayMore.

(** ** More on the release version manager *)

Module CiVersionMore.
Import CiVersion CiVersionFacts.
Local Open Scope string_scope.
#[local] Arguments String.append !s1 s2 : simpl nomatch.

Lemma update_pyproject_version_lf_witness :
  exists a prefix value suffix b,
    pyproject NL "1.0.0"
    = a ++ prefix ++ String QUOTE (value ++ String QUOTE (suffix ++ b)) /\
    files (update_pyproject_version "pyproject.toml" "1.0.1"
             (host NL "pyproject.toml" (pyproject NL "1.0.0"))).2
      !! "pyproject.toml"
    = Some (a ++ prefix ++ String QUOTE ("1.0.1" ++ String QUOTE (suffix ++ b))) /\
    (forall other, other <> "pyproject.toml" ->
       files (update_pyproject_version "pyproject.toml" "1.0.1"
                (host NL "pyproject.toml" (pyproject NL "1.0.0"))).2 !! other
       = files (host NL "pyproject.toml" (pyproject NL "1.0.0")) !! other) /\
    value <> "1.0.1" /\
    version_prefix_re prefix = true /\ contains QUOTE value = false /\
    all_chars is_space suffix = true.
Proof.
  apply (update_pyproject_version_lf "pyproject.toml" "1.0.1"
           (pyproject NL "1.0.0")
           (host NL "pyproject.toml" (pyproject NL "1.0.0"))); reflexivity.
Defined.

(** *** Blanks around a tag *)

Lemma lstrip_by_all P (a : string) : all_chars P a = true -> lstrip_by P a = "".
Proof.
  induction a as [|x a IH]; cbn; [done|]. intros H.
  apply andb_true_iff in H as [-> Ha]. by apply IH.
Qed.

Lemma lstrip_by_empty P (a : string) : lstrip_by P a = "" -> all_chars P a = true.
Proof.
  induction a as [|x a IH]; cbn; [done|]. destruct (P x); [apply IH|done].
Qed.

Lemma lstrip_by_app_all P (a b : string) :
  all_chars P a = true -> lstrip_by P (a ++ b) = lstrip_by P b.
Proof.
  induction a as [|x a IH]; cbn; [done|]. intros H.
  apply andb_true_iff in H as [-> Ha]. by apply IH.
Qed.

Lemma lstrip_by_app_some P (a b : string) :
  all_chars P a = false -> lstrip_by P (a ++ b) = lstrip_by P a ++ b.
Proof.
  induction a as [|x a IH]; cbn; [done|].
  destruct (P x); cbn; [apply IH | done].
Qed.

Lemma rstrip_by_all P (b : string) : all_chars P b = true -> rstrip_by P b = "".
Proof.
  induction b as [|x b IH]; cbn; [done|]. intros H.
  apply andb_true_iff in H as [-> Hb]. by rewrite (IH Hb).
Qed.

Lemma rstrip_by_app_all P (a b : string) :
  all_chars P b = true -> rstrip_by P (a ++ b) = rstrip_by P a.
Proof.
  intros Hb. induction a as [|x a IH]; cbn; [by apply rstrip_by_all|].
  by rewrite IH.
Qed.

Lemma strip_blanks (ws1 tag ws2 : string) :
  all_chars is_space ws1 = true -> all_chars is_space ws2 = true ->
  strip (ws1 ++ tag ++ ws2) = strip tag.
Proof.
  intros H1 H2. unfold strip. rewrite (lstrip_by_app_all _ ws1) by done.
  destruct (all_chars is_space tag) eqn:Et.
  - rewrite (lstrip_by_app_all _ tag), (lstrip_by_all _ ws2), (lstrip_by_all _ tag)
      by done. done.
  - rewrite lstrip_by_app_some by done. by apply rstrip_by_app_all.
Qed.

(** X20: blanks around a tag do not count.  [tag_to_pep440] gives the
    same result, version or error, for a tag and for the tag with
    white space before and after it. *)
Theorem tag_to_pep440_blanks (ws1 tag ws2 : string) :
  all_chars is_space ws1 = true -> all_chars is_space ws2 = true ->
  tag_to_pep440 (ws1 ++ tag ++ ws2) = tag_to_pep440 tag.
Proof.
  intros H1 H2. unfold tag_to_pep440. by rewrite strip_blanks.
Qed.

Lemma tag_to_pep440_blanks_witness :
  tag_to_pep440 (String (ascii_of_N 9) " " ++ "v1.2.3-rc.1" ++ String LF "")
  = tag_to_pep440 "v1.2.3-rc.1".
Proof.
  apply (tag_to_pep440_blanks (String (ascii_of_N 9) " ") "v1.2.3-rc.1"
           (String LF "")); reflexivity.
Defined.

(** *** The versions the mapper returns *)

Lemma all_chars_weaken (P Q : ascii -> bool) (s : string) :
  (forall c, P c = true -> Q c = true) ->
  all_chars P s = true -> all_chars Q s = true.
Proof.
  intros HPQ. induction s as [|x s IH]; cbn; [done|]. intros H.
  apply andb_true_iff in H as [Hx Hs]. by rewrite (HPQ x Hx), (IH Hs).
Qed.

Lemma all_chars_contains (P : ascii -> bool) (x : ascii) (s : string) :
  (forall c, P c = true -> Ascii.eqb x c = false) ->
  all_chars P s = true -> contains x s = false.
Proof.
  intros HP. induction s as [|c s IH]; cbn; [done|]. intros H.
  apply andb_true_iff in H as [Hc Hs]. by rewrite (HP c Hc), (IH Hs).
Qed.







(** *** The command line *)


















(** *** Reading and updating the same file *)

Lemma universal_newlines_cr_free (s : string) :
  contains CR (universal_newlines s) = false.
Proof.
  assert (H : forall n s, (String.length s <= n)%nat ->
                contains CR (universal_newlines s) = false).
  { clear s. induction n as [|n IH]; intros [|c r] Hn; cbn in Hn; try done;
      [lia|].
    cbn [universal_newlines].
    destruct (Ascii.eqb_spec c CR) as [->|Hc].
    - destruct r as [|d r']; [done|].
      destruct (Ascii.eqb d LF); cbn [contains]; rewrite IH; cbn in *; try done; lia.
    - cbn [contains]. rewrite IH by lia.
      destruct (Ascii.eqb_spec CR c); [congruence|done]. }
  by apply (H (String.length s)).
Qed.

(** On a text without CR, [splitlines] ends a line at every line break. *)
Lemma splitlines_from_step (k : bool) (cur : string) (c : ascii) (r : string) :
  Ascii.eqb CR c = false ->
  splitlines_from k cur (String c r)
  = if is_linebreak c
    then (cur ++ (if k then String c "" else "")) :: splitlines_from k "" r
    else splitlines_from k (cur ++ String c "") r.
Proof.
  intros Hc. cbn [splitlines_from]. rewrite Ascii.eqb_sym in Hc. by rewrite Hc.
Qed.

(** A line with its end is the line, followed by line breaks. *)
Lemma splitlines_ends (s : string) :
  contains CR s = false ->
  forall cur,
    Forall2 (fun lk l => exists e, lk = l ++ e /\ all_chars is_linebreak e = true)
      (splitlines_from true cur s) (splitlines_from false cur s).
Proof.
  induction s as [|c r IH]; intros Hcr cur.
  - cbn. destruct (is_empty cur); constructor; [|constructor].
    exists "". by rewrite app_nil_r.
  - cbn [contains] in Hcr. apply orb_false_iff in Hcr as [Hc Hr].
    rewrite !splitlines_from_step by done.
    destruct (is_linebreak c) eqn:El; [|by apply IH].
    constructor; [|by apply IH].
    exists (String c ""). rewrite app_nil_r. cbn. by rewrite El.
Qed.

Lemma linebreak_blank (c : ascii) :
  is_linebreak c = true ->
  is_space c = true /\ Ascii.eqb QUOTE c = false /\ Ascii.eqb "]" c = false.
Proof.
  destruct c as [[|] [|] [|] [|] [|] [|] [|] [|]]; vm_compute; intros H;
    first [ discriminate H | repeat split ].
Qed.

Lemma split_once_app_r c (x y : string) :
  contains c y = false ->
  split_once c (x ++ y)
  = match split_once c x with
    | Some (a, b) => Some (a, b ++ y)
    | None => None
    end.
Proof.
  intros Hy. induction x as [|d x IH]; cbn.
  - destruct (split_once c y) as [[a b]|] eqn:E; [|done].
    apply split_once_inv in E as [-> _].
    rewrite contains_app in Hy. cbn in Hy.
    by rewrite Ascii.eqb_refl, orb_true_r in Hy.
  - destruct (Ascii.eqb c d); [done|]. rewrite IH.
    by destruct (split_once c x) as [[a b]|].
Qed.

(** Blanks after a line change neither pattern. *)
Lemma section_re_blank (l e : string) :
  all_chars is_space e = true -> contains "]" e = false ->
  _SECTION_RE (l ++ e) = _SECTION_RE l.
Proof.
  intros He Hb. unfold _SECTION_RE.
  destruct (all_chars is_space l) eqn:El.
  - rewrite lstrip_by_app_all, (lstrip_by_all _ e), (lstrip_by_all _ l) by done.
    done.
  - rewrite lstrip_by_app_some by done.
    destruct (lstrip_by is_space l) as [|c r] eqn:Es; cbn [String.append].
    + apply lstrip_by_empty in Es. congruence.
    + destruct (Ascii.eqb_spec c "[") as [->|Hc].
      * rewrite split_once_app_r by done.
        destruct (split_once "]" r) as [[name tail]|]; [|done].
        by rewrite all_chars_app, He, andb_true_r.
      * destruct c as [[|] [|] [|] [|] [|] [|] [|] [|]]; try done.
Qed.

Lemma version_line_re_blank (l e : string) :
  all_chars is_space e = true -> contains QUOTE e = false ->
  _VERSION_LINE_RE (l ++ e)
  = match _VERSION_LINE_RE l with
    | Some (prefix, value, suffix) => Some (prefix, value, suffix ++ e)
    | None => None
    end.
Proof.
  intros He Hq. unfold _VERSION_LINE_RE. rewrite split_once_app_r by done.
  destruct (split_once QUOTE l) as [[prefix r]|]; [|done].
  destruct (version_prefix_re prefix); [|done].
  rewrite split_once_app_r by done.
  destruct (split_once QUOTE r) as [[value suffix]|]; [|done].
  rewrite all_chars_app, He, andb_true_r.
  by destruct (all_chars is_space suffix).
Qed.

Lemma rstrip_by_decomp P (s : string) :
  exists e, s = rstrip_by P s ++ e /\ all_chars P e = true.
Proof.
  induction s as [|c s (e & He & Hall)]; [by exists ""|].
  cbn [rstrip_by]. destruct (is_empty (rstrip_by P s)) eqn:Ee.
  - destruct (rstrip_by P s); [|done]. cbn [String.append] in He. subst e.
    destruct (P c) eqn:Ec; cbn [andb].
    + exists (String c s). cbn. by rewrite Ec.
    + exists s. done.
  - cbn [andb]. exists e. cbn [String.append]. by rewrite <- He.
Qed.

(** The line the updater matches, with its end and with CR and LF
    stripped, and the line the reader matches, without its end, give the
    same value. *)
Lemma version_line_value (l e : string) :
  all_chars is_linebreak e = true ->
  match _VERSION_LINE_RE (rstrip_chars [CR; LF] (l ++ e)), _VERSION_LINE_RE l with
  | Some (_, value, _), Some (_, value', _) => value = value'
  | None, None => True
  | _, _ => False
  end.
Proof.
  intros He.
  assert (Hblank : forall x, all_chars is_linebreak x = true ->
            all_chars is_space x = true /\ contains QUOTE x = false).
  { intros x Hx. split.
    - revert Hx. apply all_chars_weaken. intros c Hc.
      by destruct (linebreak_blank c Hc) as (-> & _).
    - revert Hx. apply all_chars_contains. intros c Hc.
      by destruct (linebreak_blank c Hc) as (_ & -> & _). }
  destruct (rstrip_by_decomp (fun c => bool_decide (c ∈ [CR; LF])) (l ++ e))
    as (e' & Hsplit & He').
  assert (He'' : all_chars is_linebreak e' = true).
  { revert He'. apply all_chars_weaken. intros c Hc.
    apply bool_decide_eq_true in Hc.
    apply elem_of_cons in Hc as [->|Hc]; [done|].
    apply elem_of_cons in Hc as [->|Hc]; [done|]. by apply elem_of_nil in Hc. }
  destruct (Hblank e He) as [H1 H2]. destruct (Hblank e' He'') as [H3 H4].
  pose proof (version_line_re_blank l e H1 H2) as Hl.
  pose proof (version_line_re_blank (rstrip_chars [CR; LF] (l ++ e)) e' H3 H4) as Hr.
  unfold rstrip_chars in *. rewrite <- Hsplit in Hr. rewrite Hr in Hl.
  destruct (_VERSION_LINE_RE (rstrip_by _ (l ++ e))) as [[[p1 v1] s1]|];
    destruct (_VERSION_LINE_RE l) as [[[p2 v2] s2]|]; try done.
  by inversion Hl.
Qed.

(** The two loops agree line by line. *)
Lemma scan_agree (v : string) (lines todoK todo : list string) :
  Forall2 (fun lk l => exists e, lk = l ++ e /\ all_chars is_linebreak e = true)
    todoK todo ->
  forall in_project idx,
    match update_scan v lines in_project idx todoK with
    | Unchanged => read_scan in_project todo = Some v
    | Rewritten _ => exists current, read_scan in_project todo = Some current
                                     /\ current <> v
    | Missing => read_scan in_project todo = None
    end.
Proof.
  induction 1 as [|lk l todoK todo (e & -> & He) _ IH]; intros in_project idx;
    [done|].
  cbn [update_scan read_scan].
  assert (Hsec : _SECTION_RE (l ++ e) = _SECTION_RE l).
  { apply section_re_blank.
    - revert He. apply all_chars_weaken. intros c Hc.
      by destruct (linebreak_blank c Hc) as (-> & _).
    - revert He. apply all_chars_contains. intros c Hc.
      by destruct (linebreak_blank c Hc) as (_ & _ & ->). }
  rewrite Hsec. destruct (_SECTION_RE l) as [name|]; [apply IH|].
  destruct in_project; cbn [negb]; [|apply IH].
  pose proof (version_line_value l e He) as Hv.
  destruct (_VERSION_LINE_RE (rstrip_chars [CR; LF] (l ++ e))) as [[[p1 v1] s1]|];
    destruct (_VERSION_LINE_RE l) as [[[p2 v2] s2]|]; try done; [|apply IH].
  subst v2. destruct (String.eqb_spec v1 v) as [->|Hne]; [done|].
  by exists v1.
Qed.

Lemma update_read_agree (path v : string) (w : World) :
  match (read_pyproject_version path w).1 with
  | Ok current =>
      if String.eqb current v
      then update_pyproject_version path v w = (Ok false, w)
      else (update_pyproject_version path v w).1 = Ok true
  | Raise e => update_pyproject_version path v w = (Raise e, w)
  end.
Proof.
  unfold read_pyproject_version, update_pyproject_version, bind, read_text.
  destruct (files w !! path) as [stored|]; [|done].
  pose proof (scan_agree v (splitlines true (universal_newlines stored)) _ _
                (splitlines_ends _ (universal_newlines_cr_free stored) "")
                false 0%nat) as H.
  unfold splitlines.
  destruct (update_scan _ _ _ _ _) as [|lines'|].
  - rewrite H. cbn. by rewrite String.eqb_refl.
  - destruct H as (current & -> & Hne). cbn.
    by destruct (String.eqb_spec current v).
  - by rewrite H.
Qed.

(** X25: the updater and the reader find the same line.
    [update_pyproject_version] raises exactly what
    [read_pyproject_version] raises on the same file, and changes
    nothing then; when the reader finds a version, the updater returns
    False and changes nothing if it is the new version, and returns True
    if it is another. *)
Theorem update_agrees_with_read (path v : string) (w : World) :
  match (read_pyproject_version path w).1 with
  | Ok current =>
      if String.eqb current v
      then update_pyproject_version path v w = (Ok false, w)
      else (update_pyproject_version path v w).1 = Ok true
  | Raise e => update_pyproject_version path v w = (Raise e, w)
  end.
Proof.
  unfold read_pyproject_version, update_pyproject_version, bind, read_text.
  destruct (files w !! path) as [stored|]; [|done].
  pose proof (scan_agree v (splitlines true (universal_newlines stored)) _ _
                (splitlines_ends _ (universal_newlines_cr_free stored) "")
                false 0%nat) as H.
  unfold splitlines.
  destruct (update_scan _ _ _ _ _) as [|lines'|].
  - rewrite H. cbn. by rewrite String.eqb_refl.
  - destruct H as (current & -> & Hne). cbn.
    by destruct (String.eqb_spec current v).
  - by rewrite H.
Qed.

(** *** Reading what the updater wrote *)

Lemma universal_translate (sep s : string) :
  sep = NL \/ sep = CRLF -> contains CR s = false ->
  universal_newlines (translate_newlines sep s) = s.
Proof.
  intros Hsep. induction s as [|c r IH]; [done|].
  cbn [contains translate_newlines]. intros H.
  apply orb_false_iff in H as [Hc Hr]. specialize (IH Hr).
  destruct (Ascii.eqb_spec c LF) as [->|Hlf].
  - destruct Hsep as [->| ->]; cbn; by rewrite IH.
  - cbn [universal_newlines]. rewrite Ascii.eqb_sym in Hc. by rewrite Hc, IH.
Qed.

Lemma nolb_not_cr (c : ascii) :
  negb (is_linebreak c) = true -> Ascii.eqb CR c = false.
Proof. destruct (Ascii.eqb_spec CR c) as [<-|]; done. Qed.

Lemma splitlines_from_terminated (body : string) (c : ascii) (rest cur : string) :
  nolb body = true -> is_linebreak c = true -> c <> CR ->
  splitlines_from true cur (body ++ String c rest)
  = (cur ++ body ++ String c "") :: splitlines_from true "" rest.
Proof.
  intros Hb Hc Hcr. revert cur.
  induction body as [|d body IH]; intros cur; cbn [String.append].
  - rewrite splitlines_from_step by (by destruct (Ascii.eqb_spec CR c)).
    by rewrite Hc.
  - cbn in Hb. apply andb_true_iff in Hb as [Hd Hb].
    rewrite splitlines_from_step by (by apply nolb_not_cr).
    apply negb_true_iff in Hd. rewrite Hd, (IH Hb). f_equal. by norm_app.
Qed.

Lemma splitlines_from_nolb (l cur : string) :
  nolb l = true ->
  splitlines_from true cur l = if is_empty (cur ++ l) then [] else [cur ++ l].
Proof.
  revert cur. induction l as [|d l IH]; intros cur Hl.
  - cbn. by rewrite app_nil_r.
  - cbn in Hl. apply andb_true_iff in Hl as [Hd Hl].
    rewrite splitlines_from_step by (by apply nolb_not_cr).
    apply negb_true_iff in Hd. rewrite Hd, (IH _ Hl).
    by replace ((cur ++ String d "") ++ l) with (cur ++ String d l) by (by norm_app).
Qed.

Lemma splitlines_line_list (s : string) :
  contains CR s = false ->
  forall cur, nolb cur = true -> line_list (splitlines_from true cur s).
Proof.
  induction s as [|c r IH]; intros Hcr cur Hcur.
  - cbn. destruct cur as [|d cur]; [constructor|]. by apply ll_last.
  - cbn [contains] in Hcr. apply orb_false_iff in Hcr as [Hc Hr].
    rewrite splitlines_from_step by done.
    destruct (is_linebreak c) eqn:El.
    + apply ll_cons; [|by apply IH]. exists cur, c.
      repeat split; try done. intros ->. by rewrite Ascii.eqb_refl in Hc.
    + apply IH; [done|]. unfold nolb. rewrite all_chars_app. cbn.
      unfold nolb in Hcur. by rewrite Hcur, El.
Qed.

Lemma splitlines_join (L : list string) :
  line_list L -> splitlines true (join L) = L.
Proof.
  unfold splitlines. induction 1 as [|l Hne Hl|l L (body & c & -> & Hb & Hc & Hcr) _ IH].
  - done.
  - unfold join. cbn [foldr]. rewrite app_nil_r, splitlines_from_nolb by done.
    cbn [String.append]. by destruct l.
  - unfold join. cbn [foldr]. fold (join L).
    replace ((body ++ String c "") ++ join L) with (body ++ String c (join L))
      by (by norm_app).
    by rewrite splitlines_from_terminated, IH.
Qed.

Lemma app_last_inv (a b z : string) (c : ascii) :
  z <> "" -> a ++ String c "" = b ++ z ->
  exists z', z = z' ++ String c "" /\ a = b ++ z'.
Proof.
  intros Hz. revert a. induction b as [|d b IH]; intros a H; cbn [String.append] in *.
  - by exists a.
  - destruct a as [|d' a]; cbn [String.append] in H.
    + inversion H as [[Hd Hb]]. by destruct b, z.
    + inversion H as [[Hd Hb]]. destruct (IH a Hb) as (z' & -> & ->).
      by exists z'.
Qed.

(** Replacing the value between the quotes keeps the shape of the line
    list. *)
Lemma line_list_replace (A B : list string) (P value v S : string) :
  nolb v = true -> S <> "" ->
  line_list (A ++ (P ++ value ++ S)%string :: B)%list ->
  line_list (A ++ (P ++ v ++ S)%string :: B)%list.
Proof.
  intros Hv HS.
  assert (Hterm : terminated (P ++ value ++ S) -> terminated (P ++ v ++ S)).
  { intros (body & c & E & Hb & Hc & Hcr).
    rewrite <- app_assoc in E. symmetry in E.
    apply app_last_inv in E as (z' & -> & ->); [|done].
    exists (P ++ v ++ z'), c. split; [by norm_app|]. split; [|done].
    unfold nolb in *. rewrite !all_chars_app in *.
    apply andb_true_iff in Hb as [Hb Hz]. apply andb_true_iff in Hb as [HP _].
    by rewrite HP, Hv, Hz. }
  assert (Hlast : P ++ value ++ S <> "" -> nolb (P ++ value ++ S) = true ->
                  P ++ v ++ S <> "" /\ nolb (P ++ v ++ S) = true).
  { intros _ Hn. split.
    - destruct P, v, S; done.
    - unfold nolb in *. rewrite !all_chars_app in *.
      apply andb_true_iff in Hn as [HP Hn]. apply andb_true_iff in Hn as [_ Hs].
      by rewrite HP, Hv, Hs. }
  induction A as [|l A IH]; cbn [app]; intros H.
  - inversion H; subst.
    + apply ll_last; by apply Hlast.
    + apply ll_cons; [by apply Hterm|done].
  - inversion H; subst.
    + by destruct A.
    + apply ll_cons; [done|by apply IH].
Qed.

Lemma version_prefix_no_section (prefix x : string) :
  version_prefix_re prefix = true -> _SECTION_RE (prefix ++ x) = None.
Proof.
  unfold version_prefix_re, _SECTION_RE. intros H.
  destruct (all_chars is_space prefix) eqn:Ea.
  { by rewrite (lstrip_by_all _ prefix Ea) in H. }
  rewrite lstrip_by_app_some by done.
  destruct (startswith "version" (lstrip_by is_space prefix)) eqn:Es; [|done].
  apply startswith_inv in Es as [r ->]. done.
Qed.

Lemma rstrip_by_app_inv P (x y : string) :
  rstrip_by P (x ++ y) = x ++ y -> rstrip_by P y = y.
Proof.
  induction x as [|c x IH]; cbn [String.append rstrip_by]; [done|].
  destruct (is_empty (rstrip_by P (x ++ y)) && P c); [done|].
  intros H. inversion H. by apply IH.
Qed.

Lemma rstrip_by_idem P (s : string) : rstrip_by P (rstrip_by P s) = rstrip_by P s.
Proof.
  induction s as [|c s IH]; [done|]. cbn [rstrip_by].
  destruct (is_empty (rstrip_by P s) && P c) eqn:E; [done|].
  cbn [rstrip_by]. by rewrite IH, E.
Qed.

(** The line the updater writes is a version line with the new value. *)
Lemma rewritten_line_matches (line prefix current suffix v : string) :
  contains QUOTE v = false ->
  _VERSION_LINE_RE (rstrip_chars [CR; LF] line) = Some (prefix, current, suffix) ->
  let ending := drop_str (String.length (rstrip_chars [CR; LF] line)) line in
  let line' := prefix ++ String QUOTE v ++ String QUOTE suffix ++ ending in
  _SECTION_RE line' = None /\
  _VERSION_LINE_RE (rstrip_chars [CR; LF] line') = Some (prefix, v, suffix).
Proof.
  intros Hv Hm. cbv zeta.
  pose proof (version_line_inv _ _ _ _ Hm) as (Hline & Hpre & Hq & _ & Hsuf).
  split; [by apply version_prefix_no_section|].
  unfold rstrip_chars in *.
  destruct (rstrip_by_decomp (fun c => bool_decide (c ∈ [CR; LF])) line)
    as (e & He & Hall).
  rewrite He at 2. rewrite drop_str_app.
  assert (Hfix : rstrip_by (fun c => bool_decide (c ∈ [CR; LF]))
                   (String QUOTE suffix) = String QUOTE suffix).
  { apply (rstrip_by_app_inv _ (prefix ++ String QUOTE current)).
    replace ((prefix ++ String QUOTE current) ++ String QUOTE suffix)
      with (prefix ++ String QUOTE (current ++ String QUOTE suffix))
      by (by norm_app).
    rewrite <- Hline. apply rstrip_by_idem. }
  replace (prefix ++ String QUOTE v ++ String QUOTE suffix ++ e)
    with ((prefix ++ String QUOTE v ++ String QUOTE suffix) ++ e)
    by (by norm_app).
  rewrite rstrip_by_app_all by done.
  replace (prefix ++ String QUOTE v ++ String QUOTE suffix)
    with ((prefix ++ String QUOTE v) ++ String QUOTE suffix) by (by norm_app).
  rewrite rstrip_by_app by done.
  unfold _VERSION_LINE_RE.
  replace ((prefix ++ String QUOTE v) ++ String QUOTE suffix)
    with (prefix ++ String QUOTE (v ++ String QUOTE suffix)) by (by norm_app).
  rewrite split_once_app, Hpre, split_once_app, Hsuf by done. done.
Qed.

(** Scanning the lines the updater wrote finds the new version. *)
Lemma update_scan_again (v : string) (lines : list string) :
  contains QUOTE v = false ->
  forall (todo before : list string) (in_project : bool) (lines' : list string),
  lines = (before ++ todo)%list ->
  update_scan v lines in_project (length before) todo = Rewritten lines' ->
  exists todo',
    lines' = (before ++ todo')%list /\
    forall L idx, update_scan v L in_project idx todo' = Unchanged.
Proof.
  intros Hv. induction todo as [|line todo IH]; intros before ip lines' Hl H;
    [done|].
  assert (Hnext : forall ip',
            update_scan v lines ip' (S (length before)) todo = Rewritten lines' ->
            exists todo', lines' = (before ++ line :: todo')%list /\
              forall L idx, update_scan v L ip' idx todo' = Unchanged).
  { intros ip' H'.
    destruct (IH (before ++ [line])%list ip' lines') as (todo' & -> & Hagain).
    - by rewrite <- List.app_assoc.
    - by rewrite length_app, Nat.add_1_r.
    - exists todo'. by rewrite <- List.app_assoc. }
  cbn [update_scan] in H.
  destruct (_SECTION_RE line) as [name|] eqn:Esec.
  { destruct (Hnext _ H) as (todo' & -> & Hagain).
    exists (line :: todo'). split; [done|]. intros L idx.
    cbn [update_scan]. by rewrite Esec. }
  destruct ip; cbn [negb] in H.
  2:{ destruct (Hnext _ H) as (todo' & -> & Hagain).
      exists (line :: todo'). split; [done|]. intros L idx.
      cbn [update_scan]. rewrite Esec. cbn [negb]. apply Hagain. }
  destruct (_VERSION_LINE_RE (rstrip_chars [CR; LF] line))
    as [[[prefix current] suffix]|] eqn:Ever.
  2:{ destruct (Hnext _ H) as (todo' & -> & Hagain).
      exists (line :: todo'). split; [done|]. intros L idx.
      cbn [update_scan]. rewrite Esec, Ever. cbn [negb]. apply Hagain. }
  destruct (String.eqb current v); [done|].
  inversion H as [Hlines]. clear H.
  destruct (rewritten_line_matches line prefix current suffix v Hv Ever)
    as [Hsec' Hver'].
  eexists (_ :: todo). split.
  - rewrite Hl. rewrite insert_app_r_alt by lia.
    rewrite Nat.sub_diag. cbn [insert list_insert]. reflexivity.
  - intros L idx. cbn [update_scan]. cbv zeta in Hsec', Hver'.
    match goal with
    | |- context [_SECTION_RE ?x] =>
        replace (_SECTION_RE x) with (@None string) by (symmetry; exact Hsec');
        replace (_VERSION_LINE_RE (rstrip_chars [CR; LF] x))
          with (Some (prefix, v, suffix)) by (symmetry; exact Hver')
    end.
    cbn [negb]. by rewrite String.eqb_refl.
Qed.

Lemma read_back (path v : string) (w : World) :
  linesep w = NL \/ linesep w = CRLF ->
  contains QUOTE v = false -> nolb v = true ->
  (update_pyproject_version path v w).1 = Ok true ->
  let w' := (update_pyproject_version path v w).2 in
  read_pyproject_version path w' = (Ok v, w') /\
  update_pyproject_version path v w' = (Ok false, w').
Proof.
  intros Hsep Hq Hv Hok. cbv zeta.
  pose proof (update_pyproject_version_world path v w) as Hw.
  destruct (update_pyproject_version path v w) as [[[]|e] w'];
    try discriminate Hok. clear Hok. cbn [snd].
  destruct Hw as (stored & lines' & Hf & Hscan & ->).
  pose proof (universal_newlines_cr_free stored) as Hcr.
  set (T := universal_newlines stored) in *.
  (* the text written is free of CR, so it is read back as it is *)
  destruct (update_scan_text v T lines' Hscan)
    as (a & prefix & value & suffix & b & HT & HT' & _).
  assert (Hcr' : contains CR (join lines') = false).
  { rewrite HT in Hcr. rewrite HT'.
    replace (a ++ prefix ++ String QUOTE (value ++ String QUOTE (suffix ++ b)))
      with ((a ++ prefix ++ String QUOTE "") ++ value ++ String QUOTE (suffix ++ b))
      in Hcr by (by norm_app).
    replace (a ++ prefix ++ String QUOTE (v ++ String QUOTE (suffix ++ b)))
      with ((a ++ prefix ++ String QUOTE "") ++ v ++ String QUOTE (suffix ++ b))
      by (by norm_app).
    rewrite !contains_app in *.
    apply orb_false_iff in Hcr as [-> Hcr]. apply orb_false_iff in Hcr as [_ ->].
    rewrite (all_chars_contains _ CR v (fun c H => nolb_not_cr c H) Hv). done. }
  (* the lines of the new text are the lines the updater joined *)
  assert (Hlines : splitlines true (join lines') = lines').
  { apply splitlines_join.
    destruct (update_scan_rewritten v (splitlines true T) (splitlines true T)
                false [] lines' eq_refl Hscan)
      as (mid & p & val & suf & ending & after & Hsplit & -> & _).
    cbn [app].
    replace (p ++ String QUOTE (v ++ String QUOTE (suf ++ ending)))
      with ((p ++ String QUOTE "") ++ v ++ String QUOTE (suf ++ ending))
      by (by norm_app).
    apply line_list_replace with (value := val); [done|done|].
    replace ((p ++ String QUOTE "") ++ val ++ String QUOTE (suf ++ ending))
      with (p ++ String QUOTE (val ++ String QUOTE (suf ++ ending)))
      by (by norm_app).
    rewrite <- Hsplit. by apply splitlines_line_list. }
  (* scanning them finds the new version *)
  destruct (update_scan_again v (splitlines true T) Hq (splitlines true T) []
              false lines' eq_refl Hscan) as (todo' & Htodo & Hagain).
  cbn [app] in Htodo. subst todo'.
  assert (Hread : read_scan false (splitlines false (join lines')) = Some v).
  { pose proof (scan_agree v lines' _ _ (splitlines_ends _ Hcr' "") false 0%nat)
      as H.
    fold (splitlines true (join lines')) in H. rewrite Hlines, Hagain in H.
    exact H. }
  assert (Htext : read_text path
                    (set_files (<[path := translate_newlines (linesep w)
                                            (join lines')]> (files w)) w)
                  = (Ok (join lines'),
                     set_files (<[path := translate_newlines (linesep w)
                                             (join lines')]> (files w)) w)).
  { unfold read_text. cbn [files set_files]. rewrite lookup_insert_eq.
    by rewrite universal_translate. }
  split.
  - unfold read_pyproject_version, bind. rewrite Htext, Hread. done.
  - unfold update_pyproject_version, bind. rewrite Htext, Hlines, Hagain. done.
Qed.

(** X26: the reader finds what the updater wrote.  On a host whose line
    separator is LF or CR LF, after [update_pyproject_version] has
    written a version that holds no quote and no line break,
    [read_pyproject_version] returns that version from the file, and a
    second update with the same version returns False and writes
    nothing. *)
Theorem read_after_update (path v : string) (w : World) :
  linesep w = NL \/ linesep w = CRLF ->
  contains QUOTE v = false -> nolb v = true ->
  (update_pyproject_version path v w).1 = Ok true ->
  let w' := (update_pyproject_version path v w).2 in
  read_pyproject_version path w' = (Ok v, w') /\
  update_pyproject_version path v w' = (Ok false, w').
Proof.
  intros Hsep Hq Hv Hok. cbv zeta.
  destruct (read_back path v w Hsep Hq Hv Hok) as [Hr _]. split; [exact Hr|].
  pose proof (update_read_agree path v (update_pyproject_version path v w).2) as H.
  rewrite Hr in H. cbn [fst] in H. by rewrite String.eqb_refl in H.
Qed.

Lemma read_after_update_witness :
  let w' := (update_pyproject_version "pyproject.toml" "1.0.1"
               (host CRLF "pyproject.toml" (pyproject NL "1.0.0"))).2 in
  read_pyproject_version "pyproject.toml" w' = (Ok "1.0.1", w') /\
  update_pyproject_version "pyproject.toml" "1.0.1" w' = (Ok false, w').
Proof.
  apply (read_after_update "pyproject.toml" "1.0.1"
           (host CRLF "pyproject.toml" (pyproject NL "1.0.0")));
    [right; reflexivity | reflexivity | reflexivity | reflexivity].
Defined.

(** *** Updating, then checking *)





End CiVersionMore.
